(** * Shared-grid cursor prototype: server store, wire protocol, client
    reconciliation and terrain seeds.

    A shallow embedding of the TypeScript sources:
    - [prng.ts]          : [mulberry32], [hash2D]            (module [Prng])
    - [protocol.ts]      : the zod schemas                    (module [Protocol])
    - [server.ts]        : session store and broadcaster      (module [Server])
    - [net/Client.ts]    : [NetClient] and its cursor throttle (module [Net])
    - [GridRenderer.ts]  : replicated cursors, terrain pass   (module [Renderer])
    - [App.tsx]          : the handlers wired to [NetClient]  (module [App])

    Conventions.  A JavaScript number that holds an integer is a [Z]; the
    32-bit conversions of the bit operators are written out ([toInt32],
    [toUint32]).  Wall-clock readings of [performance.now()] are rationals.
    A JavaScript string is a [string], one character per UTF-16 code unit.
    Handlers are state-passing functions that return the new state together
    with the frames they put on sockets, in order. *)

From Stdlib Require Import ZArith QArith Qround Sorted Lia Lqa.
From stdpp Require Import base option list strings.

Local Open Scope Z_scope.

#[local] Set Warnings "-register-all".

(** ** 32-bit integer conversions of the JavaScript bit operators *)

Module JS.

Definition two32 : Z := 4294967296.

(** [x >>> 0] *)
Definition toUint32 (x : Z) : Z := x mod two32.

(** [x | 0] *)
Definition toInt32 (x : Z) : Z :=
  let u := x mod two32 in
  if u <? 2147483648 then u else u - two32.

(** [a ^ b] *)
Definition xor (a b : Z) : Z := toInt32 (Z.lxor (toInt32 a) (toInt32 b)).

(** [a | b] *)
Definition or (a b : Z) : Z := toInt32 (Z.lor (toInt32 a) (toInt32 b)).

(** [a >>> n], for [0 <= n < 32] *)
Definition ushr (a n : Z) : Z := Z.shiftr (toUint32 a) n.

(** [Math.imul(a, b)] *)
Definition imul (a b : Z) : Z := toInt32 (toInt32 a * toInt32 b).

End JS.

(** ** prng.ts *)

Module Prng.

(** The closure returned by [mulberry32] owns one mutable cell [t]; the
    cell is the generator's whole state.  [t += 0x6d2b79f5] is an addition
    of numbers, it does not wrap; it is exact while [t] stays below 2^53,
    some millions of calls, and the terrain pass makes fifteen calls per
    generator. *)
Definition mulberry32 (seed : Z) : Z := JS.ushr seed 0.

(** One call of the returned function: the new cell and the 32-bit
    numerator [u] of the result [u / 4294967296]. *)
Definition next (t : Z) : Z * Z :=
  let t := t + 1831565813 in
  let r := JS.imul (JS.xor t (JS.ushr t 15)) (JS.or 1 t) in
  let r := JS.xor r (r + JS.imul (JS.xor r (JS.ushr r 7)) (JS.or 61 r)) in
  (t, JS.ushr (JS.xor r (JS.ushr r 14)) 0).

(** The value a call returns. *)
Definition rnd_value (u : Z) : Q := u # 4294967296.

(** The numerators of the first [n] calls, and the cell afterwards. *)
Fixpoint draws (n : nat) (t : Z) : list Z * Z :=
  match n with
  | O => ([], t)
  | S n' =>
      let '(t1, u) := next t in
      let '(us, t2) := draws n' t1 in
      (u :: us, t2)
  end.

Definition hash2D (x y salt : Z) : Z :=
  let h := JS.xor 2166136261 salt in
  let h := JS.imul (JS.xor h x) 16777619 in
  let h := JS.imul (JS.xor h y) 16777619 in
  JS.ushr h 0.

(** The default value of [salt]. *)
Definition default_salt : Z := 1337.

End Prng.

(** ** protocol.ts *)

Module Protocol.

(** What [JSON.parse] returns.  An object is the list of its own
    properties; a property is read at its first occurrence. *)
Inductive json : Type :=
| JNull
| JBool (b : bool)
| JNum (q : Q)
| JStr (s : string)
| JArr (items : list json)
| JObj (fields : list (string * json)).

(** An inbound frame after [JSON.parse(String(buf))]: the parser threw, or
    produced a value. *)
Inductive frame : Type :=
| BadJSON
| Json (v : json).

Fixpoint prop (k : string) (fields : list (string * json)) : option json :=
  match fields with
  | [] => None
  | (k', v) :: rest => if String.eqb k' k then Some v else prop k rest
  end.

(** [z.number().int()]: a number that [Number.isInteger] accepts. *)
Definition z_int (v : option json) : option Z :=
  match v with
  | Some (JNum q) =>
      if Qeq_bool q (inject_Z (Qfloor q)) then Some (Qfloor q) else None
  | _ => None
  end.

(** [z.number().int().nonnegative()] *)
Definition z_int_nonnegative (v : option json) : option Z :=
  match z_int v with
  | Some n => if 0 <=? n then Some n else None
  | None => None
  end.

(** [z.literal(1)] *)
Definition z_literal_1 (v : option json) : bool :=
  match v with
  | Some (JNum q) => Qeq_bool q 1
  | _ => false
  end.

(** [z.string().min(1).max(24).optional()]: the outer option is the
    verdict, the inner one the parsed field. *)
Definition z_name (v : option json) : option (option string) :=
  match v with
  | None => Some None
  | Some (JStr s) =>
      if ((1 <=? String.length s) && (String.length s <=? 24))%nat
      then Some (Some s) else None
  | Some _ => None
  end.

(** The parsed client messages.  [version] is the literal 1 and carries
    no information once validated. *)
Inductive ClientToServer : Type :=
| HelloMsg (name : option string)
| CursorMsg (col row : Z)
| PingMsg (t : Z).

Definition HelloMsg_parse (o : list (string * json)) : option ClientToServer :=
  if z_literal_1 (prop "version" o) then
    match z_name (prop "name" o) with
    | Some name => Some (HelloMsg name)
    | None => None
    end
  else None.

Definition CursorMsg_parse (o : list (string * json)) : option ClientToServer :=
  match z_int_nonnegative (prop "col" o), z_int_nonnegative (prop "row" o) with
  | Some col, Some row => Some (CursorMsg col row)
  | _, _ => None
  end.

Definition PingMsg_parse (o : list (string * json)) : option ClientToServer :=
  match z_int (prop "t" o) with
  | Some t => Some (PingMsg t)
  | None => None
  end.

(** [ClientToServer.safeParse(msg)]; [None] is [success: false].  The
    union is discriminated by [kind]; keys outside a schema are ignored. *)
Definition ClientToServer_safeParse (msg : json) : option ClientToServer :=
  match msg with
  | JObj o =>
      match prop "kind" o with
      | Some (JStr kind) =>
          if String.eqb kind "hello" then HelloMsg_parse o
          else if String.eqb kind "cursor" then CursorMsg_parse o
          else if String.eqb kind "ping" then PingMsg_parse o
          else None
      | _ => None
      end
  | _ => None
  end.

Record Cursor : Type := mkCursor { col : Z; row : Z }.

Record Grid : Type := mkGrid { tileSize : Z; cols : Z; rows : Z }.

(** One participant as it travels in [players] and [playerUpdate]. *)
Record Player : Type := mkPlayer {
  id : string;
  name : option string;
  cursor : option Cursor;
  lastSeen : Z
}.

Inductive ServerToClient : Type :=
| WelcomeMsg (yourId : string) (grid : Grid)
| PlayersSnapshotMsg (players : list Player)
| PlayerUpdateMsg (player : Player)
| PlayerLeaveMsg (id : string).

End Protocol.

(** ** The sockets of both sides *)

Module WebSocket.

(** [WebSocket.readyState] *)
Inductive ReadyState : Type := CONNECTING | OPEN | CLOSING | CLOSED.

(** [readyState === WebSocket.OPEN] *)
Definition is_open (r : ReadyState) : bool :=
  match r with OPEN => true | _ => false end.

End WebSocket.

(** ** server.ts *)

Module Server.

Import WebSocket.

(** A socket is named by a handle; game sockets and admin sockets are
    numbered apart. *)
Record ClientState : Type := mkClientState {
  id : string;
  name : option string;
  cursor : option Protocol.Cursor;
  lastSeen : Z;
  ws : nat
}.

Definition GRID : Protocol.Grid :=
  {| Protocol.tileSize := 32; Protocol.cols := 40; Protocol.rows := 24 |}.

(** The admin channel's frame. *)
Record Snapshot : Type := mkSnapshot {
  count : nat;
  grid : Protocol.Grid;
  players : list Protocol.Player
}.

(** What a handler puts on the wire. *)
Inductive Output : Type :=
| Send (ws : nat) (msg : Protocol.ServerToClient)
| AdminSend (s : nat) (snapshot : Snapshot).

(** The [state] object of a connection is shared: the connection's
    closures hold it and [clients] holds it under its id.  [objs] is the
    store of these objects, one per accepted connection and in order of
    acceptance; [clients] is the [Map], keys in insertion order, each
    bound to the index of an object; [admins] is [adminWss.clients]. *)
Record State : Type := mkState {
  objs : list ClientState;
  clients : list (string * nat);
  admins : list nat
}.

(** The ready states of the sockets, which the handlers only read. *)
Record Env : Type := mkEnv {
  game_ready : nat -> ReadyState;
  admin_ready : nat -> ReadyState
}.

Definition init : State := {| objs := []; clients := []; admins := [] |}.

(** [Map.prototype.set]: an existing key keeps its place. *)
Fixpoint map_set (k : string) (v : nat) (m : list (string * nat))
  : list (string * nat) :=
  match m with
  | [] => [(k, v)]
  | (k', v') :: rest =>
      if String.eqb k' k then (k, v) :: rest else (k', v') :: map_set k v rest
  end.

(** [Map.prototype.delete] *)
Definition map_delete (k : string) (m : list (string * nat))
  : list (string * nat) :=
  List.filter (fun kv => negb (String.eqb (fst kv) k)) m.

(** [Map.prototype.get] *)
Fixpoint map_get (k : string) (m : list (string * nat)) : option nat :=
  match m with
  | [] => None
  | (k', v) :: rest => if String.eqb k' k then Some v else map_get k rest
  end.

(** [{ id: c.id, name: c.name, cursor: c.cursor, lastSeen: c.lastSeen }] *)
Definition player_of (c : ClientState) : Protocol.Player :=
  {| Protocol.id := id c; Protocol.name := name c;
     Protocol.cursor := cursor c; Protocol.lastSeen := lastSeen c |}.

(** [Array.from(clients.values())] *)
Definition values (s : State) : list ClientState :=
  omap (fun kv => objs s !! snd kv) (clients s).

Definition same_id (k : string) (exceptId : option string) : bool :=
  match exceptId with
  | Some e => String.eqb k e
  | None => false
  end.

Definition broadcast (env : Env) (s : State)
    (msg : Protocol.ServerToClient) (exceptId : option string) : list Output :=
  flat_map
    (fun kv =>
       if same_id (fst kv) exceptId then []
       else match objs s !! snd kv with
            | Some c =>
                if is_open (game_ready env (ws c)) then [Send (ws c) msg] else []
            | None => []
            end)
    (clients s).

Definition adminBroadcast (env : Env) (s : State) : list Output :=
  let snapshot :=
    {| count := length (clients s); grid := GRID;
       players := player_of <$> values s |} in
  flat_map
    (fun a => if is_open (admin_ready env a) then [AdminSend a snapshot] else [])
    (admins s).

(** [gameWss.on('connection', ...)].  [sock] is the accepted socket and
    [nanoid] the string [nanoid(8)] returned. *)
Definition on_connection (env : Env) (now : Z) (sock : nat) (nanoid : string)
    (s : State) : State * list Output :=
  let state :=
    {| id := nanoid; name := None; cursor := None; lastSeen := now; ws := sock |} in
  let s1 :=
    {| objs := objs s ++ [state];
       clients := map_set nanoid (length (objs s)) (clients s);
       admins := admins s |} in
  (s1,
   [Send sock (Protocol.WelcomeMsg nanoid GRID);
    Send sock (Protocol.PlayersSnapshotMsg (player_of <$> values s1))]
     ++ adminBroadcast env s1).

(** Assignment to a field of the connection's [state] object. *)
Definition store (k : nat) (state : ClientState) (s : State) : State :=
  {| objs := <[k := state]> (objs s); clients := clients s; admins := admins s |}.

Definition set_lastSeen (t : Z) (c : ClientState) : ClientState :=
  {| id := id c; name := name c; cursor := cursor c; lastSeen := t; ws := ws c |}.

Definition set_name (n : option string) (c : ClientState) : ClientState :=
  {| id := id c; name := n; cursor := cursor c; lastSeen := lastSeen c; ws := ws c |}.

Definition set_cursor (p : option Protocol.Cursor) (c : ClientState) : ClientState :=
  {| id := id c; name := name c; cursor := p; lastSeen := lastSeen c; ws := ws c |}.

(** [data.name?.slice(0, 24)] *)
Definition slice24 (n : option string) : option string :=
  String.substring 0 24 <$> n.

(** [Math.max(0, Math.min(hi, v))] *)
Definition clamp (hi v : Z) : Z := Z.max 0 (Z.min hi v).

(** [ws.on('message', ...)] of the connection whose [state] object is
    [objs !! k].  A connection that was never accepted has no handler. *)
Definition on_message (env : Env) (now : Z) (k : nat) (buf : Protocol.frame)
    (s : State) : State * list Output :=
  match objs s !! k with
  | None => (s, [])
  | Some state0 =>
      let state := set_lastSeen now state0 in
      let s1 := store k state s in
      match buf with
      | Protocol.BadJSON => (s1, [])
      | Protocol.Json msg =>
          match Protocol.ClientToServer_safeParse msg with
          | None => (s1, [])
          | Some (Protocol.HelloMsg n) =>
              let state := set_name (slice24 n) state in
              let s2 := store k state s1 in
              (s2,
               broadcast env s2 (Protocol.PlayerUpdateMsg (player_of state)) None
                 ++ adminBroadcast env s2)
          | Some (Protocol.CursorMsg c r) =>
              let col := clamp (Protocol.cols GRID - 1) c in
              let row := clamp (Protocol.rows GRID - 1) r in
              let state :=
                set_cursor (Some {| Protocol.col := col; Protocol.row := row |}) state in
              let s2 := store k state s1 in
              (s2,
               broadcast env s2 (Protocol.PlayerUpdateMsg (player_of state))
                 (Some (id state))
                 ++ adminBroadcast env s2)
          | Some (Protocol.PingMsg _) => (s1, [])
          end
      end
  end.

(** [ws.on('close', ...)] of the same connection; [id] is the constant
    of the closure, which [state.id] always equals. *)
Definition on_close (env : Env) (k : nat) (s : State) : State * list Output :=
  match objs s !! k with
  | None => (s, [])
  | Some state =>
      let s1 :=
        {| objs := objs s; clients := map_delete (id state) (clients s);
           admins := admins s |} in
      (s1,
       broadcast env s1 (Protocol.PlayerLeaveMsg (id state)) None
         ++ adminBroadcast env s1)
  end.

(** [adminWss.on('connection', ...)]; the library has put the socket into
    [adminWss.clients] before the handler runs. *)
Definition on_admin_connection (env : Env) (a : nat) (s : State)
    : State * list Output :=
  let s1 := {| objs := objs s; clients := clients s; admins := admins s ++ [a] |} in
  (s1, adminBroadcast env s1).

(** The events of the server, and a run from a state. *)
Inductive Event : Type :=
| Connection (sock : nat) (nanoid : string)
| Message (k : nat) (buf : Protocol.frame)
| Close (k : nat)
| AdminConnection (a : nat).

Definition step (env : Env) (now : Z) (ev : Event) (s : State)
    : State * list Output :=
  match ev with
  | Connection sock nanoid => on_connection env now sock nanoid s
  | Message k buf => on_message env now k buf s
  | Close k => on_close env k s
  | AdminConnection a => on_admin_connection env a s
  end.

Fixpoint run (evs : list (Env * Z * Event)) (s : State) : State * list Output :=
  match evs with
  | [] => (s, [])
  | (env, now, ev) :: rest =>
      let '(s1, out1) := step env now ev s in
      let '(s2, out2) := run rest s1 in
      (s2, out1 ++ out2)
  end.

(** The two tests at the head of the message handler, read together: the
    parsed message, or [None] when [JSON.parse] throws or validation fails. *)
Definition decode (buf : Protocol.frame) : option Protocol.ClientToServer :=
  match buf with
  | Protocol.BadJSON => None
  | Protocol.Json msg => Protocol.ClientToServer_safeParse msg
  end.

(** The frames of the game channel among the outputs, with their sockets. *)
Definition game_sends (out : list Output)
    : list (nat * Protocol.ServerToClient) :=
  omap (fun o => match o with
                 | Send w m => Some (w, m)
                 | AdminSend _ _ => None
                 end) out.

(** The participant whose object is [objs !! k] is in the store. *)
Definition connected (s : State) (k : nat) : Prop :=
  exists c, objs s !! k = Some c /\ (id c, k) ∈ clients s.

(** The store is keyed: ids are distinct, every key is bound to an
    object carrying that id, and no two bound objects share a socket. *)
Record wf (s : State) : Prop := mkWf {
  wf_keys : NoDup (fst <$> clients s);
  wf_refs : forall i r, (i, r) ∈ clients s ->
              exists c, objs s !! r = Some c /\ id c = i;
  wf_socks : forall i r c i' r' c',
              (i, r) ∈ clients s -> objs s !! r = Some c ->
              (i', r') ∈ clients s -> objs s !! r' = Some c' ->
              ws c = ws c' -> r = r'
}.

(** What the transport and [nanoid] guarantee about an event: a new
    connection comes with an unused id and an unused socket; messages and
    the close arrive on connections that are in the store. *)
Definition admissible (s : State) (ev : Event) : Prop :=
  match ev with
  | Connection sock nanoid =>
      (nanoid ∉ (fst <$> clients s)) /\ (forall c, c ∈ objs s -> ws c <> sock)
  | Message k _ => connected s k
  | Close k => connected s k
  | AdminConnection _ => True
  end.

Inductive reachable : State -> Prop :=
| reach_init : reachable init
| reach_step env now ev s :
    reachable s -> admissible s ev -> reachable (fst (step env now ev s)).

End Server.

(** ** net/Client.ts *)

Module Net.

Import WebSocket.

(** The fields of [NetClient] that change.  [ws] is the socket, or
    [null], with the ready state it is in. *)
Record NetClient : Type := mkNetClient {
  ws : option ReadyState;
  lastSend : Q;
  connecting : bool
}.

(** [new NetClient(url, handlers)] *)
Definition create : NetClient :=
  {| ws := None; lastSend := 0%Q; connecting := false |}.

(** [send(msg)]: the frames handed to [ws.send]. *)
Definition send (msg : Protocol.ClientToServer) (c : NetClient)
    : list Protocol.ClientToServer :=
  match ws c with
  | Some r => if is_open r then [msg] else []
  | None => []
  end.

(** [sendCursor(col, row)] when [performance.now()] reads [now]. *)
Definition sendCursor (now : Q) (col row : Z) (c : NetClient)
    : NetClient * list Protocol.ClientToServer :=
  if Qlt_le_dec (now - lastSend c) 33 then (c, [])
  else
    let c1 := {| ws := ws c; lastSend := now; connecting := connecting c |} in
    (c1, send (Protocol.CursorMsg col row) c1).

(** One [sendCursor] call as the program meets it: the clock reading,
    the tile, and the socket as it is at that moment (the page and the
    network change it between calls). *)
Record Call : Type := mkCall {
  at_now : Q;
  at_col : Z;
  at_row : Z;
  at_ws : option ReadyState
}.

Definition call (k : Call) (c : NetClient)
    : NetClient * list Protocol.ClientToServer :=
  sendCursor (at_now k) (at_col k) (at_row k)
    {| ws := at_ws k; lastSend := lastSend c; connecting := connecting c |}.

(** A sequence of calls; every transmitted frame with the time of the
    call that sent it. *)
Fixpoint calls (ks : list Call) (c : NetClient)
    : NetClient * list (Q * Protocol.ClientToServer) :=
  match ks with
  | [] => (c, [])
  | k :: rest =>
      let '(c1, sent) := call k c in
      let '(c2, later) := calls rest c1 in
      (c2, ((fun m => (at_now k, m)) <$> sent) ++ later)
  end.

(** Two frames in transmission order, at least one window apart. *)
Definition spaced (a b : Q * Protocol.ClientToServer) : Prop :=
  (33 <= fst b - fst a)%Q.

End Net.

(** ** GridRenderer.ts *)

Module Renderer.

Record ReplicatedCursor : Type := mkReplicatedCursor {
  id : string;
  name : option string;
  col : Z;
  row : Z
}.

(** The fields of [GridRenderer] the remote-state operations and [setGrid]
    touch.  [raf] holds whether an animation frame is requested. *)
Record GridRenderer : Type := mkGridRenderer {
  cols : Z;
  rows : Z;
  tileCss : Z;
  raf : bool;
  cursors : list ReplicatedCursor
}.

(** [new GridRenderer(canvas, { tileSize, ... })] *)
Definition create (tileSize : Z) : GridRenderer :=
  {| cols := 0; rows := 0; tileCss := tileSize; raf := false; cursors := [] |}.

(** [scheduleRender()]: one request at a time. *)
Definition scheduleRender (g : GridRenderer) : GridRenderer :=
  if raf g then g
  else {| cols := cols g; rows := rows g; tileCss := tileCss g;
          raf := true; cursors := cursors g |}.

(** The callback of the requested frame. *)
Definition on_frame (g : GridRenderer) : GridRenderer :=
  {| cols := cols g; rows := rows g; tileCss := tileCss g;
     raf := false; cursors := cursors g |}.

Definition with_cursors (l : list ReplicatedCursor) (g : GridRenderer)
    : GridRenderer :=
  {| cols := cols g; rows := rows g; tileCss := tileCss g;
     raf := raf g; cursors := l |}.

(** [setGrid(cols, rows, tileSizeCss)] with the third argument given; a
    zero there is falsy and keeps the tile size. *)
Definition setGrid (c r tileSizeCss : Z) (g : GridRenderer) : GridRenderer :=
  {| cols := c; rows := r;
     tileCss := if tileSizeCss =? 0 then tileCss g else tileSizeCss;
     raf := raf g; cursors := cursors g |}.

Definition setReplicatedCursors (l : list ReplicatedCursor) (g : GridRenderer)
    : GridRenderer :=
  scheduleRender (with_cursors l g).

(** [this.cursors.findIndex(x => x.id === c.id)] *)
Definition findIndex (i : string) (l : list ReplicatedCursor)
    : option (nat * ReplicatedCursor) :=
  list_find (fun x => id x = i) l.

Definition upsert (c : ReplicatedCursor) (l : list ReplicatedCursor)
    : list ReplicatedCursor :=
  match findIndex (id c) l with
  | Some (i, _) => <[i := c]> l
  | None => l ++ [c]
  end.

Definition upsertReplicatedCursor (c : ReplicatedCursor) (g : GridRenderer)
    : GridRenderer :=
  scheduleRender (with_cursors (upsert c (cursors g)) g).

Definition removeReplicatedCursor (i : string) (g : GridRenderer)
    : GridRenderer :=
  scheduleRender
    (with_cursors (List.filter (fun c => negb (String.eqb (id c) i)) (cursors g)) g).

(** *** The terrain pass *)

(** What [drawBaseTerrain] paints for one tile: the origin of the tile,
    the three components of its [hsl] fill and the six speckles. *)
Record Tile : Type := mkTile {
  x : Z;
  y : Z;
  hDeg : Z;
  sat : Z;
  light : Z;
  speckles : list (Q * Q)
}.

(** [Math.floor(rnd() * 10)] *)
Definition floor10 (u : Z) : Z := Qfloor (Prng.rnd_value u * 10).

(** The six iterations of the speckle loop, from generator cell [t]. *)
Fixpoint speckle_loop (n : nat) (x y tile : Z) (t : Z) : list (Q * Q) :=
  match n with
  | O => []
  | S n' =>
      let '(t1, u1) := Prng.next t in
      let '(t2, u2) := Prng.next t1 in
      (inject_Z x + Prng.rnd_value u1 * inject_Z tile,
       inject_Z y + Prng.rnd_value u2 * inject_Z tile)%Q
        :: speckle_loop n' x y tile t2
  end.

(** The body of the two loops at column [c], row [r]. *)
Definition draw_tile (tile : Z) (c r : Z) : Tile :=
  let seed := Prng.hash2D c r 9001 in
  let t0 := Prng.mulberry32 seed in
  let '(t1, u1) := Prng.next t0 in
  let '(t2, u2) := Prng.next t1 in
  let '(t3, u3) := Prng.next t2 in
  {| x := c * tile; y := r * tile;
     hDeg := 112 + floor10 u1 - 5;
     sat := 45 + floor10 u2 - 5;
     light := 44 + floor10 u3 - 5;
     speckles := speckle_loop 6 (c * tile) (r * tile) tile t3 |}.

(** [drawBaseTerrain()]: rows outside, columns inside. *)
Definition drawBaseTerrain (g : GridRenderer) : list Tile :=
  r ← seqZ 0 (rows g); c ← seqZ 0 (cols g); [draw_tile (tileCss g) c r].

End Renderer.

(** ** App.tsx: the handlers given to [NetClient] *)

Module App.

Inductive Status : Type := connecting | online | offline.

Record App : Type := mkApp {
  youRef : option string;
  status : Status;
  gridCss : Z * Z;
  renderer : Renderer.GridRenderer
}.

(** The state the effect sets up before the connection opens. *)
Definition init : App :=
  {| youRef := None; status := connecting; gridCss := (40 * 32, 24 * 32);
     renderer := Renderer.setGrid 40 24 32 (Renderer.create 32) |}.

Definition with_renderer (g : Renderer.GridRenderer) (a : App) : App :=
  {| youRef := youRef a; status := status a; gridCss := gridCss a;
     renderer := g |}.

Definition onWelcome (yourId : string) (grid : Protocol.Grid) (a : App) : App :=
  {| youRef := Some yourId;
     status := online;
     gridCss := (Protocol.cols grid * Protocol.tileSize grid,
                 Protocol.rows grid * Protocol.tileSize grid);
     renderer :=
       Renderer.setGrid (Protocol.cols grid) (Protocol.rows grid)
         (Protocol.tileSize grid) (renderer a) |}.

(** [p.id !== you], where [you] may still be [null]. *)
Definition is_you (i : string) (you : option string) : bool :=
  match you with
  | Some y => String.eqb i y
  | None => false
  end.

(** [p.cursor && p.id !== you] *)
Definition keep (you : option string) (p : Protocol.Player) : bool :=
  match Protocol.cursor p with
  | Some _ => negb (is_you (Protocol.id p) you)
  | None => false
  end.

(** [{ id: p.id, name: p.name, col: p.cursor!.col, row: p.cursor!.row }];
    reading [col] of a missing cursor throws. *)
Definition replicate (p : Protocol.Player) : option Renderer.ReplicatedCursor :=
  match Protocol.cursor p with
  | Some cur =>
      Some {| Renderer.id := Protocol.id p; Renderer.name := Protocol.name p;
              Renderer.col := Protocol.col cur; Renderer.row := Protocol.row cur |}
  | None => None
  end.

Definition onPlayersSnapshot (players : list Protocol.Player) (a : App) : App :=
  let you := youRef a in
  let list := omap replicate (List.filter (keep you) players) in
  with_renderer (Renderer.setReplicatedCursors list (renderer a)) a.

Definition onPlayerUpdate (player : Protocol.Player) (a : App) : App :=
  if is_you (Protocol.id player) (youRef a) then a
  else match replicate player with
       | Some c => with_renderer (Renderer.upsertReplicatedCursor c (renderer a)) a
       | None => a
       end.

Definition onPlayerLeave (i : string) (a : App) : App :=
  with_renderer (Renderer.removeReplicatedCursor i (renderer a)) a.

Definition onDisconnect (a : App) : App :=
  {| youRef := youRef a; status := offline; gridCss := gridCss a;
     renderer := renderer a |}.

(** [ws.onmessage] after validation: one handler per kind. *)
Definition dispatch (msg : Protocol.ServerToClient) (a : App) : App :=
  match msg with
  | Protocol.WelcomeMsg yourId grid => onWelcome yourId grid a
  | Protocol.PlayersSnapshotMsg players => onPlayersSnapshot players a
  | Protocol.PlayerUpdateMsg player => onPlayerUpdate player a
  | Protocol.PlayerLeaveMsg i => onPlayerLeave i a
  end.

(** The handler invocations of a session, in order. *)
Definition deliver (msgs : list Protocol.ServerToClient) (a : App) : App :=
  fold_left (fun acc m => dispatch m acc) msgs a.

(** In a sequence of deliveries every [welcome] carries [you], and no
    [players] or [playerUpdate] comes before the first [welcome]. *)
Fixpoint welcome_first (you : string) (seen : bool)
    (msgs : list Protocol.ServerToClient) : bool :=
  match msgs with
  | [] => true
  | Protocol.WelcomeMsg i _ :: rest => String.eqb i you && welcome_first you true rest
  | Protocol.PlayerLeaveMsg _ :: rest => welcome_first you seen rest
  | _ :: rest => seen && welcome_first you seen rest
  end.

(** Where an entry of the replicated set can come from: a player of a
    delivered [playerUpdate] or [players] frame. *)
Definition reported (msgs : list Protocol.ServerToClient) (p : Protocol.Player)
  : Prop :=
  Protocol.PlayerUpdateMsg p ∈ msgs
  \/ exists ps, Protocol.PlayersSnapshotMsg ps ∈ msgs /\ p ∈ ps.

(** The replicated set holds no entry of [you]. *)
Definition no_entry_of (you : string) (a : App) : Prop :=
  Forall (fun c => Renderer.id c <> you) (Renderer.cursors (renderer a)).

(** The invariant of a session: before the welcome nothing is known and
    the set is empty; after it [youRef] is the local id; the set never holds
    the local id. *)
Definition session_inv (you : string) (seen : bool) (a : App) : Prop :=
  (if seen then youRef a = Some you
   else youRef a = None /\ Renderer.cursors (renderer a) = [])
  /\ no_entry_of you a.

End App.

(** ** protocol.ts: the server's frames; the frames on the wire *)

Module Wire.

Import Protocol.

(** [z.string()] *)
Definition z_string (v : option json) : option string :=
  match v with
  | Some (JStr s) => Some s
  | _ => None
  end.

(** [z.string().optional()] *)
Definition z_string_optional (v : option json) : option (option string) :=
  match v with
  | None => Some None
  | Some (JStr s) => Some (Some s)
  | Some _ => None
  end.

(** [z.number().int().positive()] *)
Definition z_int_positive (v : option json) : option Z :=
  match z_int v with
  | Some n => if 0 <? n then Some n else None
  | None => None
  end.

(** [z.object({ col: ..., row: ... }).optional()] *)
Definition z_cursor_optional (v : option json) : option (option Cursor) :=
  match v with
  | None => Some None
  | Some (JObj o) =>
      match z_int_nonnegative (prop "col" o), z_int_nonnegative (prop "row" o) with
      | Some c, Some r => Some (Some {| col := c; row := r |})
      | _, _ => None
      end
  | Some _ => None
  end.

(** The object schema shared by [players] and [playerUpdate]. *)
Definition player_parse (v : option json) : option Player :=
  match v with
  | Some (JObj o) =>
      match z_string (prop "id" o), z_string_optional (prop "name" o),
            z_cursor_optional (prop "cursor" o), z_int (prop "lastSeen" o) with
      | Some i, Some n, Some c, Some t =>
          Some {| id := i; name := n; cursor := c; lastSeen := t |}
      | _, _, _, _ => None
      end
  | _ => None
  end.

(** The [grid] object of [WelcomeMsg]. *)
Definition grid_parse (v : option json) : option Grid :=
  match v with
  | Some (JObj o) =>
      match z_int_positive (prop "tileSize" o), z_int_positive (prop "cols" o),
            z_int_positive (prop "rows" o) with
      | Some t, Some c, Some r => Some {| tileSize := t; cols := c; rows := r |}
      | _, _, _ => None
      end
  | _ => None
  end.

Definition WelcomeMsg_parse (o : list (string * json)) : option ServerToClient :=
  match z_string (prop "yourId" o), grid_parse (prop "grid" o) with
  | Some i, Some g => Some (WelcomeMsg i g)
  | _, _ => None
  end.

(** [z.array(...)]: every item must pass. *)
Definition PlayersSnapshotMsg_parse (o : list (string * json))
    : option ServerToClient :=
  match prop "players" o with
  | Some (JArr items) =>
      PlayersSnapshotMsg <$> mapM (fun v => player_parse (Some v)) items
  | _ => None
  end.

Definition PlayerUpdateMsg_parse (o : list (string * json)) : option ServerToClient :=
  PlayerUpdateMsg <$> player_parse (prop "player" o).

Definition PlayerLeaveMsg_parse (o : list (string * json)) : option ServerToClient :=
  PlayerLeaveMsg <$> z_string (prop "id" o).

(** [ServerToClient.safeParse(msg)] *)
Definition ServerToClient_safeParse (msg : json) : option ServerToClient :=
  match msg with
  | JObj o =>
      match prop "kind" o with
      | Some (JStr kind) =>
          if String.eqb kind "welcome" then WelcomeMsg_parse o
          else if String.eqb kind "players" then PlayersSnapshotMsg_parse o
          else if String.eqb kind "playerUpdate" then PlayerUpdateMsg_parse o
          else if String.eqb kind "playerLeave" then PlayerLeaveMsg_parse o
          else None
      | _ => None
      end
  | _ => None
  end.

(** What the peer's [JSON.parse] returns for the text [JSON.stringify]
    made of an object literal: the same properties in the same order, a
    property whose value is [undefined] left out. *)
Definition field {A} (k : string) (f : A -> json) (v : option A)
    : list (string * json) :=
  match v with
  | Some a => [(k, f a)]
  | None => []
  end.

Definition num (n : Z) : json := JNum (inject_Z n).

Definition cursor_json (c : Cursor) : json :=
  JObj [("col", num (col c)); ("row", num (row c))].

(** [{ id: c.id, name: c.name, cursor: c.cursor, lastSeen: c.lastSeen }] *)
Definition player_json (p : Player) : json :=
  JObj ([("id", JStr (id p))] ++ field "name" JStr (name p)
          ++ field "cursor" cursor_json (cursor p)
          ++ [("lastSeen", num (lastSeen p))]).

Definition grid_json (g : Grid) : json :=
  JObj [("tileSize", num (tileSize g)); ("cols", num (cols g));
        ("rows", num (rows g))].

(** The frames the server writes with [JSON.stringify]. *)
Definition server_json (m : ServerToClient) : json :=
  match m with
  | WelcomeMsg i g =>
      JObj [("kind", JStr "welcome"); ("yourId", JStr i); ("grid", grid_json g)]
  | PlayersSnapshotMsg ps =>
      JObj [("kind", JStr "players"); ("players", JArr (player_json <$> ps))]
  | PlayerUpdateMsg p =>
      JObj [("kind", JStr "playerUpdate"); ("player", player_json p)]
  | PlayerLeaveMsg i =>
      JObj [("kind", JStr "playerLeave"); ("id", JStr i)]
  end.

(** The frames [NetClient] writes: [{ kind: 'hello', version: 1, name }] on
    open and [{ kind: 'cursor', col, row }] from [sendCursor]. *)
Definition hello_json (name : option string) : json :=
  JObj ([("kind", JStr "hello"); ("version", num 1)] ++ field "name" JStr name).

Definition cursor_msg_json (c r : Z) : json :=
  JObj [("kind", JStr "cursor"); ("col", num c); ("row", num r)].

(** The conditions of the schemas on a server frame. *)
Definition player_ok (p : Player) : bool :=
  match cursor p with
  | Some c => (0 <=? col c) && (0 <=? row c)
  | None => true
  end.

Definition frame_ok (m : ServerToClient) : bool :=
  match m with
  | WelcomeMsg _ g => (0 <? tileSize g) && (0 <? cols g) && (0 <? rows g)
  | PlayersSnapshotMsg ps => forallb player_ok ps
  | PlayerUpdateMsg p => player_ok p
  | PlayerLeaveMsg _ => true
  end.

(** [ws.onmessage] of [NetClient] with the handlers of the application:
    frames that fail to parse or to validate are dropped. *)
Definition onmessage (data : frame) (a : App.App) : App.App :=
  match data with
  | BadJSON => a
  | Json msg =>
      match ServerToClient_safeParse msg with
      | None => a
      | Some m => App.dispatch m a
      end
  end.

End Wire.

(** ** color.ts *)

Module Color.

(** [id.charCodeAt(i)] *)
Definition charCode (a : Ascii.ascii) : Z := Z.of_nat (Ascii.nat_of_ascii a).

(** The loop of [colorForId] from the value [h]; [%] is the remainder that
    takes the sign of the dividend. *)
Fixpoint hue_from (h : Z) (id : string) : Z :=
  match id with
  | EmptyString => h
  | String a rest => hue_from (Z.rem (h * 31 + charCode a) 360) rest
  end.

(** The three numbers of the [hsl(h s% l%)] string [colorForId] returns. *)
Definition colorForId (id : string) : Z * Z * Z := (hue_from 0 id, 70, 55).

End Color.

(** ** GridRenderer.ts: the pointer, and the frames requested *)

Module Hover.

(** The renderer with its [hover] field. *)
Record View : Type := mkView {
  grid : Renderer.GridRenderer;
  hover : option (Z * Z)
}.

Definition with_hover (h : option (Z * Z)) (g : Renderer.GridRenderer) : View :=
  {| grid := g; hover := h |}.

(** [!this.hover || this.hover.x !== col || this.hover.y !== row] *)
Definition changed (h : option (Z * Z)) (col row : Z) : bool :=
  match h with
  | Some (hx, hy) => negb (hx =? col) || negb (hy =? row)
  | None => true
  end.

(** [onMouseMove(e)] with the pointer at [(xCss, yCss)] from the corner of
    the canvas: the new view and the calls of [onHoverTile].  With a tile
    size of 0 the quotients are not finite numbers (infinite, or NaN); that
    case is left out and gives [None]. *)
Definition onMouseMove (xCss yCss : Q) (v : View) : option (View * list (Z * Z)) :=
  let tile := Renderer.tileCss (grid v) in
  if tile =? 0 then None
  else
    let col := Qfloor (xCss / inject_Z tile) in
    let row := Qfloor (yCss / inject_Z tile) in
    if (col <? 0) || (row <? 0)
       || (Renderer.cols (grid v) <=? col) || (Renderer.rows (grid v) <=? row)
    then
      Some (match hover v with
            | Some _ => with_hover None (Renderer.scheduleRender (grid v))
            | None => v
            end, [])
    else if changed (hover v) col row
    then Some (with_hover (Some (col, row)) (Renderer.scheduleRender (grid v)),
               [(col, row)])
    else Some (v, []).

(** [onMouseLeave()] *)
Definition onMouseLeave (v : View) : View :=
  match hover v with
  | Some _ => with_hover None (Renderer.scheduleRender (grid v))
  | None => v
  end.

(** The remote-state operations, as the network layer calls them. *)
Inductive Op : Type :=
| SetCursors (l : list Renderer.ReplicatedCursor)
| Upsert (c : Renderer.ReplicatedCursor)
| Remove (i : string).

Definition apply (op : Op) (g : Renderer.GridRenderer) : Renderer.GridRenderer :=
  match op with
  | SetCursors l => Renderer.setReplicatedCursors l g
  | Upsert c => Renderer.upsertReplicatedCursor c g
  | Remove i => Renderer.removeReplicatedCursor i g
  end.

(** The calls of [requestAnimationFrame] that [scheduleRender()] makes in a
    state: one, unless a frame is already requested. *)
Definition requested (g : Renderer.GridRenderer) : nat :=
  if Renderer.raf g then 0%nat else 1%nat.

(** Operations in a row, no frame in between: the state afterwards and the
    number of calls of [requestAnimationFrame]. *)
Fixpoint apply_all (ops : list Op) (g : Renderer.GridRenderer)
    : Renderer.GridRenderer * nat :=
  match ops with
  | [] => (g, 0%nat)
  | op :: rest =>
      let '(g', n) := apply_all rest (apply op g) in
      (g', (requested g + n)%nat)
  end.

End Hover.

(** ** net/Client.ts: the connection of [NetClient] *)

Module Conn.

Import WebSocket.

(** What the methods do to the world outside the object. *)
Inductive Effect : Type :=
| NewSocket                                 (* [new WebSocket(this.url)] *)
| SocketSend (msg : Protocol.json)          (* [this.ws.send(...)] *)
| SocketClose                               (* [this.ws.close()] *)
| Disconnected.                             (* [this.handlers.onDisconnect()] *)

(** The socket [this.ws] refers to, if any, is in ready state [r] now. *)
Definition observe (r : ReadyState) (c : Net.NetClient) : Net.NetClient :=
  {| Net.ws := (fun _ => r) <$> Net.ws c; Net.lastSend := Net.lastSend c;
     Net.connecting := Net.connecting c |}.

Definition is_OPEN (c : Net.NetClient) : bool :=
  match Net.ws c with
  | Some r => is_open r
  | None => false
  end.

(** [connect(name)]; the socket it makes starts in [CONNECTING]. *)
Definition connect (c : Net.NetClient) : Net.NetClient * list Effect :=
  if is_OPEN c then (c, [])
  else if Net.connecting c then (c, [])
  else ({| Net.ws := Some CONNECTING; Net.lastSend := Net.lastSend c;
           Net.connecting := true |}, [NewSocket]).

(** [send(msg)] with the frame as text. *)
Definition send (msg : Protocol.json) (c : Net.NetClient) : list Effect :=
  if is_OPEN c then [SocketSend msg] else [].

(** [ws.onopen] of a socket made by [connect(name)]. *)
Definition onopen (name : option string) (c : Net.NetClient)
    : Net.NetClient * list Effect :=
  let c1 := {| Net.ws := Net.ws c; Net.lastSend := Net.lastSend c;
               Net.connecting := false |} in
  (c1, send (Wire.hello_json name) c1).

(** [ws.onclose] of a socket made by [connect]. *)
Definition onclose (c : Net.NetClient) : Net.NetClient * list Effect :=
  ({| Net.ws := None; Net.lastSend := Net.lastSend c; Net.connecting := false |},
   [Disconnected]).

(** [close()] *)
Definition close (c : Net.NetClient) : Net.NetClient * list Effect :=
  ({| Net.ws := None; Net.lastSend := Net.lastSend c; Net.connecting := false |},
   match Net.ws c with
   | Some OPEN | Some CONNECTING => [SocketClose]
   | _ => []
   end).

End Conn.

(** * Properties *)

(** ** The seed function and the generator *)

Lemma toUint32_range (x : Z) : 0 <= JS.toUint32 x < JS.two32.
Proof. unfold JS.toUint32, JS.two32. apply Z.mod_pos_bound. lia. Qed.

Lemma ushr0_range (x : Z) : 0 <= JS.ushr x 0 < JS.two32.
Proof. unfold JS.ushr. rewrite Z.shiftr_0_r. apply toUint32_range. Qed.

Lemma hash2D_range (x y salt : Z) : 0 <= Prng.hash2D x y salt < JS.two32.
Proof. unfold Prng.hash2D. apply ushr0_range. Qed.

Lemma next_range (t : Z) : 0 <= snd (Prng.next t) < JS.two32.
Proof. unfold Prng.next. cbn [snd]. apply ushr0_range. Qed.

(** The generator seeded with 1 starts 0.6270739405881613,
    0.002735721180215478, ...; the seed of the tile at the origin. *)
Example mulberry32_seed_1 :
  fst (Prng.draws 3 (Prng.mulberry32 1)) = [2693262067; 11749833; 2265367787].
Proof. vm_compute. reflexivity. Qed.

Example hash2D_origin : Prng.hash2D 0 0 9001 = 765380300.
Proof. vm_compute. reflexivity. Qed.

(** A call of the generator returns a number in [0, 1). *)
Lemma rnd_value_range (u : Z) :
  0 <= u < JS.two32 -> (0 <= Prng.rnd_value u < 1)%Q.
Proof.
  unfold JS.two32, Prng.rnd_value. intros [Hlo Hhi].
  split; unfold Qle, Qlt; cbn; lia.
Qed.

(** [Math.floor(rnd() * 10)] is the integer quotient, a digit. *)
Lemma floor10_div (u : Z) : Renderer.floor10 u = u * 10 / 4294967296.
Proof.
  unfold Renderer.floor10, Prng.rnd_value, Qfloor, Qmult. cbn [Qnum Qden].
  reflexivity.
Qed.

Lemma floor10_range (u : Z) :
  0 <= u < JS.two32 -> 0 <= Renderer.floor10 u <= 9.
Proof.
  unfold JS.two32. intros [Hlo Hhi]. rewrite floor10_div. split.
  - apply Z.div_pos; lia.
  - assert (u * 10 / 4294967296 < 10); [|lia].
    apply Z.div_lt_upper_bound; lia.
Qed.

(** The sequence of a generator continues where a shorter one stopped. *)
Lemma draws_app (n m : nat) (t : Z) :
  Prng.draws (n + m) t =
  (fst (Prng.draws n t) ++ fst (Prng.draws m (snd (Prng.draws n t))),
   snd (Prng.draws m (snd (Prng.draws n t)))).
Proof.
  revert t. induction n as [|n IH]; intros t; cbn [Prng.draws Nat.add].
  - cbn. destruct (Prng.draws m t); reflexivity.
  - destruct (Prng.next t) as [t1 u] eqn:Hn.
    rewrite IH. destruct (Prng.draws n t1) as [us t2]. cbn. reflexivity.
Qed.

Lemma draws_length (n : nat) (t : Z) : length (fst (Prng.draws n t)) = n.
Proof.
  revert t. induction n as [|n IH]; intros t; cbn [Prng.draws]; [reflexivity|].
  destruct (Prng.next t) as [t1 u]. specialize (IH t1).
  destruct (Prng.draws n t1) as [us t2]. cbn in *. lia.
Qed.

(** The inner loop of the terrain pass paints one tile per column. *)
Lemma bind_singleton_fmap {A B} (f : A -> B) (l : list A) :
  (a ← l; [f a]) = f <$> l.
Proof. induction l as [|a l IH]; cbn; [reflexivity|]. congruence. Qed.

Lemma lookup_bind_rows {A B} (g : A -> list B) (n : nat) (l : list A)
    (i j : nat) (a : A) :
  (forall a', length (g a') = n) -> l !! i = Some a -> (j < n)%nat ->
  (l ≫= g) !! (i * n + j)%nat = g a !! j.
Proof.
  intros Hlen. revert i. induction l as [|a0 l IH]; intros i Hi Hj.
  - discriminate.
  - cbn [mbind list_bind]. destruct i as [|i].
    + cbn in Hi. injection Hi as ->. cbn [Nat.mul Nat.add].
      rewrite lookup_app_l; [reflexivity|]. rewrite Hlen. exact Hj.
    + cbn in Hi. rewrite lookup_app_r by (rewrite Hlen; lia). rewrite Hlen.
      replace (S i * n + j - n)%nat with (i * n + j)%nat by lia.
      apply IH; assumption.
Qed.

(** Tile [(c, r)] is painted at place [r * cols + c] of the pass, with the
    body of the loops evaluated at [(c, r)]. *)
Lemma drawBaseTerrain_lookup (g : Renderer.GridRenderer) (c r : Z) :
  0 <= c < Renderer.cols g -> 0 <= r < Renderer.rows g ->
  Renderer.drawBaseTerrain g !! Z.to_nat (r * Renderer.cols g + c)
  = Some (Renderer.draw_tile (Renderer.tileCss g) c r).
Proof.
  intros Hc Hr. unfold Renderer.drawBaseTerrain.
  replace (Z.to_nat (r * Renderer.cols g + c))
    with (Z.to_nat r * Z.to_nat (Renderer.cols g) + Z.to_nat c)%nat by nia.
  rewrite (lookup_bind_rows _ (Z.to_nat (Renderer.cols g)) _ _ _ r).
  - rewrite bind_singleton_fmap, list_lookup_fmap.
    rewrite lookup_seqZ_lt by lia. cbn.
    replace (Z.of_nat (Z.to_nat c)) with c by lia. reflexivity.
  - intros r'. rewrite bind_singleton_fmap, length_fmap. apply length_seqZ.
  - rewrite lookup_seqZ_lt by lia. f_equal. lia.
  - lia.
Qed.

(** The fill of a tile does not depend on the tile size. *)
Lemma draw_tile_fill (tile tile' c r : Z) :
  Renderer.hDeg (Renderer.draw_tile tile c r) = Renderer.hDeg (Renderer.draw_tile tile' c r)
  /\ Renderer.sat (Renderer.draw_tile tile c r) = Renderer.sat (Renderer.draw_tile tile' c r)
  /\ Renderer.light (Renderer.draw_tile tile c r) = Renderer.light (Renderer.draw_tile tile' c r).
Proof.
  unfold Renderer.draw_tile.
  destruct (Prng.next (Prng.mulberry32 (Prng.hash2D c r 9001))) as [t1 u1].
  destruct (Prng.next t1) as [t2 u2]. destruct (Prng.next t2) as [t3 u3].
  cbn [Renderer.hDeg Renderer.sat Renderer.light]. auto.
Qed.

(** C10.  The terrain seed and the generator seeded from it are functions
    of their inputs alone: equal coordinates and salt give the same seed and
    the same sequence of any length, and a longer run of the generator
    starts with the shorter one.  Hence the tile at column [c], row [r] gets
    the same fill in every pass over every grid that holds it, whatever the
    grid's dimensions, its other tiles and the rest of the renderer's state;
    with the same tile size the whole tile, speckles included, is the same. *)
Theorem terrain_variation_deterministic :
  (forall x y salt x' y' salt' (n m : nat),
      x = x' -> y = y' -> salt = salt' ->
      Prng.hash2D x y salt = Prng.hash2D x' y' salt'
      /\ Prng.draws n (Prng.mulberry32 (Prng.hash2D x y salt))
         = Prng.draws n (Prng.mulberry32 (Prng.hash2D x' y' salt'))
      /\ take n (fst (Prng.draws (n + m) (Prng.mulberry32 (Prng.hash2D x y salt))))
         = fst (Prng.draws n (Prng.mulberry32 (Prng.hash2D x' y' salt'))))
  /\ (forall (g g' : Renderer.GridRenderer) (c r : Z),
      0 <= c < Renderer.cols g -> 0 <= r < Renderer.rows g ->
      0 <= c < Renderer.cols g' -> 0 <= r < Renderer.rows g' ->
      exists t t',
        Renderer.drawBaseTerrain g !! Z.to_nat (r * Renderer.cols g + c) = Some t
        /\ Renderer.drawBaseTerrain g' !! Z.to_nat (r * Renderer.cols g' + c) = Some t'
        /\ Renderer.hDeg t = Renderer.hDeg t'
        /\ Renderer.sat t = Renderer.sat t'
        /\ Renderer.light t = Renderer.light t'
        /\ (Renderer.tileCss g = Renderer.tileCss g' -> t = t')).
Proof.
  split.
  - intros x y salt x' y' salt' n m -> -> ->.
    split; [reflexivity|]. split; [reflexivity|].
    rewrite draws_app. cbn [fst].
    rewrite take_app_length'; [reflexivity|]. symmetry. apply draws_length.
  - intros g g' c r Hc Hr Hc' Hr'.
    exists (Renderer.draw_tile (Renderer.tileCss g) c r),
           (Renderer.draw_tile (Renderer.tileCss g') c r).
    rewrite !drawBaseTerrain_lookup by assumption.
    destruct (draw_tile_fill (Renderer.tileCss g) (Renderer.tileCss g') c r)
      as (Hh & Hs & Hl).
    split; [reflexivity|]. split; [reflexivity|].
    split; [exact Hh|]. split; [exact Hs|]. split; [exact Hl|].
    intros ->. reflexivity.
Qed.

(** The 40 x 24 grid of the server and a 3 x 2 grid with smaller tiles
    paint tile (1, 1) with the same fill; the seed of that tile and the
    first three numbers drawn from it. *)
Lemma terrain_variation_witness :
  (0 <= 1 < Renderer.cols (Renderer.setGrid 40 24 32 (Renderer.create 32))
   /\ 0 <= 1 < Renderer.rows (Renderer.setGrid 3 2 16 (Renderer.create 32)))
  /\ (Prng.hash2D 1 1 9001 = Prng.hash2D 1 1 9001
      /\ Prng.draws 3 (Prng.mulberry32 (Prng.hash2D 1 1 9001))
         = Prng.draws 3 (Prng.mulberry32 (Prng.hash2D 1 1 9001))
      /\ take 3 (fst (Prng.draws (3 + 12) (Prng.mulberry32 (Prng.hash2D 1 1 9001))))
         = fst (Prng.draws 3 (Prng.mulberry32 (Prng.hash2D 1 1 9001))))
  /\ exists t t',
    Renderer.drawBaseTerrain (Renderer.setGrid 40 24 32 (Renderer.create 32)) !! 41%nat
      = Some t
    /\ Renderer.drawBaseTerrain (Renderer.setGrid 3 2 16 (Renderer.create 32)) !! 4%nat
      = Some t'
    /\ Renderer.hDeg t = Renderer.hDeg t'
    /\ Renderer.sat t = Renderer.sat t'
    /\ Renderer.light t = Renderer.light t'.
Proof.
  split; [cbn; lia|]. split.
  - apply (proj1 terrain_variation_deterministic 1 1 9001 1 1 9001 3%nat 12%nat);
      reflexivity.
  - destruct (proj2 terrain_variation_deterministic
                (Renderer.setGrid 40 24 32 (Renderer.create 32))
                (Renderer.setGrid 3 2 16 (Renderer.create 32)) 1 1)
      as (t & t' & H1 & H2 & Hh & Hs & Hl & _);
      [cbn; lia | cbn; lia | cbn; lia | cbn; lia |].
    exists t, t'. exact (conj H1 (conj H2 (conj Hh (conj Hs Hl)))).
Defined.

(** ** The cursor throttle of [NetClient] *)

Section Throttle.

Import Net.

Lemma call_dropped (k : Call) (c : NetClient) :
  (at_now k - lastSend c < 33)%Q ->
  call k c
  = ({| ws := at_ws k; lastSend := lastSend c; connecting := connecting c |}, []).
Proof.
  intros Hlt. unfold call, sendCursor. cbn [lastSend].
  destruct (Qlt_le_dec (at_now k - lastSend c) 33) as [_|Hge];
    [reflexivity | lra].
Qed.

Lemma call_passed (k : Call) (c : NetClient) :
  (33 <= at_now k - lastSend c)%Q ->
  call k c
  = ({| ws := at_ws k; lastSend := at_now k; connecting := connecting c |},
     match at_ws k with
     | Some r =>
         if WebSocket.is_open r
         then [Protocol.CursorMsg (at_col k) (at_row k)] else []
     | None => []
     end).
Proof.
  intros Hge. unfold call, sendCursor. cbn [lastSend ws connecting].
  destruct (Qlt_le_dec (at_now k - lastSend c) 33) as [Hlt|_]; [lra|].
  reflexivity.
Qed.

Lemma calls_cons (k : Call) (rest : list Call) (c : NetClient) :
  calls (k :: rest) c
  = (fst (calls rest (fst (call k c))),
     ((fun m => (at_now k, m)) <$> snd (call k c))
       ++ snd (calls rest (fst (call k c)))).
Proof.
  cbn [calls]. destruct (call k c) as [c1 sent].
  cbn [fst snd]. destruct (calls rest c1) as [c2 later]. reflexivity.
Qed.

(** Along a run [lastSend] never decreases; every transmitted frame left
    at least a window after the [lastSend] the run started from and no
    later than the [lastSend] it ends with; the frames are spaced. *)
Lemma calls_inv (ks : list Call) (c : NetClient) :
  (lastSend c <= lastSend (fst (calls ks c)))%Q
  /\ Forall (fun p => (lastSend c + 33 <= fst p
                       /\ fst p <= lastSend (fst (calls ks c)))%Q)
            (snd (calls ks c))
  /\ StronglySorted spaced (snd (calls ks c)).
Proof.
  revert c. induction ks as [|k rest IH]; intros c.
  - cbn. split; [lra|]. split; constructor.
  - rewrite calls_cons. cbn [fst snd].
    destruct (Qlt_le_dec (at_now k - lastSend c) 33) as [Hlt|Hge].
    + rewrite (call_dropped k c Hlt). cbn [fst snd fmap list_fmap app].
      specialize (IH {| ws := at_ws k; lastSend := lastSend c;
                        connecting := connecting c |}).
      exact IH.
    + rewrite (call_passed k c Hge). cbn [fst snd].
      set (c1 := {| ws := at_ws k; lastSend := at_now k;
                    connecting := connecting c |}).
      destruct (IH c1) as (Hmono & Hbound & Hsorted).
      change (lastSend c1) with (at_now k) in Hmono, Hbound.
      split; [lra|].
      assert (Hlater :
                Forall (fun p => (lastSend c + 33 <= fst p
                                  /\ fst p <= lastSend (fst (calls rest c1)))%Q)
                       (snd (calls rest c1))).
      { eapply Forall_impl; [exact Hbound|]. cbn beta. intros p [H1 H2].
        split; lra. }
      assert (Hgap : forall m,
                 Forall (spaced (at_now k, m)) (snd (calls rest c1))).
      { intros m. eapply Forall_impl; [exact Hbound|]. cbn beta.
        intros p [H1 H2]. unfold spaced. cbn [fst]. lra. }
      destruct (at_ws k) as [r|]; [destruct (WebSocket.is_open r)|];
        cbn [fmap list_fmap app].
      * split; [constructor; [cbn [fst]; split; lra | exact Hlater]|].
        constructor; [exact Hsorted | apply Hgap].
      * split; assumption.
      * split; assumption.
Qed.

Lemma spaced_in_order (l pre mid post : list (Q * Protocol.ClientToServer)) a b :
  StronglySorted spaced l -> l = pre ++ a :: mid ++ b :: post -> spaced a b.
Proof.
  intros Hs ->. revert Hs. induction pre as [|p pre IH]; intros Hs.
  - cbn in Hs. inversion Hs as [|? ? _ Hall]; subst.
    apply Forall_app in Hall as [_ Hall].
    inversion Hall; subst. assumption.
  - cbn in Hs. inversion Hs; subst. apply IH. assumption.
Qed.

End Throttle.

(** C6 (as the code has it).  Whatever the calls of [sendCursor] and their
    clock readings: two transmitted cursor frames are at least 33 ms apart;
    a call less than 33 ms after a transmitted frame transmits nothing and
    leaves [lastSend] as it was, so it is dropped, not kept for later; a
    call less than 33 ms after [lastSend] does the same; and a call at
    least 33 ms after [lastSend] moves [lastSend] to its own reading whether
    or not the socket is open, transmitting its frame only when it is: the
    window runs from the last call that passed the test, and a transmission
    that [send] skips has used it up. *)
Theorem cursor_throttle_window (c : Net.NetClient) (ks : list Net.Call) :
  (forall pre a mid b post,
      snd (Net.calls ks c) = pre ++ a :: mid ++ b :: post ->
      (33 <= fst b - fst a)%Q)
  /\ (forall k t m,
      (t, m) ∈ snd (Net.calls ks c) -> (Net.at_now k - t < 33)%Q ->
      snd (Net.call k (fst (Net.calls ks c))) = []
      /\ Net.lastSend (fst (Net.call k (fst (Net.calls ks c))))
         = Net.lastSend (fst (Net.calls ks c)))
  /\ (forall k,
      (Net.at_now k - Net.lastSend c < 33)%Q ->
      snd (Net.call k c) = []
      /\ Net.lastSend (fst (Net.call k c)) = Net.lastSend c)
  /\ (forall k,
      (33 <= Net.at_now k - Net.lastSend c)%Q ->
      Net.lastSend (fst (Net.call k c)) = Net.at_now k
      /\ snd (Net.call k c)
         = match Net.at_ws k with
           | Some WebSocket.OPEN =>
               [Protocol.CursorMsg (Net.at_col k) (Net.at_row k)]
           | _ => []
           end).
Proof.
  destruct (calls_inv ks c) as (Hmono & Hbound & Hsorted).
  split; [|split; [|split]].
  - intros pre a mid b post Heq.
    exact (spaced_in_order _ pre mid post a b Hsorted Heq).
  - intros k t m Hin Hlt.
    rewrite Forall_forall in Hbound. specialize (Hbound (t, m) Hin).
    cbn [fst] in Hbound. destruct Hbound as [_ Hle].
    rewrite call_dropped by lra. split; reflexivity.
  - intros k Hlt. rewrite call_dropped by exact Hlt. split; reflexivity.
  - intros k Hge. rewrite call_passed by exact Hge. cbn [fst snd].
    split; [reflexivity|].
    destruct (Net.at_ws k) as [[]|]; reflexivity.
Qed.

(** Four calls on a fresh client: at 40 ms with the socket open (sent), at
    50 ms (dropped), at 80 ms with the socket closed (passes, not sent) and
    at 120 ms with the socket open (sent). *)
Lemma cursor_throttle_window_witness :
  let ks := [Net.mkCall 40 1 1 (Some WebSocket.OPEN);
             Net.mkCall 50 2 1 (Some WebSocket.OPEN);
             Net.mkCall 80 3 1 (Some WebSocket.CLOSED);
             Net.mkCall 120 4 1 (Some WebSocket.OPEN)] in
  snd (Net.calls ks Net.create)
  = [(40%Q, Protocol.CursorMsg 1 1); (120%Q, Protocol.CursorMsg 4 1)]
  /\ (33 <= 120 - 40)%Q
  /\ snd (Net.call (Net.mkCall 130 5 1 (Some WebSocket.OPEN))
            (fst (Net.calls ks Net.create))) = []
  /\ snd (Net.call (Net.mkCall 10 5 1 (Some WebSocket.OPEN)) Net.create) = []
  /\ Net.lastSend (fst (Net.call (Net.mkCall 80 3 1 (Some WebSocket.CLOSED))
                          Net.create)) = 80%Q.
Proof.
  intros ks.
  pose proof (cursor_throttle_window Net.create ks) as (H1 & H2 & H3 & H4).
  split; [reflexivity|]. split.
  - apply (H1 [] (40%Q, Protocol.CursorMsg 1 1) []
              (120%Q, Protocol.CursorMsg 4 1) []). reflexivity.
  - split.
    + apply (H2 (Net.mkCall 130 5 1 (Some WebSocket.OPEN)) 120%Q
                (Protocol.CursorMsg 4 1)).
      * apply list_elem_of_In. right. left. reflexivity.
      * reflexivity.
    + split.
      * apply (H3 (Net.mkCall 10 5 1 (Some WebSocket.OPEN))). reflexivity.
      * apply (H4 (Net.mkCall 80 3 1 (Some WebSocket.CLOSED))).
        unfold Qle. cbn. lia.
Defined.

(** C6 as stated fails in its last clause, that a call whose transmission
    is skipped leaves the window as it was.  On a fresh client a call at
    100 ms finds no socket: [send] skips the transmission, yet [lastSend]
    has moved from 0 to 100, so that a call at 110 ms would be dropped. *)
Lemma skipped_send_consumes_window :
  ~ (forall (c : Net.NetClient) (k : Net.Call),
        (33 <= Net.at_now k - Net.lastSend c)%Q ->
        Net.at_ws k = None ->
        snd (Net.call k c) = []
        /\ (Net.lastSend (fst (Net.call k c)) == Net.lastSend c)%Q).
Proof.
  intros H.
  destruct (H Net.create (Net.mkCall 100 5 3 None)) as (_ & Heq).
  - unfold Qle. cbn. lia.
  - reflexivity.
  - vm_compute in Heq. discriminate Heq.
Qed.

(** ** The replicated cursors of the renderer *)

Section Replicated.

Import Renderer.

Implicit Types (c x : ReplicatedCursor) (l : list ReplicatedCursor).

(** [upsert] read along the array: the first entry with the id is the
    one overwritten; an id not met is pushed at the end. *)
Lemma upsert_nil c : upsert c [] = [c].
Proof. reflexivity. Qed.

Lemma upsert_cons c x l :
  upsert c (x :: l) = if decide (id x = id c) then c :: l else x :: upsert c l.
Proof.
  unfold upsert, findIndex. cbn [list_find].
  destruct (decide (id x = id c)) as [Heq|Hne]; [reflexivity|].
  destruct (list_find (fun y => id y = id c) l) as [[i y]|]; reflexivity.
Qed.

Lemma upsert_idem c l : upsert c (upsert c l) = upsert c l.
Proof.
  induction l as [|x l IH].
  - rewrite upsert_nil, upsert_cons. rewrite decide_True; reflexivity.
  - rewrite upsert_cons. destruct (decide (id x = id c)) as [Heq|Hne].
    + rewrite upsert_cons. rewrite decide_True; reflexivity.
    + rewrite upsert_cons. rewrite decide_False by exact Hne.
      f_equal. exact IH.
Qed.

Lemma upsert_others c l :
  filter (fun x => id x <> id c) (upsert c l) = filter (fun x => id x <> id c) l.
Proof.
  induction l as [|x l IH].
  - rewrite upsert_nil. rewrite filter_cons_False; [reflexivity|]. tauto.
  - rewrite upsert_cons. destruct (decide (id x = id c)) as [Heq|Hne].
    + rewrite filter_cons_False by tauto.
      rewrite filter_cons_False; [reflexivity|]. tauto.
    + rewrite !filter_cons_True by exact Hne. f_equal. exact IH.
Qed.

Lemma upsert_elem c l : c ∈ upsert c l.
Proof.
  induction l as [|x l IH].
  - rewrite upsert_nil. apply list_elem_of_singleton. reflexivity.
  - rewrite upsert_cons. destruct (decide (id x = id c)).
    + left.
    + right. exact IH.
Qed.

Lemma elem_of_upsert c x l : x ∈ upsert c l -> x = c \/ x ∈ l.
Proof.
  induction l as [|y l IH].
  - rewrite upsert_nil. intros H%list_elem_of_singleton. left. exact H.
  - rewrite upsert_cons. destruct (decide (id y = id c)).
    + intros [->|H]%elem_of_cons; [left; reflexivity|].
      right. right. exact H.
    + intros [->|H]%elem_of_cons; [right; left|].
      destruct (IH H) as [->|Hin]; [left; reflexivity|right; right; exact Hin].
Qed.

Lemma upsert_ids c l i :
  i ∈ id <$> upsert c l -> i = id c \/ i ∈ id <$> l.
Proof.
  intros (x & -> & Hx)%list_elem_of_fmap.
  destruct (elem_of_upsert _ _ _ Hx) as [->|Hin]; [left; reflexivity|].
  right. apply list_elem_of_fmap. exists x. split; [reflexivity | exact Hin].
Qed.

(** In an array keyed by id, the entry met is the only one of its id. *)
Lemma filter_id_absent (i : string) l :
  i ∉ id <$> l -> filter (fun x => id x = i) l = [].
Proof.
  induction l as [|x l IH]; [reflexivity|].
  rewrite fmap_cons, not_elem_of_cons. intros [Hne Hnin].
  rewrite filter_cons_False by congruence. apply IH, Hnin.
Qed.

Lemma upsert_one c l :
  NoDup (id <$> l) -> filter (fun x => id x = id c) (upsert c l) = [c].
Proof.
  induction l as [|x l IH]; intros Hnd.
  - rewrite upsert_nil. rewrite filter_cons_True; reflexivity.
  - rewrite fmap_cons in Hnd. apply NoDup_cons in Hnd as [Hnin Hnd].
    rewrite upsert_cons. destruct (decide (id x = id c)) as [Heq|Hne].
    + rewrite filter_cons_True by reflexivity.
      rewrite filter_id_absent; [reflexivity|]. rewrite <- Heq. exact Hnin.
    + rewrite filter_cons_False by exact Hne. apply IH, Hnd.
Qed.

Lemma upsert_NoDup c l : NoDup (id <$> l) -> NoDup (id <$> upsert c l).
Proof.
  induction l as [|x l IH]; intros Hnd.
  - rewrite upsert_nil. cbn. apply NoDup_singleton.
  - rewrite fmap_cons in Hnd. apply NoDup_cons in Hnd as [Hnin Hnd].
    rewrite upsert_cons. destruct (decide (id x = id c)) as [Heq|Hne].
    + rewrite fmap_cons. apply NoDup_cons. rewrite <- Heq. split; assumption.
    + rewrite fmap_cons. apply NoDup_cons. split; [|apply IH, Hnd].
      intros [Hc|Hin]%upsert_ids; [exact (Hne Hc) | exact (Hnin Hin)].
Qed.

Lemma scheduleRender_raf (g : GridRenderer) : raf (scheduleRender g) = true.
Proof. unfold scheduleRender. destruct (raf g) eqn:H; [exact H | reflexivity]. Qed.

Lemma scheduleRender_cursors (g : GridRenderer) :
  cursors (scheduleRender g) = cursors g.
Proof. unfold scheduleRender. destruct (raf g); reflexivity. Qed.

Lemma scheduleRender_pending (g : GridRenderer) :
  raf g = true -> scheduleRender g = g.
Proof. unfold scheduleRender. intros ->. reflexivity. Qed.

Lemma upsertReplicatedCursor_cursors c (g : GridRenderer) :
  cursors (upsertReplicatedCursor c g) = upsert c (cursors g).
Proof. unfold upsertReplicatedCursor. rewrite scheduleRender_cursors. reflexivity. Qed.

Lemma upsertReplicatedCursor_idem c (g : GridRenderer) :
  upsertReplicatedCursor c (upsertReplicatedCursor c g) = upsertReplicatedCursor c g.
Proof.
  unfold upsertReplicatedCursor at 1.
  rewrite upsertReplicatedCursor_cursors, upsert_idem.
  unfold upsertReplicatedCursor, scheduleRender, with_cursors.
  destruct (raf g); reflexivity.
Qed.

End Replicated.

(** C7.  Upserting the same payload twice is upserting it once: the
    renderer ends in the same state.  The payload is then in the array,
    the entries of every other id are the ones that were there, in their
    order; and when the array is keyed by id (no id twice), the payload is
    the one entry of its id and the array is still keyed by id. *)
Theorem upsert_twice_idempotent (g : Renderer.GridRenderer)
    (c : Renderer.ReplicatedCursor) :
  let g2 := Renderer.upsertReplicatedCursor c (Renderer.upsertReplicatedCursor c g) in
  g2 = Renderer.upsertReplicatedCursor c g
  /\ c ∈ Renderer.cursors g2
  /\ filter (fun x => Renderer.id x <> Renderer.id c) (Renderer.cursors g2)
     = filter (fun x => Renderer.id x <> Renderer.id c) (Renderer.cursors g)
  /\ (NoDup (Renderer.id <$> Renderer.cursors g) ->
      filter (fun x => Renderer.id x = Renderer.id c) (Renderer.cursors g2) = [c]
      /\ NoDup (Renderer.id <$> Renderer.cursors g2)).
Proof.
  intros g2. subst g2. rewrite upsertReplicatedCursor_idem.
  rewrite upsertReplicatedCursor_cursors.
  split; [reflexivity|]. split; [apply upsert_elem|].
  split; [apply upsert_others|].
  intros Hnd. split; [apply upsert_one, Hnd | apply upsert_NoDup, Hnd].
Qed.

(** Two remote cursors; the one of "b2" is moved. *)
Lemma upsert_twice_idempotent_witness :
  let g := Renderer.with_cursors
             [Renderer.mkReplicatedCursor "a1" (Some "Ann") 5 3;
              Renderer.mkReplicatedCursor "b2" None 7 7]
             (Renderer.create 32) in
  let c := Renderer.mkReplicatedCursor "b2" (Some "Bob") 8 7 in
  NoDup (Renderer.id <$> Renderer.cursors g)
  /\ filter (fun x => Renderer.id x = Renderer.id c)
       (Renderer.cursors
          (Renderer.upsertReplicatedCursor c (Renderer.upsertReplicatedCursor c g)))
     = [c].
Proof.
  intros g c.
  assert (Hnd : NoDup (Renderer.id <$> Renderer.cursors g)).
  { cbn. apply NoDup_cons. split.
    - intros H%list_elem_of_singleton. discriminate H.
    - apply NoDup_singleton. }
  split; [exact Hnd|].
  destruct (upsert_twice_idempotent g c) as (_ & _ & _ & H).
  exact (proj1 (H Hnd)).
Defined.

(** On an array that holds an id twice, [findIndex] stops at the first
    entry and the second keeps its old values. *)
Lemma upsert_first_match_only :
  Renderer.upsert (Renderer.mkReplicatedCursor "a1" None 9 9)
    [Renderer.mkReplicatedCursor "a1" None 1 1;
     Renderer.mkReplicatedCursor "a1" None 2 2]
  = [Renderer.mkReplicatedCursor "a1" None 9 9;
     Renderer.mkReplicatedCursor "a1" None 2 2].
Proof. reflexivity. Qed.

(** ** The handlers of the application *)

Section Handlers.

Import App.

Lemma renderer_with_renderer g (a : App) : renderer (with_renderer g a) = g.
Proof. reflexivity. Qed.

Lemma youRef_with_renderer g (a : App) : youRef (with_renderer g a) = youRef a.
Proof. reflexivity. Qed.

Lemma cursors_setGrid c r t g :
  Renderer.cursors (Renderer.setGrid c r t g) = Renderer.cursors g.
Proof. reflexivity. Qed.

Lemma cursors_onPlayersSnapshot players (a : App) :
  Renderer.cursors (renderer (onPlayersSnapshot players a))
  = omap replicate (List.filter (keep (youRef a)) players).
Proof.
  unfold onPlayersSnapshot, Renderer.setReplicatedCursors.
  rewrite renderer_with_renderer, scheduleRender_cursors. reflexivity.
Qed.

Lemma cursors_onPlayerLeave i (a : App) :
  Renderer.cursors (renderer (onPlayerLeave i a))
  = List.filter (fun c => negb (String.eqb (Renderer.id c) i))
      (Renderer.cursors (renderer a)).
Proof.
  unfold onPlayerLeave, Renderer.removeReplicatedCursor.
  rewrite renderer_with_renderer, scheduleRender_cursors. reflexivity.
Qed.

Lemma replicate_id p c : replicate p = Some c -> Renderer.id c = Protocol.id p.
Proof.
  unfold replicate. destruct (Protocol.cursor p); [|discriminate].
  intros [= <-]. reflexivity.
Qed.

Lemma deliver_cons m msgs (a : App) :
  deliver (m :: msgs) a = deliver msgs (dispatch m a).
Proof. reflexivity. Qed.

Lemma deliver_app pre post (a : App) :
  deliver (pre ++ post) a = deliver post (deliver pre a).
Proof. unfold deliver. apply fold_left_app. Qed.

End Handlers.

Section Reconciliation.

Import App.

Lemma reported_cons m msgs p : reported msgs p -> reported (m :: msgs) p.
Proof.
  intros [H|(ps & H & Hp)]; [left; right; exact H|].
  right. exists ps. split; [right; exact H | exact Hp].
Qed.

Lemma cursors_onPlayerUpdate p (a : App) c :
  c ∈ Renderer.cursors (renderer (onPlayerUpdate p a)) ->
  c ∈ Renderer.cursors (renderer a)
  \/ (replicate p = Some c /\ is_you (Protocol.id p) (youRef a) = false).
Proof.
  unfold onPlayerUpdate. destruct (is_you (Protocol.id p) (youRef a)) eqn:Hyou.
  - left. assumption.
  - destruct (replicate p) as [c0|] eqn:Hrep; [|left; assumption].
    rewrite renderer_with_renderer, upsertReplicatedCursor_cursors.
    intros [->|Hin]%elem_of_upsert; [right; split; reflexivity | left; exact Hin].
Qed.

Lemma elem_of_replicated_filter you ps c :
  c ∈ omap replicate (List.filter (keep you) ps) ->
  exists p, p ∈ ps /\ keep you p = true /\ replicate p = Some c.
Proof.
  intros (p & Hp & Hrep)%list_elem_of_omap.
  apply list_elem_of_In, filter_In in Hp as [Hin Hkeep].
  exists p. split; [apply list_elem_of_In, Hin|]. split; assumption.
Qed.

(** Every entry of the set after some deliveries was already there or is
    the image of a reported player that has a cursor. *)
Lemma cursors_deliver msgs : forall (a : App) c,
  c ∈ Renderer.cursors (renderer (deliver msgs a)) ->
  c ∈ Renderer.cursors (renderer a)
  \/ exists p, reported msgs p /\ replicate p = Some c.
Proof.
  induction msgs as [|m msgs IH]; intros a c Hc; [left; exact Hc|].
  rewrite deliver_cons in Hc.
  destruct (IH _ _ Hc) as [Hin|(p & Hp & Hrep)].
  - destruct m as [i g|ps|p|i]; cbn [dispatch] in Hin.
    + left. exact Hin.
    + rewrite cursors_onPlayersSnapshot in Hin.
      apply elem_of_replicated_filter in Hin as (p & Hp & _ & Hrep).
      right. exists p. split; [|exact Hrep].
      right. exists ps. split; [left | exact Hp].
    + apply cursors_onPlayerUpdate in Hin as [Hin|[Hrep _]]; [left; exact Hin|].
      right. exists p. split; [left; left | exact Hrep].
    + rewrite cursors_onPlayerLeave in Hin.
      apply list_elem_of_In, filter_In in Hin as [Hin _].
      left. apply list_elem_of_In, Hin.
  - right. exists p. split; [apply reported_cons, Hp | exact Hrep].
Qed.

End Reconciliation.

Section KeyedSet.

Import App.

Lemma replicated_ids you ps i :
  i ∈ Renderer.id <$> omap replicate (List.filter (keep you) ps) ->
  i ∈ Protocol.id <$> ps.
Proof.
  intros (c & -> & Hc)%list_elem_of_fmap.
  apply elem_of_replicated_filter in Hc as (p & Hp & _ & Hrep).
  rewrite (replicate_id _ _ Hrep). apply list_elem_of_fmap_2, Hp.
Qed.

Lemma replicated_keyed you ps :
  NoDup (Protocol.id <$> ps) ->
  NoDup (Renderer.id <$> omap replicate (List.filter (keep you) ps)).
Proof.
  induction ps as [|p ps IH]; [intros _; constructor|].
  rewrite fmap_cons. intros [Hnin Hnd]%NoDup_cons. cbn [List.filter].
  destruct (keep you p); [|apply IH, Hnd].
  cbn [omap list_omap]. destruct (replicate p) as [c|] eqn:Hrep; [|apply IH, Hnd].
  rewrite fmap_cons. apply NoDup_cons. split; [|apply IH, Hnd].
  rewrite (replicate_id _ _ Hrep). intros Hin. apply Hnin.
  eapply replicated_ids, Hin.
Qed.

Lemma filter_keyed (f : Renderer.ReplicatedCursor -> bool) l :
  NoDup (Renderer.id <$> l) -> NoDup (Renderer.id <$> List.filter f l).
Proof.
  induction l as [|x l IH]; [intros _; constructor|].
  rewrite fmap_cons. intros [Hnin Hnd]%NoDup_cons. cbn [List.filter].
  destruct (f x); [|apply IH, Hnd].
  rewrite fmap_cons. apply NoDup_cons. split; [|apply IH, Hnd].
  intros (y & Hid & [Hy _]%list_elem_of_In%filter_In)%list_elem_of_fmap.
  apply Hnin. rewrite Hid. apply list_elem_of_fmap_2, list_elem_of_In, Hy.
Qed.

(** The replicated set stays keyed by id when every [players] frame
    delivered is, as the frames built from the server's map are. *)
Lemma deliver_keyed msgs : forall (a : App),
  NoDup (Renderer.id <$> Renderer.cursors (renderer a)) ->
  (forall ps, Protocol.PlayersSnapshotMsg ps ∈ msgs -> NoDup (Protocol.id <$> ps)) ->
  NoDup (Renderer.id <$> Renderer.cursors (renderer (deliver msgs a))).
Proof.
  induction msgs as [|m msgs IH]; intros a Hnd Hps; [exact Hnd|].
  rewrite deliver_cons. apply IH; [|intros ps Hin; apply Hps; right; exact Hin].
  destruct m as [i g|ps|p|i]; cbn [dispatch].
  - exact Hnd.
  - rewrite cursors_onPlayersSnapshot. apply replicated_keyed, Hps. left.
  - unfold onPlayerUpdate. destruct (is_you _ _); [exact Hnd|].
    destruct (replicate p) as [c|]; [|exact Hnd].
    rewrite renderer_with_renderer, upsertReplicatedCursor_cursors.
    apply upsert_NoDup, Hnd.
  - rewrite cursors_onPlayerLeave. apply filter_keyed, Hnd.
Qed.

End KeyedSet.

(** C9.  A [playerUpdate] whose player has no cursor leaves the application
    state as it was: the replicated set, the request for a frame and every
    other field.  And after any deliveries from the start, every entry of
    the replicated set has the id, name and coordinates of a player that a
    delivered [playerUpdate] or [players] frame reported with a cursor. *)
Theorem update_without_cursor_ignored :
  (forall (a : App.App) (i : string) (n : option string) (t : Z),
      App.onPlayerUpdate (Protocol.mkPlayer i n None t) a = a)
  /\ (forall (msgs : list Protocol.ServerToClient) (c : Renderer.ReplicatedCursor),
      c ∈ Renderer.cursors (App.renderer (App.deliver msgs App.init)) ->
      exists p cur,
        App.reported msgs p
        /\ Protocol.cursor p = Some cur
        /\ c = Renderer.mkReplicatedCursor (Protocol.id p) (Protocol.name p)
                 (Protocol.col cur) (Protocol.row cur)).
Proof.
  split.
  - intros a i n t. unfold App.onPlayerUpdate. cbn [Protocol.id].
    destruct (App.is_you i (App.youRef a)); reflexivity.
  - intros msgs c Hc.
    destruct (cursors_deliver msgs App.init c Hc) as [Hin|(p & Hp & Hrep)].
    + cbn in Hin. apply elem_of_nil in Hin. destruct Hin.
    + unfold App.replicate in Hrep.
      destruct (Protocol.cursor p) as [cur|] eqn:Hcur; [|discriminate].
      injection Hrep as <-. exists p, cur. repeat split; assumption.
Qed.

(** A name-only update for "b2", who never reported a cursor, between the
    welcome and an update that carries one. *)
Lemma update_without_cursor_witness :
  let msgs := [Protocol.WelcomeMsg "a1" Server.GRID;
               Protocol.PlayersSnapshotMsg [Protocol.mkPlayer "a1" None None 0];
               Protocol.PlayerUpdateMsg (Protocol.mkPlayer "b2" (Some "Bob") None 1);
               Protocol.PlayerUpdateMsg
                 (Protocol.mkPlayer "c3" None (Some (Protocol.mkCursor 5 3)) 2)] in
  Renderer.cursors (App.renderer (App.deliver msgs App.init))
  = [Renderer.mkReplicatedCursor "c3" None 5 3]
  /\ exists p cur,
      App.reported msgs p
      /\ Protocol.cursor p = Some cur
      /\ Renderer.mkReplicatedCursor "c3" None 5 3
         = Renderer.mkReplicatedCursor (Protocol.id p) (Protocol.name p)
             (Protocol.col cur) (Protocol.row cur).
Proof.
  intros msgs. split; [reflexivity|].
  apply (proj2 update_without_cursor_ignored msgs).
  apply list_elem_of_In. left. reflexivity.
Defined.

Section NoSelf.

Import App.

Variable you : string.

Lemma is_you_true i : is_you i (Some you) = true <-> i = you.
Proof. cbn. apply String.eqb_eq. Qed.

Lemma keep_not_you p : keep (Some you) p = true -> Protocol.id p <> you.
Proof.
  unfold keep. destruct (Protocol.cursor p); [|discriminate].
  intros H%negb_true_iff Heq. apply is_you_true in Heq. congruence.
Qed.

Lemma session_inv_init : session_inv you false init.
Proof. split; [split; reflexivity | constructor]. Qed.

(** One delivery keeps the invariant, and a welcome turns [seen] on. *)
Lemma session_inv_dispatch seen m rest (a : App) :
  session_inv you seen a ->
  welcome_first you seen (m :: rest) = true ->
  exists seen',
    session_inv you seen' (dispatch m a) /\ welcome_first you seen' rest = true.
Proof.
  intros [Hyou Hno] Hwf. unfold no_entry_of in Hno.
  destruct m as [i g|ps|p|i]; cbn [welcome_first dispatch] in *.
  - apply andb_true_iff in Hwf as [Hi%String.eqb_eq Hrest]. subst i.
    exists true. split; [|exact Hrest]. split; [reflexivity|].
    unfold no_entry_of, onWelcome. cbn [renderer]. rewrite cursors_setGrid.
    exact Hno.
  - apply andb_true_iff in Hwf as [-> Hrest].
    exists true. split; [|exact Hrest]. split.
    + unfold onPlayersSnapshot. rewrite youRef_with_renderer. exact Hyou.
    + unfold no_entry_of. rewrite cursors_onPlayersSnapshot, Hyou.
      apply Forall_forall. intros c (p & _ & Hkeep & Hrep)%elem_of_replicated_filter.
      rewrite (replicate_id _ _ Hrep). apply keep_not_you, Hkeep.
  - apply andb_true_iff in Hwf as [-> Hrest].
    exists true. split; [|exact Hrest]. split.
    + unfold onPlayerUpdate. destruct (is_you _ _); [exact Hyou|].
      destruct (replicate p); [rewrite youRef_with_renderer|]; exact Hyou.
    + unfold no_entry_of. apply Forall_forall. intros c Hc.
      apply cursors_onPlayerUpdate in Hc as [Hin|[Hrep Hnot]].
      * rewrite Forall_forall in Hno. apply Hno, Hin.
      * rewrite (replicate_id _ _ Hrep). rewrite Hyou in Hnot.
        intros Heq%is_you_true. congruence.
  - exists seen. split; [|exact Hwf]. split.
    + destruct seen; [exact Hyou|]. destruct Hyou as [Hnone Hnil].
      split; [exact Hnone|]. rewrite cursors_onPlayerLeave, Hnil. reflexivity.
    + unfold no_entry_of. rewrite cursors_onPlayerLeave.
      apply Forall_forall. intros c [Hin _]%list_elem_of_In%filter_In.
      rewrite Forall_forall in Hno. apply Hno, list_elem_of_In, Hin.
Qed.

Lemma welcome_first_prefix pre post : forall seen,
  welcome_first you seen (pre ++ post) = true -> welcome_first you seen pre = true.
Proof.
  induction pre as [|m pre IH]; intros seen H; [reflexivity|].
  cbn [app welcome_first] in *.
  destruct m as [i g|ps|p|i].
  - apply andb_true_iff in H as [Hi H]. rewrite Hi. cbn. apply IH, H.
  - apply andb_true_iff in H as [-> H]. cbn. apply IH, H.
  - apply andb_true_iff in H as [-> H]. cbn. apply IH, H.
  - apply IH, H.
Qed.

Lemma session_inv_deliver msgs : forall seen (a : App),
  session_inv you seen a ->
  welcome_first you seen msgs = true ->
  exists seen', session_inv you seen' (deliver msgs a).
Proof.
  induction msgs as [|m msgs IH]; intros seen a Hinv Hwf.
  - exists seen. exact Hinv.
  - rewrite deliver_cons.
    destruct (session_inv_dispatch seen m msgs a Hinv Hwf) as (seen' & Hinv' & Hwf').
    exact (IH seen' _ Hinv' Hwf').
Qed.

End NoSelf.

(** C8.  Take the handler invocations of a session, from the state the
    application starts in, where every [welcome] carries the local id [you]
    and no [players] or [playerUpdate] comes before the first [welcome].
    After every prefix of them, no entry of the replicated set has the id
    [you]. *)
Theorem replicated_set_excludes_self (you : string)
    (msgs pre post : list Protocol.ServerToClient) :
  App.welcome_first you false msgs = true ->
  msgs = pre ++ post ->
  forall c, c ∈ Renderer.cursors (App.renderer (App.deliver pre App.init)) ->
            Renderer.id c <> you.
Proof.
  intros Hwf -> c Hc.
  apply welcome_first_prefix in Hwf.
  destruct (session_inv_deliver you pre false App.init (session_inv_init you) Hwf)
    as (seen' & _ & Hno).
  unfold App.no_entry_of in Hno. rewrite Forall_forall in Hno. exact (Hno c Hc).
Qed.

(** "a1" connects to a store that knows "b2"; the snapshot carries both,
    and an update about "a1" itself arrives later (as a hello's would). *)
Lemma replicated_set_excludes_self_witness :
  let pre := [Protocol.WelcomeMsg "a1" Server.GRID;
              Protocol.PlayersSnapshotMsg
                [Protocol.mkPlayer "b2" None (Some (Protocol.mkCursor 2 2)) 0;
                 Protocol.mkPlayer "a1" None (Some (Protocol.mkCursor 1 1)) 0];
              Protocol.PlayerUpdateMsg
                (Protocol.mkPlayer "a1" (Some "Ann") (Some (Protocol.mkCursor 1 1)) 1)] in
  let post := [Protocol.PlayerLeaveMsg "b2"] in
  App.welcome_first "a1" false (pre ++ post) = true
  /\ Renderer.cursors (App.renderer (App.deliver pre App.init))
     = [Renderer.mkReplicatedCursor "b2" None 2 2]
  /\ Renderer.id (Renderer.mkReplicatedCursor "b2" None 2 2) <> "a1".
Proof.
  intros pre post. split; [reflexivity|]. split; [reflexivity|].
  apply (replicated_set_excludes_self "a1" (pre ++ post) pre post);
    [reflexivity | reflexivity |].
  apply list_elem_of_In. left. reflexivity.
Defined.

(** ** Validation of the client's frames *)

Section Validation.

Import Protocol.

Lemma z_int_of_Z (q : Q) (n : Z) : (q == inject_Z n)%Q -> z_int (Some (JNum q)) = Some n.
Proof.
  intros Hq. unfold z_int.
  assert (Hfl : Qfloor q = n) by (rewrite Hq; apply Qfloor_Z).
  rewrite Hfl. apply Qeq_bool_iff in Hq. rewrite Hq. reflexivity.
Qed.

Lemma z_int_nonnegative_of_Z (q : Q) (n : Z) :
  (q == inject_Z n)%Q -> 0 <= n -> z_int_nonnegative (Some (JNum q)) = Some n.
Proof.
  intros Hq Hn. unfold z_int_nonnegative. rewrite (z_int_of_Z q n Hq).
  apply Z.leb_le in Hn. rewrite Hn. reflexivity.
Qed.

Lemma z_int_nonnegative_Some v (n : Z) : z_int_nonnegative v = Some n -> 0 <= n.
Proof.
  unfold z_int_nonnegative. destruct (z_int v) as [m|]; [|discriminate].
  destruct (0 <=? m) eqn:Hle; [|discriminate].
  intros [= <-]. apply Z.leb_le, Hle.
Qed.

(** A frame is accepted as a cursor message exactly through the cursor
    schema, whose fields are then integers that are not negative. *)
Lemma safeParse_cursor_inv msg (c r : Z) :
  ClientToServer_safeParse msg = Some (CursorMsg c r) -> 0 <= c /\ 0 <= r.
Proof.
  unfold ClientToServer_safeParse.
  destruct msg as [| | | |?|o]; try discriminate.
  destruct (prop "kind" o) as [[| | |kind| |]|]; try discriminate.
  destruct (String.eqb kind "hello").
  { unfold HelloMsg_parse. destruct (z_literal_1 _); [|discriminate].
    destruct (z_name _); discriminate. }
  destruct (String.eqb kind "cursor").
  - unfold CursorMsg_parse.
    destruct (z_int_nonnegative (prop "col" o)) as [c'|] eqn:Hc; [|discriminate].
    destruct (z_int_nonnegative (prop "row" o)) as [r'|] eqn:Hr; [|discriminate].
    intros [= <- <-]. split; eapply z_int_nonnegative_Some; eassumption.
  - destruct (String.eqb kind "ping"); [|discriminate].
    unfold PingMsg_parse. destruct (z_int _); discriminate.
Qed.

(** Every object of kind [cursor] whose [col] and [row] are integers not
    below zero passes validation, whatever else it holds. *)
Lemma safeParse_cursor_accepts o (qc qr : Q) (c r : Z) :
  prop "kind" o = Some (JStr "cursor") ->
  prop "col" o = Some (JNum qc) -> prop "row" o = Some (JNum qr) ->
  (qc == inject_Z c)%Q -> (qr == inject_Z r)%Q -> 0 <= c -> 0 <= r ->
  ClientToServer_safeParse (JObj o) = Some (CursorMsg c r).
Proof.
  intros Hk Hc Hr Hqc Hqr Hc0 Hr0. unfold ClientToServer_safeParse.
  rewrite Hk. cbn [String.eqb Ascii.eqb Bool.eqb andb].
  unfold CursorMsg_parse. rewrite Hc, Hr.
  rewrite (z_int_nonnegative_of_Z qc c Hqc Hc0).
  rewrite (z_int_nonnegative_of_Z qr r Hqr Hr0). reflexivity.
Qed.

Lemma z_name_Some v (s : string) :
  z_name v = Some (Some s) -> (1 <= String.length s <= 24)%nat.
Proof.
  unfold z_name. destruct v as [[| | |s'| |]|]; try discriminate.
  destruct (_ && _) eqn:Hlen; [|discriminate].
  intros [= <-]. apply andb_true_iff in Hlen as [H1 H2].
  apply Nat.leb_le in H1, H2. lia.
Qed.

Lemma safeParse_hello_inv msg (s : string) :
  ClientToServer_safeParse msg = Some (HelloMsg (Some s)) ->
  (1 <= String.length s <= 24)%nat.
Proof.
  unfold ClientToServer_safeParse.
  destruct msg as [| | | |?|o]; try discriminate.
  destruct (prop "kind" o) as [[| | |kind| |]|]; try discriminate.
  destruct (String.eqb kind "hello").
  { unfold HelloMsg_parse. destruct (z_literal_1 _); [|discriminate].
    destruct (z_name _) as [n|] eqn:Hn; [|discriminate].
    intros [= ->]. eapply z_name_Some, Hn. }
  destruct (String.eqb kind "cursor").
  - unfold CursorMsg_parse.
    destruct (z_int_nonnegative _); [|discriminate].
    destruct (z_int_nonnegative _); discriminate.
  - destruct (String.eqb kind "ping"); [|discriminate].
    unfold PingMsg_parse. destruct (z_int _); discriminate.
Qed.

Lemma substring_all (s : string) (n : nat) :
  (String.length s <= n)%nat -> String.substring 0 n s = s.
Proof.
  revert n. induction s as [|a s IH]; intros n Hn.
  - destruct n; reflexivity.
  - destruct n as [|n]; [cbn in Hn; lia|].
    cbn. f_equal. apply IH. cbn in Hn. lia.
Qed.

(** On a validated hello the slice is the name itself. *)
Lemma slice24_valid msg (n : option string) :
  ClientToServer_safeParse msg = Some (HelloMsg n) -> Server.slice24 n = n.
Proof.
  destruct n as [s|]; [|reflexivity].
  intros H%safeParse_hello_inv. cbn. f_equal. apply substring_all. lia.
Qed.

End Validation.

(** ** The session store and the broadcaster *)

Section ServerFacts.

Import Server.

Implicit Types (s : State) (c : ClientState) (env : Env) (k r : nat) (i : string).

Lemma game_sends_app (a b : list Output) :
  game_sends (a ++ b) = game_sends a ++ game_sends b.
Proof. unfold game_sends. apply omap_app. Qed.

(** The admin channel carries no game frame. *)
Lemma game_sends_adminBroadcast env s : game_sends (adminBroadcast env s) = [].
Proof.
  unfold adminBroadcast. induction (admins s) as [|a l IH]; [reflexivity|].
  cbn [flat_map]. rewrite game_sends_app, IH, app_nil_r.
  destruct (WebSocket.is_open (admin_ready env a)); reflexivity.
Qed.

(** Who [broadcast] writes to: the open sockets of the entries of the map
    other than [exceptId], all with the same frame. *)
Lemma elem_of_broadcast env s msg exceptId w m :
  (w, m) ∈ game_sends (broadcast env s msg exceptId) <->
  m = msg
  /\ exists i r c,
      (i, r) ∈ clients s /\ same_id i exceptId = false
      /\ objs s !! r = Some c
      /\ WebSocket.is_open (game_ready env (ws c)) = true /\ w = ws c.
Proof.
  unfold broadcast. induction (clients s) as [|[i r] l IH].
  - cbn. split; [intros H%elem_of_nil; destruct H|].
    intros (_ & i & r & c & H%elem_of_nil & _). destruct H.
  - cbn [flat_map fst snd]. rewrite game_sends_app, elem_of_app, IH. clear IH.
    split.
    + intros [Hhd|(-> & i' & r' & c & Hin & Hrest)].
      * destruct (same_id i exceptId) eqn:Hid; [apply elem_of_nil in Hhd; destruct Hhd|].
        destruct (objs s !! r) as [c|] eqn:Hc; [|apply elem_of_nil in Hhd; destruct Hhd].
        destruct (WebSocket.is_open (game_ready env (ws c))) eqn:Hopen;
          [|apply elem_of_nil in Hhd; destruct Hhd].
        cbn in Hhd. apply list_elem_of_singleton in Hhd. injection Hhd as -> ->.
        split; [reflexivity|]. exists i, r, c. split; [left|]. auto.
      * split; [reflexivity|]. exists i', r', c. split; [right; exact Hin | exact Hrest].
    + intros (-> & i' & r' & c & Hin & Hid & Hc & Hopen & ->).
      apply elem_of_cons in Hin as [[= -> ->]|Hin].
      * left. rewrite Hid, Hc, Hopen. cbn. left.
      * right. split; [reflexivity|]. exists i', r', c. auto.
Qed.

Lemma objs_store k c s : objs (store k c s) = <[k := c]> (objs s).
Proof. reflexivity. Qed.

Lemma store_store k c c' s : store k c (store k c' s) = store k c s.
Proof. unfold store. cbn. rewrite list_insert_insert_eq. reflexivity. Qed.

Lemma lookup_store_eq k c c0 s :
  objs s !! k = Some c0 -> objs (store k c s) !! k = Some c.
Proof.
  intros H. rewrite objs_store. apply list_lookup_insert_eq.
  eapply lookup_lt_Some, H.
Qed.

Lemma lookup_store_ne k k' c s : k <> k' -> objs (store k c s) !! k' = objs s !! k'.
Proof. intros H. rewrite objs_store. apply list_lookup_insert_ne, H. Qed.

Lemma on_message_rejected env now k buf s c :
  objs s !! k = Some c -> decode buf = None ->
  on_message env now k buf s = (store k (set_lastSeen now c) s, []).
Proof.
  intros Hk Hd. unfold on_message. rewrite Hk.
  destruct buf as [|msg]; [reflexivity|]. cbn in Hd. rewrite Hd. reflexivity.
Qed.

Lemma on_message_ping env now k buf s c t :
  objs s !! k = Some c -> decode buf = Some (Protocol.PingMsg t) ->
  on_message env now k buf s = (store k (set_lastSeen now c) s, []).
Proof.
  intros Hk Hd. unfold on_message. rewrite Hk.
  destruct buf as [|msg]; [discriminate|]. cbn in Hd. rewrite Hd. reflexivity.
Qed.

Lemma on_message_hello env now k buf s c n :
  objs s !! k = Some c -> decode buf = Some (Protocol.HelloMsg n) ->
  let c' := set_name (slice24 n) (set_lastSeen now c) in
  on_message env now k buf s
  = (store k c' s,
     broadcast env (store k c' s) (Protocol.PlayerUpdateMsg (player_of c')) None
       ++ adminBroadcast env (store k c' s)).
Proof.
  intros Hk Hd. unfold on_message. rewrite Hk.
  destruct buf as [|msg]; [discriminate|]. cbn in Hd. rewrite Hd.
  cbv zeta. rewrite store_store. reflexivity.
Qed.

Lemma on_message_cursor env now k buf s c col row :
  objs s !! k = Some c -> decode buf = Some (Protocol.CursorMsg col row) ->
  let c' := set_cursor
              (Some (Protocol.mkCursor (clamp (Protocol.cols GRID - 1) col)
                                       (clamp (Protocol.rows GRID - 1) row)))
              (set_lastSeen now c) in
  on_message env now k buf s
  = (store k c' s,
     broadcast env (store k c' s) (Protocol.PlayerUpdateMsg (player_of c'))
       (Some (id c))
       ++ adminBroadcast env (store k c' s)).
Proof.
  intros Hk Hd. unfold on_message. rewrite Hk.
  destruct buf as [|msg]; [discriminate|]. cbn in Hd. rewrite Hd.
  cbv zeta. rewrite store_store. reflexivity.
Qed.

End ServerFacts.

Section StoreInvariant.

Import Server.

Implicit Types (s : State) (c : ClientState) (env : Env) (k r : nat) (i : string).

Lemma wf_init : wf init.
Proof.
  split; cbn.
  - constructor.
  - intros i r H%elem_of_nil. destruct H.
  - intros i r c i' r' c' H%elem_of_nil. destruct H.
Qed.

(** Writing a field other than [id] and [ws] of an object keeps the store
    keyed. *)
Lemma wf_store k c c' s :
  wf s -> objs s !! k = Some c -> id c' = id c -> ws c' = ws c ->
  wf (store k c' s).
Proof.
  intros [Hkeys Hrefs Hsocks] Hk Hid Hws.
  assert (Hsame : forall r x, objs (store k c' s) !! r = Some x ->
            exists y, objs s !! r = Some y /\ id x = id y /\ ws x = ws y).
  { intros r x Hx. destruct (decide (k = r)) as [<-|Hne].
    - rewrite (lookup_store_eq k c' c s Hk) in Hx. injection Hx as <-.
      exists c. auto.
    - rewrite lookup_store_ne in Hx by exact Hne. exists x. auto. }
  split; cbn [clients store].
  - exact Hkeys.
  - intros i r Hin. destruct (Hrefs i r Hin) as (y & Hy & Hidy).
    destruct (decide (k = r)) as [<-|Hne].
    + exists c'. split; [eapply lookup_store_eq, Hk|]. congruence.
    + exists y. split; [rewrite lookup_store_ne by exact Hne; exact Hy | exact Hidy].
  - intros i r x i' r' x' Hin Hx Hin' Hx' Heq.
    destruct (Hsame r x Hx) as (y & Hy & _ & Hwy).
    destruct (Hsame r' x' Hx') as (y' & Hy' & _ & Hwy').
    apply (Hsocks i r y i' r' y' Hin Hy Hin' Hy'). congruence.
Qed.

Lemma map_set_fresh i r (m : list (string * nat)) :
  i ∉ fst <$> m -> map_set i r m = m ++ [(i, r)].
Proof.
  induction m as [|[i' r'] m IH]; [reflexivity|].
  rewrite fmap_cons, not_elem_of_cons. cbn [fst]. intros [Hne Hnin].
  cbn [map_set]. apply not_eq_sym, String.eqb_neq in Hne. rewrite Hne.
  cbn [app]. f_equal. apply IH, Hnin.
Qed.

Lemma elem_of_map_delete i (m : list (string * nat)) kv :
  kv ∈ map_delete i m <-> kv ∈ m /\ fst kv <> i.
Proof.
  unfold map_delete. rewrite !list_elem_of_In, filter_In.
  rewrite negb_true_iff, String.eqb_neq. reflexivity.
Qed.

Lemma map_delete_keys i (m : list (string * nat)) :
  NoDup (fst <$> m) -> NoDup (fst <$> map_delete i m).
Proof.
  induction m as [|[i' r'] m IH]; [intros _; constructor|].
  rewrite fmap_cons. intros [Hnin Hnd]%NoDup_cons. cbn [map_delete List.filter fst].
  destruct (negb (String.eqb i' i)); [|apply IH, Hnd].
  rewrite fmap_cons. apply NoDup_cons. split; [|apply IH, Hnd].
  intros ([i2 r2] & Heq & Hin%elem_of_map_delete)%list_elem_of_fmap.
  cbn in Heq. subst i2. apply Hnin, list_elem_of_fmap.
  exists (i', r2). split; [reflexivity | apply Hin].
Qed.

Lemma wf_on_connection env now sock nanoid s :
  wf s -> admissible s (Connection sock nanoid) ->
  wf (fst (on_connection env now sock nanoid s)).
Proof.
  intros [Hkeys Hrefs Hsocks] [Hfresh Hsock].
  unfold on_connection. cbn [fst]. rewrite (map_set_fresh _ _ _ Hfresh).
  set (state := {| id := nanoid; name := None; cursor := None;
                   lastSeen := now; ws := sock |}).
  assert (Hold : forall i r, (i, r) ∈ clients s ->
            exists c, objs s !! r = Some c /\ (objs s ++ [state]) !! r = Some c
                      /\ id c = i /\ ws c <> sock).
  { intros i r Hin. destruct (Hrefs i r Hin) as (c & Hc & Hid).
    exists c. split; [exact Hc|]. split; [apply lookup_app_l_Some, Hc|].
    split; [exact Hid|]. apply Hsock. eapply list_elem_of_lookup_2, Hc. }
  assert (Hnew : (objs s ++ [state]) !! length (objs s) = Some state).
  { apply list_lookup_middle. reflexivity. }
  split; cbn [objs clients].
  - rewrite fmap_app. cbn. apply NoDup_app. split; [exact Hkeys|].
    split; [|apply NoDup_singleton].
    intros i Hi ->%list_elem_of_singleton. exact (Hfresh Hi).
  - intros i r [Hin|Hin%list_elem_of_singleton]%elem_of_app.
    + destruct (Hold i r Hin) as (c & _ & Hc & Hid & _). exists c. auto.
    + injection Hin as -> ->. exists state. auto.
  - intros i r c i' r' c' Hin Hc Hin' Hc' Heq.
    apply elem_of_app in Hin as [Hin|Hin%list_elem_of_singleton];
      apply elem_of_app in Hin' as [Hin'|Hin'%list_elem_of_singleton].
    + destruct (Hold i r Hin) as (x & Hx & Hx2 & _).
      destruct (Hold i' r' Hin') as (x' & Hx' & Hx2' & _).
      rewrite Hx2 in Hc. rewrite Hx2' in Hc'.
      injection Hc as <-. injection Hc' as <-.
      exact (Hsocks i r x i' r' x' Hin Hx Hin' Hx' Heq).
    + destruct (Hold i r Hin) as (x & _ & Hx2 & _ & Hne).
      injection Hin' as -> ->. rewrite Hx2 in Hc. rewrite Hnew in Hc'.
      injection Hc as <-. injection Hc' as <-. cbn in Heq. contradiction.
    + destruct (Hold i' r' Hin') as (x' & _ & Hx2' & _ & Hne).
      injection Hin as -> ->. rewrite Hx2' in Hc'. rewrite Hnew in Hc.
      injection Hc as <-. injection Hc' as <-. cbn in Heq.
      symmetry in Heq. contradiction.
    + injection Hin as -> ->. injection Hin' as -> ->. reflexivity.
Qed.

Lemma wf_on_message env now k buf s :
  wf s -> wf (fst (on_message env now k buf s)).
Proof.
  intros Hwf. destruct (objs s !! k) as [c|] eqn:Hk.
  - destruct (decode buf) as [[n|col row|t]|] eqn:Hd.
    + rewrite (on_message_hello env now k buf s c n Hk Hd). cbn [fst].
      eapply wf_store; [exact Hwf | exact Hk | reflexivity | reflexivity].
    + rewrite (on_message_cursor env now k buf s c col row Hk Hd). cbn [fst].
      eapply wf_store; [exact Hwf | exact Hk | reflexivity | reflexivity].
    + rewrite (on_message_ping env now k buf s c t Hk Hd). cbn [fst].
      eapply wf_store; [exact Hwf | exact Hk | reflexivity | reflexivity].
    + rewrite (on_message_rejected env now k buf s c Hk Hd). cbn [fst].
      eapply wf_store; [exact Hwf | exact Hk | reflexivity | reflexivity].
  - unfold on_message. rewrite Hk. exact Hwf.
Qed.

Lemma wf_on_close env k s : wf s -> wf (fst (on_close env k s)).
Proof.
  intros [Hkeys Hrefs Hsocks]. unfold on_close.
  destruct (objs s !! k) as [c|]; [|split; assumption].
  split; cbn [fst objs clients].
  - apply map_delete_keys, Hkeys.
  - intros i r [Hin _]%elem_of_map_delete. exact (Hrefs i r Hin).
  - intros i r x i' r' x' [Hin _]%elem_of_map_delete Hx
      [Hin' _]%elem_of_map_delete Hx'.
    exact (Hsocks i r x i' r' x' Hin Hx Hin' Hx').
Qed.

(** Every state the server reaches is keyed. *)
Lemma reachable_wf s : reachable s -> wf s.
Proof.
  induction 1 as [|env now ev s Hreach IH Hadm]; [exact wf_init|].
  destruct ev as [sock nanoid|k buf|k|a]; cbn [step].
  - apply wf_on_connection; assumption.
  - apply wf_on_message, IH.
  - apply wf_on_close, IH.
  - destruct IH. split; assumption.
Qed.

End StoreInvariant.

(** C1.  On every valid cursor message, whose [col] and [row] are then
    integers not below zero, the handler does not reject: it stores the
    cursor with each coordinate cut to the grid, [min(col, 39)] and
    [min(row, 23)], which lies in [0, columns-1] x [0, rows-1], and every
    game frame it sends is a [playerUpdate] of the sender carrying that
    stored cursor.  The frame [cursor{col:999,row:999}] is valid and yields
    the cursor [(39, 23)]. *)
Theorem cursor_clamped_into_grid (env : Server.Env) (now : Z) (k : nat)
    (s : Server.State) (st : Server.ClientState) (buf : Protocol.frame)
    (c r : Z) :
  Server.objs s !! k = Some st ->
  Server.decode buf = Some (Protocol.CursorMsg c r) ->
  let res := Server.on_message env now k buf s in
  let cur := Protocol.mkCursor (Z.min c 39) (Z.min r 23) in
  (0 <= c /\ 0 <= r)
  /\ (0 <= Protocol.col cur <= Protocol.cols Server.GRID - 1
      /\ 0 <= Protocol.row cur <= Protocol.rows Server.GRID - 1)
  /\ (exists st', Server.objs (fst res) !! k = Some st'
                  /\ Server.cursor st' = Some cur)
  /\ (forall w m, (w, m) ∈ Server.game_sends (snd res) ->
        exists p, m = Protocol.PlayerUpdateMsg p
                  /\ Protocol.id p = Server.id st
                  /\ Protocol.cursor p = Some cur)
  /\ Server.decode
       (Protocol.Json (Protocol.JObj
          [("kind", Protocol.JStr "cursor"); ("col", Protocol.JNum 999);
           ("row", Protocol.JNum 999)]))
     = Some (Protocol.CursorMsg 999 999)
  /\ (c = 999 -> r = 999 -> cur = Protocol.mkCursor 39 23).
Proof.
  intros Hk Hd res cur.
  assert (Hpos : 0 <= c /\ 0 <= r).
  { destruct buf as [|msg]; [discriminate|]. exact (safeParse_cursor_inv msg c r Hd). }
  assert (Hcur : Protocol.mkCursor
                   (Server.clamp (Protocol.cols Server.GRID - 1) c)
                   (Server.clamp (Protocol.rows Server.GRID - 1) r) = cur).
  { unfold cur, Server.clamp. cbn [Protocol.cols Protocol.rows Server.GRID].
    f_equal; lia. }
  subst res. rewrite (on_message_cursor env now k _ s st c r Hk Hd).
  cbv zeta. rewrite Hcur. cbn [fst snd].
  split; [exact Hpos|]. split; [|split; [|split; [|split]]].
  - unfold cur. cbn [Protocol.col Protocol.row Protocol.cols Protocol.rows Server.GRID].
    lia.
  - eexists. split; [eapply lookup_store_eq, Hk | reflexivity].
  - intros w m Hin. rewrite game_sends_app, game_sends_adminBroadcast, app_nil_r in Hin.
    apply elem_of_broadcast in Hin as [-> _].
    eexists. split; [reflexivity|]. split; reflexivity.
  - reflexivity.
  - intros -> ->. reflexivity.
Qed.

(** Scenario 4: "a1", in the store with "b2", reports (999, 999). *)
Lemma cursor_clamped_into_grid_witness :
  let env := Server.mkEnv (fun _ => WebSocket.OPEN) (fun _ => WebSocket.OPEN) in
  let s := Server.mkState
             [Server.mkClientState "a1" (Some "Ann") None 10 0;
              Server.mkClientState "b2" None None 11 1]
             [("a1", 0%nat); ("b2", 1%nat)] [] in
  let frame := Protocol.Json (Protocol.JObj
                 [("kind", Protocol.JStr "cursor");
                  ("col", Protocol.JNum 999); ("row", Protocol.JNum 999)]) in
  Server.on_message env 20 0 frame s
  = (Server.mkState
       [Server.mkClientState "a1" (Some "Ann") (Some (Protocol.mkCursor 39 23)) 20 0;
        Server.mkClientState "b2" None None 11 1]
       [("a1", 0%nat); ("b2", 1%nat)] [],
     [Server.Send 1 (Protocol.PlayerUpdateMsg
        (Protocol.mkPlayer "a1" (Some "Ann") (Some (Protocol.mkCursor 39 23)) 20))])
  /\ exists st', Server.objs (fst (Server.on_message env 20 0 frame s)) !! 0%nat
                 = Some st'
                 /\ Server.cursor st' = Some (Protocol.mkCursor 39 23).
Proof.
  intros env s frame. split; [reflexivity|].
  exact (proj1 (proj2 (proj2 (cursor_clamped_into_grid env 20 0 s
           (Server.mkClientState "a1" (Some "Ann") None 10 0) frame 999 999
           eq_refl eq_refl)))).
Defined.

(** C5.  When the frame of connection [k] cannot be parsed or fails
    validation, the handler puts nothing on any socket (no broadcast, no
    admin push, no close), leaves the map and the admin observers as they
    were, leaves every other connection's object as it was, and changes
    nothing in the sender's object but [lastSeen]; and on every frame, valid
    or not, [lastSeen] of the sender becomes the time of the message.
    Frames that fail: text that is not JSON, a value that is not an object,
    a missing or unknown [kind], a field of the wrong type, a number that is
    not an integer, a negative coordinate, an empty or over-long name, and a
    version other than 1. *)
Theorem invalid_frame_dropped (env : Server.Env) (now : Z) (k : nat)
    (s : Server.State) (st : Server.ClientState) (buf : Protocol.frame) :
  Server.objs s !! k = Some st ->
  (Server.decode buf = None ->
     snd (Server.on_message env now k buf s) = []
     /\ Server.clients (fst (Server.on_message env now k buf s)) = Server.clients s
     /\ Server.admins (fst (Server.on_message env now k buf s)) = Server.admins s
     /\ Server.objs (fst (Server.on_message env now k buf s)) !! k
        = Some (Server.mkClientState (Server.id st) (Server.name st)
                  (Server.cursor st) now (Server.ws st))
     /\ (forall k', k' <> k ->
           Server.objs (fst (Server.on_message env now k buf s)) !! k'
           = Server.objs s !! k'))
  /\ (exists st', Server.objs (fst (Server.on_message env now k buf s)) !! k = Some st'
                  /\ Server.lastSeen st' = now)
  /\ Server.decode Protocol.BadJSON = None
  /\ Forall (fun v => Server.decode (Protocol.Json v) = None)
       [Protocol.JNull;
        Protocol.JArr [];
        Protocol.JObj [("col", Protocol.JNum 1); ("row", Protocol.JNum 1)];
        Protocol.JObj [("kind", Protocol.JStr "jump")];
        Protocol.JObj [("kind", Protocol.JStr "cursor");
                       ("col", Protocol.JStr "5"); ("row", Protocol.JNum 3)];
        Protocol.JObj [("kind", Protocol.JStr "cursor");
                       ("col", Protocol.JNum (3 # 2)); ("row", Protocol.JNum 3)];
        Protocol.JObj [("kind", Protocol.JStr "cursor");
                       ("col", Protocol.JNum (-1)); ("row", Protocol.JNum 3)];
        Protocol.JObj [("kind", Protocol.JStr "cursor"); ("col", Protocol.JNum 5)];
        Protocol.JObj [("kind", Protocol.JStr "hello"); ("version", Protocol.JNum 2)];
        Protocol.JObj [("kind", Protocol.JStr "hello"); ("version", Protocol.JStr "1")];
        Protocol.JObj [("kind", Protocol.JStr "hello"); ("version", Protocol.JNum 1);
                       ("name", Protocol.JStr EmptyString)];
        Protocol.JObj [("kind", Protocol.JStr "hello"); ("version", Protocol.JNum 1);
                       ("name", Protocol.JStr "abcdefghijklmnopqrstuvwxy")];
        Protocol.JObj [("kind", Protocol.JStr "hello"); ("version", Protocol.JNum 1);
                       ("name", Protocol.JNull)];
        Protocol.JObj [("kind", Protocol.JStr "ping"); ("t", Protocol.JNum (1 # 2))]].
Proof.
  intros Hk. split; [|split; [|split]].
  - intros Hd. rewrite (on_message_rejected env now k buf s st Hk Hd). cbn [fst snd].
    split; [reflexivity|]. split; [reflexivity|]. split; [reflexivity|].
    split; [eapply lookup_store_eq, Hk|].
    intros k' Hne. apply lookup_store_ne. congruence.
  - destruct (Server.decode buf) as [[n|col row|t]|] eqn:Hd.
    + rewrite (on_message_hello env now k buf s st n Hk Hd). cbn [fst].
      eexists. split; [eapply lookup_store_eq, Hk | reflexivity].
    + rewrite (on_message_cursor env now k buf s st col row Hk Hd). cbn [fst].
      eexists. split; [eapply lookup_store_eq, Hk | reflexivity].
    + rewrite (on_message_ping env now k buf s st t Hk Hd). cbn [fst].
      eexists. split; [eapply lookup_store_eq, Hk | reflexivity].
    + rewrite (on_message_rejected env now k buf s st Hk Hd). cbn [fst].
      eexists. split; [eapply lookup_store_eq, Hk | reflexivity].
  - reflexivity.
  - repeat (constructor; [reflexivity|]). constructor.
Qed.

(** "a1" sends a cursor message with a negative column. *)
Lemma invalid_frame_dropped_witness :
  let env := Server.mkEnv (fun _ => WebSocket.OPEN) (fun _ => WebSocket.OPEN) in
  let s := Server.mkState
             [Server.mkClientState "a1" (Some "Ann") (Some (Protocol.mkCursor 5 3)) 10 0;
              Server.mkClientState "b2" None None 11 1]
             [("a1", 0%nat); ("b2", 1%nat)] [7%nat] in
  let frame := Protocol.Json (Protocol.JObj
                 [("kind", Protocol.JStr "cursor");
                  ("col", Protocol.JNum (-1)); ("row", Protocol.JNum 3)]) in
  Server.decode frame = None
  /\ snd (Server.on_message env 20 0 frame s) = []
  /\ Server.objs (fst (Server.on_message env 20 0 frame s)) !! 0%nat
     = Some (Server.mkClientState "a1" (Some "Ann") (Some (Protocol.mkCursor 5 3)) 20 0).
Proof.
  intros env s frame. split; [reflexivity|].
  destruct (invalid_frame_dropped env 20 0 s
              (Server.mkClientState "a1" (Some "Ann") (Some (Protocol.mkCursor 5 3)) 10 0)
              frame eq_refl) as (H & _).
  destruct (H eq_refl) as (Hout & _ & _ & Hobj & _).
  split; [exact Hout | exact Hobj].
Defined.

Section Fanout.

Import Server.

Lemma keyed_lookup (m : list (string * nat)) i (a b : nat) :
  NoDup (fst <$> m) -> (i, a) ∈ m -> (i, b) ∈ m -> a = b.
Proof.
  induction m as [|[i' r'] m IH]; [intros _ H%elem_of_nil; destruct H|].
  rewrite fmap_cons. intros [Hnin Hnd]%NoDup_cons Ha Hb. cbn [fst] in Hnin.
  apply elem_of_cons in Ha as [Ha|Ha]; apply elem_of_cons in Hb as [Hb|Hb].
  - congruence.
  - exfalso. injection Ha as -> ->. apply Hnin, list_elem_of_fmap.
    exists (i', b). auto.
  - exfalso. injection Hb as -> ->. apply Hnin, list_elem_of_fmap.
    exists (i', a). auto.
  - exact (IH Hnd Ha Hb).
Qed.

Lemma same_id_Some_false i j : same_id i (Some j) = false <-> i <> j.
Proof. cbn. apply String.eqb_neq. Qed.

(** The recipients of a delta about connection [k] in a keyed store.  With
    [exceptId] the sender's id, its socket gets nothing and every other open
    connection of the store gets the delta; without, every open connection
    of the store gets it. *)
Lemma broadcast_except_sender env s k c msg :
  wf s -> objs s !! k = Some c -> (id c, k) ∈ clients s ->
  (forall m, (ws c, m) ∉ game_sends (broadcast env s msg (Some (id c))))
  /\ (forall k' c', (id c', k') ∈ clients s -> objs s !! k' = Some c' ->
        k' <> k -> WebSocket.is_open (game_ready env (ws c')) = true ->
        (ws c', msg) ∈ game_sends (broadcast env s msg (Some (id c)))).
Proof.
  intros [Hkeys Hrefs Hsocks] Hk Hin. split.
  - intros m (_ & i & r & x & Hir & Hid & Hx & _ & Hw)%elem_of_broadcast.
    apply same_id_Some_false in Hid.
    assert (r = k) by (eapply (Hsocks i r x (id c) k c); eauto). subst r.
    destruct (Hrefs i k Hir) as (y & Hy & Hidy). congruence.
  - intros k' c' Hin' Hk' Hne Hopen. apply elem_of_broadcast.
    split; [reflexivity|]. exists (id c'), k', c'.
    split; [exact Hin'|]. split; [|auto].
    apply same_id_Some_false. intros Heq. apply Hne.
    rewrite Heq in Hin'. exact (keyed_lookup _ _ _ _ Hkeys Hin' Hin).
Qed.

Lemma broadcast_all env s msg k' c' :
  (id c', k') ∈ clients s -> objs s !! k' = Some c' ->
  WebSocket.is_open (game_ready env (ws c')) = true ->
  (ws c', msg) ∈ game_sends (broadcast env s msg None).
Proof.
  intros Hin Hk Hopen. apply elem_of_broadcast.
  split; [reflexivity|]. exists (id c'), k', c'. auto.
Qed.

End Fanout.

(** C2.  In a keyed store, let connection [k] be in the store.  On a valid
    cursor message from [k] every game frame sent is the one [playerUpdate]
    of [k]; the socket of [k] gets no frame; every other connection of the
    store whose socket is open gets the update.  On a valid hello from [k]
    every game frame sent is again the one [playerUpdate] of [k], and every
    connection of the store whose socket is open gets it, [k] included. *)
Theorem update_fanout (env : Server.Env) (now : Z) (k : nat)
    (s : Server.State) (st : Server.ClientState) (buf : Protocol.frame) :
  Server.wf s -> Server.objs s !! k = Some st ->
  (Server.id st, k) ∈ Server.clients s ->
  let s' := fst (Server.on_message env now k buf s) in
  let sends := Server.game_sends (snd (Server.on_message env now k buf s)) in
  (forall col row,
      Server.decode buf = Some (Protocol.CursorMsg col row) ->
      exists upd,
        Protocol.id upd = Server.id st
        /\ (forall w m, (w, m) ∈ sends -> m = Protocol.PlayerUpdateMsg upd)
        /\ (forall m, (Server.ws st, m) ∉ sends)
        /\ (forall k' c', (Server.id c', k') ∈ Server.clients s' ->
              Server.objs s' !! k' = Some c' -> k' <> k ->
              WebSocket.is_open (Server.game_ready env (Server.ws c')) = true ->
              (Server.ws c', Protocol.PlayerUpdateMsg upd) ∈ sends))
  /\ (forall n,
      Server.decode buf = Some (Protocol.HelloMsg n) ->
      exists upd,
        Protocol.id upd = Server.id st
        /\ (forall w m, (w, m) ∈ sends -> m = Protocol.PlayerUpdateMsg upd)
        /\ (forall k' c', (Server.id c', k') ∈ Server.clients s' ->
              Server.objs s' !! k' = Some c' ->
              WebSocket.is_open (Server.game_ready env (Server.ws c')) = true ->
              (Server.ws c', Protocol.PlayerUpdateMsg upd) ∈ sends)
        /\ (WebSocket.is_open (Server.game_ready env (Server.ws st)) = true ->
              (Server.ws st, Protocol.PlayerUpdateMsg upd) ∈ sends)).
Proof.
  intros Hwf Hk Hin s' sends. split.
  - intros col row Hd. subst s' sends.
    rewrite (on_message_cursor env now k buf s st col row Hk Hd).
    cbv zeta. cbn [fst snd].
    rewrite game_sends_app, game_sends_adminBroadcast, app_nil_r.
    set (c' := Server.set_cursor _ (Server.set_lastSeen now st)).
    assert (Hwf' : Server.wf (Server.store k c' s))
      by (eapply wf_store; [exact Hwf | exact Hk | reflexivity | reflexivity]).
    assert (Hk' : Server.objs (Server.store k c' s) !! k = Some c')
      by (eapply lookup_store_eq, Hk).
    destruct (broadcast_except_sender env (Server.store k c' s) k c'
                (Protocol.PlayerUpdateMsg (Server.player_of c')) Hwf' Hk' Hin)
      as [Hnot Hall].
    exists (Server.player_of c'). split; [reflexivity|].
    split; [|split].
    + intros w m [-> _]%elem_of_broadcast. reflexivity.
    + exact Hnot.
    + exact Hall.
  - intros n Hd. subst s' sends.
    rewrite (on_message_hello env now k buf s st n Hk Hd).
    cbv zeta. cbn [fst snd].
    rewrite game_sends_app, game_sends_adminBroadcast, app_nil_r.
    set (c' := Server.set_name _ (Server.set_lastSeen now st)).
    assert (Hk' : Server.objs (Server.store k c' s) !! k = Some c')
      by (eapply lookup_store_eq, Hk).
    exists (Server.player_of c'). split; [reflexivity|].
    split; [|split].
    + intros w m [-> _]%elem_of_broadcast. reflexivity.
    + intros k' x Hin' Hx Hopen. eapply broadcast_all; eassumption.
    + intros Hopen. apply (broadcast_all env _ _ k c'); assumption.
Qed.

(** ** A session of three *)

(** Sockets 0 and 1 are open, socket 2 has stopped being so; the admin
    observers are open. *)
Definition env3 : Server.Env :=
  Server.mkEnv (fun w => if Nat.eqb w 2 then WebSocket.CLOSED else WebSocket.OPEN)
               (fun _ => WebSocket.OPEN).

(** "a1", "b2" and "c3" have connected, in this order, at times 1, 2, 3. *)
Definition three_clients : Server.State :=
  fst (Server.run [(env3, 1, Server.Connection 0 "a1");
                   (env3, 2, Server.Connection 1 "b2");
                   (env3, 3, Server.Connection 2 "c3")] Server.init).

Lemma three_clients_eq :
  three_clients
  = Server.mkState
      [Server.mkClientState "a1" None None 1 0;
       Server.mkClientState "b2" None None 2 1;
       Server.mkClientState "c3" None None 3 2]
      [("a1", 0%nat); ("b2", 1%nat); ("c3", 2%nat)] [].
Proof. reflexivity. Qed.

Ltac fresh_connection :=
  split;
  [ cbn; rewrite ?not_elem_of_cons; repeat split;
    try discriminate; apply not_elem_of_nil
  | cbn; intros c Hc; rewrite ?elem_of_cons in Hc;
    repeat (destruct Hc as [->|Hc]; [cbn; discriminate|]);
    apply elem_of_nil in Hc; destruct Hc ].

Lemma three_clients_reachable : Server.reachable three_clients.
Proof.
  change three_clients with
    (fst (Server.step env3 3 (Server.Connection 2 "c3")
       (fst (Server.step env3 2 (Server.Connection 1 "b2")
          (fst (Server.step env3 1 (Server.Connection 0 "a1") Server.init)))))).
  repeat (apply Server.reach_step; [|fresh_connection]).
  apply Server.reach_init.
Qed.

(** [cursor{col:5,row:3}] and [hello{version:1,name:"Ann"}] *)
Definition cursor_5_3 : Protocol.frame :=
  Protocol.Json (Protocol.JObj
    [("kind", Protocol.JStr "cursor"); ("col", Protocol.JNum 5);
     ("row", Protocol.JNum 3)]).

Definition hello_Ann : Protocol.frame :=
  Protocol.Json (Protocol.JObj
    [("kind", Protocol.JStr "hello"); ("version", Protocol.JNum 1);
     ("name", Protocol.JStr "Ann")]).

Definition hello_Bob : Protocol.frame :=
  Protocol.Json (Protocol.JObj
    [("kind", Protocol.JStr "hello"); ("version", Protocol.JNum 1);
     ("name", Protocol.JStr "Bob")]).

(** Scenarios 2 and 3 in the session of three: the cursor of "a1" goes to
    "b2" alone ("c3" is not open), its hello to "a1" and "b2". *)
Lemma update_fanout_witness :
  Server.game_sends (snd (Server.on_message env3 9 0 cursor_5_3 three_clients))
  = [(1%nat, Protocol.PlayerUpdateMsg
        (Protocol.mkPlayer "a1" None (Some (Protocol.mkCursor 5 3)) 9))]
  /\ Server.game_sends (snd (Server.on_message env3 9 0 hello_Ann three_clients))
     = [(0%nat, Protocol.PlayerUpdateMsg (Protocol.mkPlayer "a1" (Some "Ann") None 9));
        (1%nat, Protocol.PlayerUpdateMsg (Protocol.mkPlayer "a1" (Some "Ann") None 9))]
  /\ (forall m,
        (0%nat, m) ∉ Server.game_sends
                       (snd (Server.on_message env3 9 0 cursor_5_3 three_clients)))
  /\ exists upd,
      (0%nat, Protocol.PlayerUpdateMsg upd)
        ∈ Server.game_sends (snd (Server.on_message env3 9 0 hello_Ann three_clients)).
Proof.
  split; [reflexivity|]. split; [reflexivity|].
  assert (Hwf : Server.wf three_clients)
    by exact (reachable_wf _ three_clients_reachable).
  assert (Hin : ("a1", 0%nat) ∈ Server.clients three_clients)
    by (apply list_elem_of_In; left; reflexivity).
  split.
  - destruct (update_fanout env3 9 0 three_clients
                (Server.mkClientState "a1" None None 1 0) cursor_5_3
                Hwf eq_refl Hin) as [Hcur _].
    destruct (Hcur 5 3 eq_refl) as (upd & _ & _ & Hnot & _). exact Hnot.
  - destruct (update_fanout env3 9 0 three_clients
                (Server.mkClientState "a1" None None 1 0) hello_Ann
                Hwf eq_refl Hin) as [_ Hhello].
    destruct (Hhello (Some "Ann") eq_refl) as (upd & _ & _ & _ & Hself).
    exists upd. apply Hself. reflexivity.
Defined.

Section Names.

Import Server.

(** What a message does to the objects: it rewrites the sender's. *)
Lemma on_message_store env now k buf (s : State) c :
  objs s !! k = Some c ->
  exists c', fst (on_message env now k buf s) = store k c' s
             /\ id c' = id c /\ ws c' = ws c.
Proof.
  intros Hk. destruct (decode buf) as [[n|col row|t]|] eqn:Hd.
  - rewrite (on_message_hello env now k buf s c n Hk Hd). eexists.
    split; [reflexivity|]. split; reflexivity.
  - rewrite (on_message_cursor env now k buf s c col row Hk Hd). eexists.
    split; [reflexivity|]. split; reflexivity.
  - rewrite (on_message_ping env now k buf s c t Hk Hd). eexists.
    split; [reflexivity|]. split; reflexivity.
  - rewrite (on_message_rejected env now k buf s c Hk Hd). eexists.
    split; [reflexivity|]. split; reflexivity.
Qed.

Lemma on_message_other env now k k' buf (s : State) :
  k' <> k -> objs (fst (on_message env now k' buf s)) !! k = objs s !! k.
Proof.
  intros Hne. destruct (objs s !! k') as [c|] eqn:Hk'.
  - destruct (on_message_store env now k' buf s c Hk') as (c' & -> & _).
    apply lookup_store_ne, Hne.
  - unfold on_message. rewrite Hk'. reflexivity.
Qed.

Lemma on_close_objs env k (s : State) : objs (fst (on_close env k s)) = objs s.
Proof. unfold on_close. destruct (objs s !! k); reflexivity. Qed.

Lemma run_cons env now ev rest (s : State) :
  run ((env, now, ev) :: rest) s
  = (fst (run rest (fst (step env now ev s))),
     snd (step env now ev s) ++ snd (run rest (fst (step env now ev s)))).
Proof.
  cbn [run]. destruct (step env now ev s) as [s1 out1]. cbn [fst snd].
  destruct (run rest s1) as [s2 out2]. reflexivity.
Qed.

(** Objects are never removed and keep their socket. *)
Lemma sockets_step env now ev (s : State) c :
  c ∈ objs s -> exists c', c' ∈ objs (fst (step env now ev s)) /\ ws c' = ws c.
Proof.
  intros Hc. destruct ev as [sock nanoid|k buf|k|a]; cbn [step].
  - exists c. split; [|reflexivity]. cbn. apply elem_of_app. left. exact Hc.
  - destruct (objs s !! k) as [c0|] eqn:Hk.
    + destruct (on_message_store env now k buf s c0 Hk) as (c1 & -> & _ & Hws).
      apply list_elem_of_lookup in Hc as [j Hj].
      destruct (decide (k = j)) as [<-|Hne].
      * exists c1. split; [|congruence].
        eapply list_elem_of_lookup_2, lookup_store_eq, Hk.
      * exists c. split; [|reflexivity].
        apply (list_elem_of_lookup_2 _ j). rewrite lookup_store_ne by exact Hne.
        exact Hj.
    + unfold on_message. rewrite Hk. exists c. split; [exact Hc | reflexivity].
  - rewrite on_close_objs. exists c. split; [exact Hc | reflexivity].
  - exists c. split; [exact Hc | reflexivity].
Qed.

Lemma sockets_run evs : forall (s : State) c,
  c ∈ objs s -> exists c', c' ∈ objs (fst (run evs s)) /\ ws c' = ws c.
Proof.
  induction evs as [|[[env now] ev] rest IH]; intros s c Hc.
  - exists c. split; [exact Hc | reflexivity].
  - rewrite run_cons. cbn [fst].
    destruct (sockets_step env now ev s c Hc) as (c1 & Hc1 & Hws1).
    destruct (IH _ c1 Hc1) as (c2 & Hc2 & Hws2).
    exists c2. split; [exact Hc2 | congruence].
Qed.

(** A game frame goes to the socket of an object of the store. *)
Lemma step_sends_known env now ev (s : State) w m :
  (w, m) ∈ game_sends (snd (step env now ev s)) ->
  exists c, c ∈ objs (fst (step env now ev s)) /\ ws c = w.
Proof.
  destruct ev as [sock nanoid|k buf|k|a]; cbn [step].
  - unfold on_connection. cbn [fst snd objs].
    change (?a :: ?b :: ?l) with ([a; b] ++ l).
    rewrite game_sends_app, game_sends_adminBroadcast, app_nil_r. cbn.
    intros Hin. eexists. split; [apply elem_of_app; right; left|].
    cbn. rewrite !elem_of_cons in Hin.
    destruct Hin as [[= -> _]|[[= -> _]|Hin%elem_of_nil]];
      [reflexivity | reflexivity | destruct Hin].
  - destruct (objs s !! k) as [c0|] eqn:Hk.
    + destruct (decode buf) as [[n|col row|t]|] eqn:Hd.
      * rewrite (on_message_hello env now k buf s c0 n Hk Hd). cbn [fst snd].
        rewrite game_sends_app, game_sends_adminBroadcast, app_nil_r.
        intros (_ & i & r & c & _ & _ & Hc & _ & ->)%elem_of_broadcast.
        exists c. split; [eapply list_elem_of_lookup_2, Hc | reflexivity].
      * rewrite (on_message_cursor env now k buf s c0 col row Hk Hd). cbn [fst snd].
        rewrite game_sends_app, game_sends_adminBroadcast, app_nil_r.
        intros (_ & i & r & c & _ & _ & Hc & _ & ->)%elem_of_broadcast.
        exists c. split; [eapply list_elem_of_lookup_2, Hc | reflexivity].
      * rewrite (on_message_ping env now k buf s c0 t Hk Hd).
        intros H%elem_of_nil. destruct H.
      * rewrite (on_message_rejected env now k buf s c0 Hk Hd).
        intros H%elem_of_nil. destruct H.
    + unfold on_message. rewrite Hk. intros H%elem_of_nil. destruct H.
  - unfold on_close. destruct (objs s !! k) as [c0|];
      [|intros H%elem_of_nil; destruct H].
    cbn [fst snd]. rewrite game_sends_app, game_sends_adminBroadcast, app_nil_r.
    intros (_ & i & r & c & _ & _ & Hc & _ & ->)%elem_of_broadcast.
    exists c. split; [eapply list_elem_of_lookup_2, Hc | reflexivity].
  - unfold on_admin_connection. cbn [fst snd]. rewrite game_sends_adminBroadcast.
    intros H%elem_of_nil. destruct H.
Qed.

Lemma run_sends_known evs : forall (s : State) w m,
  (w, m) ∈ game_sends (snd (run evs s)) ->
  exists c, c ∈ objs (fst (run evs s)) /\ ws c = w.
Proof.
  induction evs as [|[[env now] ev] rest IH]; intros s w m.
  - intros H%elem_of_nil. destruct H.
  - rewrite run_cons. cbn [fst snd]. rewrite game_sends_app.
    intros [Hin|Hin]%elem_of_app.
    + destruct (step_sends_known env now ev s w m Hin) as (c & Hc & Hws).
      destruct (sockets_run rest _ c Hc) as (c' & Hc' & Hws').
      exists c'. split; [exact Hc' | congruence].
    + exact (IH _ w m Hin).
Qed.

End Names.

Section Accept.

Import Server.

Lemma map_get_set i r (m : list (string * nat)) : map_get i (map_set i r m) = Some r.
Proof.
  induction m as [|[i' r'] m IH]; cbn [map_set map_get].
  - rewrite String.eqb_refl. reflexivity.
  - destruct (String.eqb i' i) eqn:Heq; cbn [map_get].
    + rewrite String.eqb_refl. reflexivity.
    + rewrite Heq. exact IH.
Qed.

Lemma elem_of_map_set i r (m : list (string * nat)) : (i, r) ∈ map_set i r m.
Proof.
  induction m as [|[i' r'] m IH]; cbn [map_set]; [left|].
  destruct (String.eqb i' i); [left | right; exact IH].
Qed.

(** [Array.from(clients.values())] holds the object of every entry. *)
Lemma elem_of_values (s : State) i r c :
  (i, r) ∈ clients s -> objs s !! r = Some c -> c ∈ values s.
Proof.
  intros Hin Hc. unfold values. apply list_elem_of_omap.
  exists (i, r). split; [exact Hin | exact Hc].
Qed.

Lemma values_grow (objs0 : list ClientState) x (l : list (string * nat)) :
  (forall kv, kv ∈ l -> is_Some (objs0 !! snd kv)) ->
  omap (fun kv => (objs0 ++ [x]) !! snd kv) l = omap (fun kv => objs0 !! snd kv) l.
Proof.
  induction l as [|kv l IH]; intros Hl; [reflexivity|].
  cbn [omap list_omap]. destruct (Hl kv) as [c Hc]; [left|].
  rewrite (lookup_app_l_Some _ _ _ _ Hc), Hc. f_equal.
  apply IH. intros kv' Hin. apply Hl. right. exact Hin.
Qed.

End Accept.

(** In a keyed store the participants of a snapshot are one per key, in
    the order of the keys. *)
Lemma snapshot_ids (s : Server.State) :
  Server.wf s ->
  Protocol.id <$> (Server.player_of <$> Server.values s) = fst <$> Server.clients s.
Proof.
  intros [_ Hrefs _]. unfold Server.values.
  induction (Server.clients s) as [|[i r] l IH]; [reflexivity|].
  destruct (Hrefs i r) as (c & Hc & Hid); [left|].
  cbn [omap list_omap snd]. rewrite Hc. cbn [fmap list_fmap fst].
  rewrite <- Hid. cbn [Server.player_of Protocol.id]. f_equal.
  apply IH. intros i' r' Hin. apply Hrefs. right. exact Hin.
Qed.

Lemma snapshot_keyed (s : Server.State) :
  Server.wf s -> NoDup (Protocol.id <$> (Server.player_of <$> Server.values s)).
Proof. intros Hwf. rewrite (snapshot_ids s Hwf). apply Hwf. Qed.

(** C3.  On a connection the handler appends a new object with the id
    [nanoid] returned, no name and no cursor, and binds the id to it in the
    map.  The game frames it sends are exactly two, both on the new socket:
    first the welcome with that id and the grid, then the [players] frame of
    all the values of the map; every other output is a push to an admin
    observer.  The snapshot holds the new participant and the object of
    every entry of the map.  When the store is keyed and the id is not yet a
    key, the map is the old map with the new entry at its end, the snapshot
    is the old participants followed by the new one, and the keys stay
    distinct.  When the state was reached by a run of the server and no
    object of it holds the accepted socket, that run put no game frame on
    the socket: the welcome is the first frame of the connection. *)
Theorem accept_welcome_then_snapshot (env : Server.Env) (now : Z) (sock : nat)
    (nanoid : string) (s : Server.State) :
  let state := Server.mkClientState nanoid None None now sock in
  let s' := fst (Server.on_connection env now sock nanoid s) in
  let out := snd (Server.on_connection env now sock nanoid s) in
  let snapshot := Server.player_of <$> Server.values s' in
  Server.objs s' = Server.objs s ++ [state]
  /\ Server.map_get nanoid (Server.clients s') = Some (length (Server.objs s))
  /\ (exists pushes,
        out = Server.Send sock (Protocol.WelcomeMsg nanoid Server.GRID)
                :: Server.Send sock (Protocol.PlayersSnapshotMsg snapshot)
                :: pushes
        /\ Server.game_sends pushes = [])
  /\ Server.player_of state ∈ snapshot
  /\ (forall i r c, (i, r) ∈ Server.clients s' -> Server.objs s' !! r = Some c ->
        Server.player_of c ∈ snapshot)
  /\ (Server.wf s -> nanoid ∉ (fst <$> Server.clients s) ->
        Server.clients s' = Server.clients s ++ [(nanoid, length (Server.objs s))]
        /\ snapshot = (Server.player_of <$> Server.values s)
                        ++ [Server.player_of state]
        /\ NoDup (fst <$> Server.clients s'))
  /\ (forall evs, fst (Server.run evs Server.init) = s ->
        (forall c, c ∈ Server.objs s -> Server.ws c <> sock) ->
        forall m, (sock, m) ∉ Server.game_sends (snd (Server.run evs Server.init))).
Proof.
  intros state s' out snapshot.
  assert (Hnew : Server.objs s' !! length (Server.objs s) = Some state).
  { subst s'. cbn. apply list_lookup_middle. reflexivity. }
  split; [reflexivity|]. split; [apply map_get_set|].
  split; [|split; [|split; [|split]]].
  - exists (Server.adminBroadcast env s'). split; [reflexivity|].
    apply game_sends_adminBroadcast.
  - apply list_elem_of_fmap_2.
    apply (elem_of_values s' nanoid (length (Server.objs s)));
      [apply elem_of_map_set | exact Hnew].
  - intros i r c Hin Hc. apply list_elem_of_fmap_2.
    exact (elem_of_values s' i r c Hin Hc).
  - intros [Hkeys Hrefs _] Hfresh.
    assert (Hclients : Server.clients s'
              = Server.clients s ++ [(nanoid, length (Server.objs s))]).
    { subst s'. cbn. apply map_set_fresh, Hfresh. }
    split; [exact Hclients|]. split.
    + subst snapshot. unfold Server.values. rewrite Hclients.
      rewrite omap_app, fmap_app. f_equal.
      * f_equal. apply values_grow. intros [i r] Hin.
        destruct (Hrefs i r Hin) as (c & Hc & _). exists c. exact Hc.
      * cbn [omap list_omap snd]. rewrite Hnew. reflexivity.
    + rewrite Hclients, fmap_app. apply NoDup_app. split; [exact Hkeys|].
      split; [|apply NoDup_singleton].
      intros i Hi ->%list_elem_of_singleton. exact (Hfresh Hi).
  - intros evs Hs Hfresh m Hin.
    destruct (run_sends_known evs Server.init sock m Hin) as (c & Hc & Hws).
    rewrite Hs in Hc. exact (Hfresh c Hc Hws).
Qed.

(** Scenario 1 for a fourth participant, "d4", on socket 3 at time 4; no
    admin observer is connected, so there are no pushes. *)
Lemma accept_welcome_then_snapshot_witness :
  Server.on_connection env3 4 3 "d4" three_clients
  = (Server.mkState
       [Server.mkClientState "a1" None None 1 0;
        Server.mkClientState "b2" None None 2 1;
        Server.mkClientState "c3" None None 3 2;
        Server.mkClientState "d4" None None 4 3]
       [("a1", 0%nat); ("b2", 1%nat); ("c3", 2%nat); ("d4", 3%nat)] [],
     [Server.Send 3 (Protocol.WelcomeMsg "d4" Server.GRID);
      Server.Send 3 (Protocol.PlayersSnapshotMsg
        [Protocol.mkPlayer "a1" None None 1; Protocol.mkPlayer "b2" None None 2;
         Protocol.mkPlayer "c3" None None 3; Protocol.mkPlayer "d4" None None 4])])
  /\ Server.clients (fst (Server.on_connection env3 4 3 "d4" three_clients))
     = Server.clients three_clients ++ [("d4", 3%nat)].
Proof.
  split; [reflexivity|].
  destruct (accept_welcome_then_snapshot env3 4 3 "d4" three_clients)
    as (_ & _ & _ & _ & _ & H & _).
  apply H.
  - exact (reachable_wf _ three_clients_reachable).
  - cbn. rewrite !not_elem_of_cons. repeat split; try discriminate.
    apply not_elem_of_nil.
Defined.


(** C4 (as the code has it).  The stored name of a connection is written
    by every valid hello of that connection: afterwards it is the name the
    hello carried, or absent when the hello carried none; so a second hello
    replaces or clears it.  Every other frame of the connection (cursor,
    ping, rejected) leaves the name as it was, and so does every event of
    another connection: its messages, its close, a new connection, a new
    admin observer. *)
Theorem name_follows_hello (env : Server.Env) (now : Z) (k : nat)
    (buf : Protocol.frame) (s : Server.State) (c : Server.ClientState) :
  Server.objs s !! k = Some c ->
  (exists c', Server.objs (fst (Server.on_message env now k buf s)) !! k = Some c'
              /\ Server.name c'
                 = match Server.decode buf with
                   | Some (Protocol.HelloMsg n) => n
                   | _ => Server.name c
                   end)
  /\ (forall k' buf', k' <> k ->
        Server.objs (fst (Server.on_message env now k' buf' s)) !! k = Some c)
  /\ (forall k', Server.objs (fst (Server.on_close env k' s)) !! k = Some c)
  /\ (forall sock nanoid,
        Server.objs (fst (Server.on_connection env now sock nanoid s)) !! k = Some c)
  /\ (forall a, Server.objs (fst (Server.on_admin_connection env a s)) !! k = Some c).
Proof.
  intros Hk. split; [|split; [|split; [|split]]].
  - destruct (Server.decode buf) as [[n|col row|t]|] eqn:Hd.
    + rewrite (on_message_hello env now k buf s c n Hk Hd). cbn [fst].
      eexists. split; [eapply lookup_store_eq, Hk|]. cbn [Server.name Server.set_name].
      destruct buf as [|msg]; [discriminate|]. exact (slice24_valid msg n Hd).
    + rewrite (on_message_cursor env now k buf s c col row Hk Hd). cbn [fst].
      eexists. split; [eapply lookup_store_eq, Hk | reflexivity].
    + rewrite (on_message_ping env now k buf s c t Hk Hd). cbn [fst].
      eexists. split; [eapply lookup_store_eq, Hk | reflexivity].
    + rewrite (on_message_rejected env now k buf s c Hk Hd). cbn [fst].
      eexists. split; [eapply lookup_store_eq, Hk | reflexivity].
  - intros k' buf' Hne. rewrite on_message_other by exact Hne. exact Hk.
  - intros k'. rewrite on_close_objs. exact Hk.
  - intros sock nanoid. cbn. apply lookup_app_l_Some, Hk.
  - intros a. exact Hk.
Qed.

(** "a1" introduces itself as Ann, then sends a hello without a name. *)
Lemma name_follows_hello_witness :
  let s := fst (Server.on_message env3 5 0 hello_Ann three_clients) in
  let hello := Protocol.Json (Protocol.JObj
                 [("kind", Protocol.JStr "hello"); ("version", Protocol.JNum 1)]) in
  Server.objs s !! 0%nat = Some (Server.mkClientState "a1" (Some "Ann") None 5 0)
  /\ exists c', Server.objs (fst (Server.on_message env3 6 0 hello s)) !! 0%nat = Some c'
                /\ Server.name c' = None.
Proof.
  intros s hello. split; [reflexivity|].
  exact (proj1 (name_follows_hello env3 6 0 hello s
                  (Server.mkClientState "a1" (Some "Ann") None 5 0) eq_refl)).
Defined.

(** C4 as stated fails: in the session of three, after "a1" has introduced
    itself as Ann, its second hello, valid like the first, makes it Bob. *)
Lemma second_hello_renames :
  ~ (forall (env : Server.Env) (now : Z) (k : nat) (buf : Protocol.frame)
            (s : Server.State) (c : Server.ClientState),
        Server.reachable s -> Server.connected s k ->
        Server.objs s !! k = Some c -> is_Some (Server.name c) ->
        exists c', Server.objs (fst (Server.on_message env now k buf s)) !! k = Some c'
                   /\ Server.name c' = Server.name c).
Proof.
  intros H.
  set (s := fst (Server.step env3 5 (Server.Message 0 hello_Ann) three_clients)).
  assert (Hconn0 : Server.connected three_clients 0).
  { eexists. split; [reflexivity|]. apply list_elem_of_In. left. reflexivity. }
  assert (Hreach : Server.reachable s).
  { apply Server.reach_step; [exact three_clients_reachable | exact Hconn0]. }
  assert (Hconn : Server.connected s 0).
  { eexists. split; [reflexivity|]. apply list_elem_of_In. left. reflexivity. }
  destruct (H env3 6 0%nat hello_Bob s
              (Server.mkClientState "a1" (Some "Ann") None 5 0)
              Hreach Hconn eq_refl (ex_intro _ "Ann" eq_refl))
    as (c' & Hc' & Hname).
  vm_compute in Hc'. injection Hc' as <-. discriminate Hname.
Qed.

(** * Further properties of the code *)

(** ** The replicated set as a keyed collection *)

Section ReplicatedOps.

Import Renderer.

Implicit Types (c x : ReplicatedCursor) (l : list ReplicatedCursor).

(** [this.cursors.filter(c => c.id !== id)] *)
Definition remove (i : string) l : list ReplicatedCursor :=
  List.filter (fun c => negb (String.eqb (id c) i)) l.

Lemma removeReplicatedCursor_cursors i (g : GridRenderer) :
  cursors (removeReplicatedCursor i g) = remove i (cursors g).
Proof. unfold removeReplicatedCursor. rewrite scheduleRender_cursors. reflexivity. Qed.

Lemma remove_cons i x l :
  remove i (x :: l) = if decide (id x = i) then remove i l else x :: remove i l.
Proof.
  unfold remove. cbn [List.filter].
  destruct (decide (id x = i)) as [Heq|Hne].
  - apply String.eqb_eq in Heq. rewrite Heq. reflexivity.
  - apply String.eqb_neq in Hne. rewrite Hne. reflexivity.
Qed.

Lemma remove_as_filter i l : remove i l = filter (fun x => id x <> i) l.
Proof.
  induction l as [|x l IH]; [reflexivity|].
  rewrite remove_cons. destruct (decide (id x = i)) as [Heq|Hne].
  - rewrite filter_cons_False by tauto. exact IH.
  - rewrite filter_cons_True by exact Hne. f_equal. exact IH.
Qed.

Lemma remove_absent i l : i ∉ id <$> l -> remove i l = l.
Proof.
  induction l as [|x l IH]; [reflexivity|].
  rewrite fmap_cons, not_elem_of_cons. intros [Hne Hnin].
  rewrite remove_cons, decide_False by congruence. f_equal. apply IH, Hnin.
Qed.

Lemma remove_gone i l : i ∉ id <$> remove i l.
Proof.
  induction l as [|x l IH]; [apply not_elem_of_nil|].
  rewrite remove_cons. destruct (decide (id x = i)) as [Heq|Hne]; [exact IH|].
  rewrite fmap_cons, not_elem_of_cons. split; [congruence | exact IH].
Qed.

Lemma remove_upsert c l : remove (id c) (upsert c l) = remove (id c) l.
Proof.
  induction l as [|x l IH].
  - rewrite upsert_nil, remove_cons, decide_True; reflexivity.
  - rewrite upsert_cons. destruct (decide (id x = id c)) as [Heq|Hne].
    + rewrite !remove_cons. rewrite decide_True by reflexivity.
      rewrite decide_True by exact Heq. reflexivity.
    + rewrite !remove_cons. rewrite !decide_False by exact Hne.
      f_equal. exact IH.
Qed.

Lemma findIndex_cons i x l :
  findIndex i (x :: l)
  = if decide (id x = i) then Some (0%nat, x)
    else prod_map S (fun y => y) <$> findIndex i l.
Proof.
  unfold findIndex. cbn [list_find].
  destruct (decide (id x = i)); [reflexivity|].
  destruct (list_find _ l) as [[j y]|]; reflexivity.
Qed.

Lemma findIndex_absent i l : i ∉ id <$> l -> findIndex i l = None.
Proof.
  induction l as [|x l IH]; [reflexivity|].
  rewrite fmap_cons, not_elem_of_cons. intros [Hne Hnin].
  rewrite findIndex_cons, decide_False by congruence. rewrite IH by exact Hnin.
  reflexivity.
Qed.

Lemma findIndex_present i l :
  i ∈ id <$> l -> exists j y, findIndex i l = Some (j, y) /\ (j < length l)%nat.
Proof.
  induction l as [|x l IH]; [intros H%elem_of_nil; destruct H|].
  rewrite fmap_cons, findIndex_cons. intros Hin.
  destruct (decide (id x = i)) as [Heq|Hne].
  - exists 0%nat, x. split; [reflexivity | cbn; lia].
  - apply elem_of_cons in Hin as [Hin|Hin]; [congruence|].
    destruct (IH Hin) as (j & y & -> & Hj). exists (S j), y.
    split; [reflexivity | cbn; lia].
Qed.

Lemma findIndex_upsert c l :
  exists j, findIndex (id c) (upsert c l) = Some (j, c)
            /\ (match findIndex (id c) l with
                | Some (j0, _) => j = j0 /\ length (upsert c l) = length l
                | None => j = length l /\ length (upsert c l) = S (length l)
                end).
Proof.
  induction l as [|x l IH].
  - exists 0%nat. rewrite upsert_nil, findIndex_cons, decide_True by reflexivity.
    split; [reflexivity|]. cbn. split; reflexivity.
  - rewrite upsert_cons, (findIndex_cons (id c) x l).
    destruct (decide (id x = id c)) as [Heq|Hne].
    + exists 0%nat. rewrite findIndex_cons, decide_True by reflexivity.
      split; [reflexivity|]. split; reflexivity.
    + destruct IH as (j & Hj & Hpos). exists (S j).
      rewrite findIndex_cons, decide_False by exact Hne. rewrite Hj.
      split; [reflexivity|].
      destruct (findIndex (id c) l) as [[j0 y]|]; cbn [fmap option_fmap option_map prod_map fst snd];
        destruct Hpos as [-> Hlen]; cbn [length]; rewrite Hlen; split; reflexivity.
Qed.

End ReplicatedOps.

(** X1.  Removing by id leaves no entry of that id and keeps every other
    entry, in order; when the id is absent, and so on the empty set, the
    array is unchanged; removing twice is removing once; a frame is
    requested. *)
Theorem remove_only_matching (i : string) (g : Renderer.GridRenderer) :
  let g' := Renderer.removeReplicatedCursor i g in
  (i ∉ (Renderer.id <$> Renderer.cursors g'))
  /\ Renderer.cursors g' = filter (fun x => Renderer.id x <> i) (Renderer.cursors g)
  /\ (i ∉ (Renderer.id <$> Renderer.cursors g) ->
      Renderer.cursors g' = Renderer.cursors g)
  /\ Renderer.removeReplicatedCursor i g' = g'
  /\ Renderer.raf g' = true.
Proof.
  intros g'. subst g'. rewrite removeReplicatedCursor_cursors.
  split; [apply remove_gone|]. split; [apply remove_as_filter|].
  split; [apply remove_absent|]. split; [|apply scheduleRender_raf].
  unfold Renderer.removeReplicatedCursor at 1.
  rewrite removeReplicatedCursor_cursors.
  fold (remove i (remove i (Renderer.cursors g))).
  rewrite (remove_absent i (remove i _)) by apply remove_gone.
  unfold Renderer.removeReplicatedCursor.
  fold (remove i (Renderer.cursors g)).
  unfold Renderer.scheduleRender, Renderer.with_cursors.
  destruct (Renderer.raf g); reflexivity.
Qed.

(** A leave for "zz", which is not in the set of one. *)
Lemma remove_only_matching_witness :
  let g := Renderer.with_cursors [Renderer.mkReplicatedCursor "a1" None 5 3]
             (Renderer.create 32) in
  ("zz" ∉ (Renderer.id <$> Renderer.cursors g))
  /\ Renderer.cursors (Renderer.removeReplicatedCursor "zz" g) = Renderer.cursors g.
Proof.
  intros g.
  assert (H : "zz" ∉ (Renderer.id <$> Renderer.cursors g)).
  { cbn. intros H%list_elem_of_singleton. discriminate H. }
  split; [exact H|].
  exact (proj1 (proj2 (proj2 (remove_only_matching "zz" g))) H).
Defined.

(** X2.  After an upsert the entry [findIndex] meets for the payload's id
    is the payload.  An id that was present keeps its place and the array
    its length; an id that was absent is at the end of an array one longer. *)
Theorem upsert_then_lookup (c : Renderer.ReplicatedCursor)
    (g : Renderer.GridRenderer) :
  exists j,
    Renderer.findIndex (Renderer.id c)
      (Renderer.cursors (Renderer.upsertReplicatedCursor c g)) = Some (j, c)
    /\ match Renderer.findIndex (Renderer.id c) (Renderer.cursors g) with
       | Some (j0, _) =>
           j = j0
           /\ length (Renderer.cursors (Renderer.upsertReplicatedCursor c g))
              = length (Renderer.cursors g)
       | None =>
           j = length (Renderer.cursors g)
           /\ length (Renderer.cursors (Renderer.upsertReplicatedCursor c g))
              = S (length (Renderer.cursors g))
       end.
Proof.
  rewrite upsertReplicatedCursor_cursors. apply findIndex_upsert.
Qed.

(** X3.  A removal after an upsert of the same id leaves what the removal
    alone leaves; so upserting an id that was absent and removing it gives
    the array back. *)
Theorem remove_undoes_upsert (c : Renderer.ReplicatedCursor)
    (g : Renderer.GridRenderer) :
  Renderer.cursors
    (Renderer.removeReplicatedCursor (Renderer.id c)
       (Renderer.upsertReplicatedCursor c g))
  = Renderer.cursors (Renderer.removeReplicatedCursor (Renderer.id c) g)
  /\ (Renderer.id c ∉ (Renderer.id <$> Renderer.cursors g) ->
      Renderer.cursors
        (Renderer.removeReplicatedCursor (Renderer.id c)
           (Renderer.upsertReplicatedCursor c g))
      = Renderer.cursors g).
Proof.
  rewrite !removeReplicatedCursor_cursors, upsertReplicatedCursor_cursors.
  rewrite remove_upsert. split; [reflexivity|]. apply remove_absent.
Qed.

(** "b2" appears and leaves next to "a1". *)
Lemma remove_undoes_upsert_witness :
  let g := Renderer.with_cursors [Renderer.mkReplicatedCursor "a1" None 5 3]
             (Renderer.create 32) in
  let c := Renderer.mkReplicatedCursor "b2" (Some "Bob") 8 7 in
  (Renderer.id c ∉ (Renderer.id <$> Renderer.cursors g))
  /\ Renderer.cursors
       (Renderer.removeReplicatedCursor "b2" (Renderer.upsertReplicatedCursor c g))
     = [Renderer.mkReplicatedCursor "a1" None 5 3].
Proof.
  intros g c.
  assert (H : Renderer.id c ∉ (Renderer.id <$> Renderer.cursors g)).
  { cbn. intros H%list_elem_of_singleton. discriminate H. }
  split; [exact H|].
  exact (proj2 (remove_undoes_upsert c g) H).
Defined.

(** ** The store along a run of the server *)

Section ServerRuns.

Import Server.

Implicit Types (s : State) (c : ClientState) (env : Env) (k r : nat) (i : string).

(** The stored cursor of an object lies in the grid. *)
Definition cursor_in_grid c : Prop :=
  match cursor c with
  | Some cur =>
      0 <= Protocol.col cur <= Protocol.cols GRID - 1
      /\ 0 <= Protocol.row cur <= Protocol.rows GRID - 1
  | None => True
  end.

(** The stored name of an object has 1 to 24 characters. *)
Definition name_in_bounds c : Prop :=
  match name c with
  | Some n => (1 <= String.length n <= 24)%nat
  | None => True
  end.

Lemma clamp_range (hi v : Z) : 0 <= hi -> 0 <= clamp hi v <= hi.
Proof. unfold clamp. lia. Qed.

Lemma clamp_inside (hi v : Z) : 0 <= v <= hi -> clamp hi v = v.
Proof. unfold clamp. lia. Qed.

(** What a message leaves in the sender's object. *)
Lemma on_message_object env now k buf s c :
  objs s !! k = Some c ->
  exists c', fst (on_message env now k buf s) = store k c' s
             /\ id c' = id c /\ ws c' = ws c /\ lastSeen c' = now
             /\ (cursor_in_grid c -> cursor_in_grid c')
             /\ (name_in_bounds c -> name_in_bounds c').
Proof.
  intros Hk. destruct (decode buf) as [[n|col row|t]|] eqn:Hd.
  - rewrite (on_message_hello env now k buf s c n Hk Hd). eexists.
    split; [reflexivity|]. repeat (split; [reflexivity|]).
    split; [intros H; exact H|]. intros _. unfold name_in_bounds.
    cbn [name set_name]. destruct buf as [|msg]; [discriminate|].
    rewrite (slice24_valid msg n Hd). destruct n as [n|]; [|exact I].
    exact (safeParse_hello_inv msg n Hd).
  - rewrite (on_message_cursor env now k buf s c col row Hk Hd). eexists.
    split; [reflexivity|]. repeat (split; [reflexivity|]).
    split; [|intros H; exact H]. intros _. unfold cursor_in_grid.
    cbn [cursor set_cursor Protocol.col Protocol.row].
    split; apply clamp_range; cbn; lia.
  - rewrite (on_message_ping env now k buf s c t Hk Hd). eexists.
    split; [reflexivity|]. repeat (split; [reflexivity|]).
    split; intros H; exact H.
  - rewrite (on_message_rejected env now k buf s c Hk Hd). eexists.
    split; [reflexivity|]. repeat (split; [reflexivity|]).
    split; intros H; exact H.
Qed.

(** A step keeps every object in its place, with its id and socket. *)
Lemma identity_step env now ev s k c :
  objs s !! k = Some c ->
  exists c', objs (fst (step env now ev s)) !! k = Some c'
             /\ id c' = id c /\ ws c' = ws c.
Proof.
  intros Hk. destruct ev as [sock nanoid|k' buf|k'|a]; cbn [step].
  - exists c. split; [cbn; apply lookup_app_l_Some, Hk | auto].
  - destruct (decide (k' = k)) as [->|Hne].
    + destruct (on_message_object env now k buf s c Hk) as (c' & -> & Hid & Hws & _).
      exists c'. split; [eapply lookup_store_eq, Hk | auto].
    + rewrite on_message_other by exact Hne. exists c. auto.
  - rewrite on_close_objs. exists c. auto.
  - exists c. auto.
Qed.

(** A step keeps the stored values of every object within their bounds. *)
Lemma bounds_step env now ev s :
  Forall (fun c => cursor_in_grid c /\ name_in_bounds c) (objs s) ->
  Forall (fun c => cursor_in_grid c /\ name_in_bounds c)
         (objs (fst (step env now ev s))).
Proof.
  intros Hall. destruct ev as [sock nanoid|k buf|k|a]; cbn [step].
  - cbn. apply Forall_app. split; [exact Hall|].
    constructor; [|constructor]. split; exact I.
  - destruct (objs s !! k) as [c|] eqn:Hk.
    + destruct (on_message_object env now k buf s c Hk)
        as (c' & -> & _ & _ & _ & Hcur & Hname).
      rewrite objs_store. apply Forall_insert; [exact Hall|].
      rewrite Forall_forall in Hall.
      destruct (Hall c (list_elem_of_lookup_2 _ _ _ Hk)) as [H1 H2].
      split; [apply Hcur, H1 | apply Hname, H2].
    + unfold on_message. rewrite Hk. exact Hall.
  - rewrite on_close_objs. exact Hall.
  - exact Hall.
Qed.

(** Keys enter the map through the connection event alone. *)
Lemma keys_step env now ev s i :
  i ∈ fst <$> clients (fst (step env now ev s)) ->
  i ∈ fst <$> clients s \/ exists sock, ev = Connection sock i.
Proof.
  destruct ev as [sock nanoid|k buf|k|a]; cbn [step].
  - cbn [on_connection fst clients].
    intros ([i' r] & -> & Hin)%list_elem_of_fmap. cbn [fst].
    assert (Hset : forall m, (i', r) ∈ map_set nanoid (length (objs s)) m ->
              (i', r) ∈ m \/ i' = nanoid).
    { induction m as [|[i2 r2] m IH]; cbn [map_set].
      - intros [= -> _]%list_elem_of_singleton. right. reflexivity.
      - destruct (String.eqb i2 nanoid).
        + intros [[= -> _]|H]%elem_of_cons; [right; reflexivity | left; right; exact H].
        + intros [H|H]%elem_of_cons; [left; rewrite H; left|].
          destruct (IH H) as [H'|H']; [left; right; exact H' | right; exact H']. }
    destruct (Hset _ Hin) as [H | ->].
    + left. apply list_elem_of_fmap. exists (i', r). split; [reflexivity | exact H].
    + right. exists sock. reflexivity.
  - destruct (objs s !! k) as [c|] eqn:Hk.
    + destruct (on_message_object env now k buf s c Hk) as (c' & -> & _).
      intros H. left. exact H.
    + unfold on_message. rewrite Hk. intros H. left. exact H.
  - unfold on_close. destruct (objs s !! k) as [c|]; [|intros H; left; exact H].
    cbn [fst clients]. intros ([i' r] & -> & [Hin _]%elem_of_map_delete)%list_elem_of_fmap.
    left. apply list_elem_of_fmap. exists (i', r). split; [reflexivity | exact Hin].
  - intros H. left. exact H.
Qed.

End ServerRuns.

(** X4.  In a keyed store, the close of a connection that is in the store
    deletes its entry and no other; the participants of a snapshot taken
    afterwards do not include its id; every game frame sent is the
    [playerLeave] of that id; the closed connection's socket gets none, and
    every other connection of the store whose socket is open gets it.  The
    store stays keyed. *)
Theorem close_removes_and_notifies (env : Server.Env) (k : nat)
    (s : Server.State) (c : Server.ClientState) :
  Server.wf s -> Server.objs s !! k = Some c ->
  (Server.id c, k) ∈ Server.clients s ->
  let s' := fst (Server.on_close env k s) in
  let sends := Server.game_sends (snd (Server.on_close env k s)) in
  (forall i r, (i, r) ∈ Server.clients s' <->
               (i, r) ∈ Server.clients s /\ i <> Server.id c)
  /\ (Server.id c ∉ (fst <$> Server.clients s'))
  /\ (Server.id c ∉ (Protocol.id <$> (Server.player_of <$> Server.values s')))
  /\ (forall w m, (w, m) ∈ sends -> m = Protocol.PlayerLeaveMsg (Server.id c))
  /\ (forall m, (Server.ws c, m) ∉ sends)
  /\ (forall k' c', (Server.id c', k') ∈ Server.clients s ->
        Server.objs s !! k' = Some c' -> k' <> k ->
        WebSocket.is_open (Server.game_ready env (Server.ws c')) = true ->
        (Server.ws c', Protocol.PlayerLeaveMsg (Server.id c)) ∈ sends)
  /\ Server.wf s'.
Proof.
  intros Hwf Hk Hin s' sends.
  assert (Hwf' : Server.wf s') by (apply wf_on_close, Hwf).
  assert (Hs' : Server.on_close env k s
                = (Server.mkState (Server.objs s)
                     (Server.map_delete (Server.id c) (Server.clients s))
                     (Server.admins s),
                   Server.broadcast env
                     (Server.mkState (Server.objs s)
                        (Server.map_delete (Server.id c) (Server.clients s))
                        (Server.admins s))
                     (Protocol.PlayerLeaveMsg (Server.id c)) None
                   ++ Server.adminBroadcast env
                        (Server.mkState (Server.objs s)
                           (Server.map_delete (Server.id c) (Server.clients s))
                           (Server.admins s)))).
  { unfold Server.on_close. rewrite Hk. reflexivity. }
  assert (Hent : forall i r, (i, r) ∈ Server.clients s' <->
                             (i, r) ∈ Server.clients s /\ i <> Server.id c).
  { intros i r. subst s'. rewrite Hs'. cbn [fst Server.clients].
    rewrite elem_of_map_delete. reflexivity. }
  assert (Hgone : Server.id c ∉ (fst <$> Server.clients s')).
  { intros ([i r] & Heq & [_ Hne]%Hent)%list_elem_of_fmap. cbn in Heq. congruence. }
  assert (Hsends : sends
            = Server.game_sends
                (Server.broadcast env s' (Protocol.PlayerLeaveMsg (Server.id c)) None)).
  { subst sends s'. rewrite Hs'. cbn [fst snd].
    rewrite game_sends_app, game_sends_adminBroadcast, app_nil_r. reflexivity. }
  assert (Hobjs : Server.objs s' = Server.objs s) by apply on_close_objs.
  destruct Hwf as [Hkeys Hrefs Hsocks].
  split; [exact Hent|]. split; [exact Hgone|]. split; [|split; [|split; [|split]]].
  - rewrite (snapshot_ids s' Hwf'). exact Hgone.
  - intros w m Hm. rewrite Hsends in Hm. apply elem_of_broadcast in Hm as [-> _].
    reflexivity.
  - intros m Hm. rewrite Hsends in Hm.
    apply elem_of_broadcast in Hm as (_ & i & r & x & [Hir Hne]%Hent & _ & Hx & _ & Hw).
    rewrite Hobjs in Hx.
    assert (r = k) by (eapply (Hsocks i r x (Server.id c) k c); eauto). subst r.
    destruct (Hrefs i k Hir) as (y & Hy & Hidy). congruence.
  - intros k' c' Hin' Hk' Hne Hopen. rewrite Hsends. apply elem_of_broadcast.
    split; [reflexivity|]. exists (Server.id c'), k', c'.
    split; [|rewrite Hobjs; auto].
    apply Hent. split; [exact Hin'|]. intros Heq. apply Hne.
    rewrite Heq in Hin'. exact (keyed_lookup _ _ _ _ Hkeys Hin' Hin).
  - exact Hwf'.
Qed.

(** Scenario 5 in the session of three: "a1" disconnects; "b2" is told,
    "c3", whose socket is not open, is not. *)
Lemma close_removes_and_notifies_witness :
  Server.on_close env3 0 three_clients
  = (Server.mkState
       [Server.mkClientState "a1" None None 1 0;
        Server.mkClientState "b2" None None 2 1;
        Server.mkClientState "c3" None None 3 2]
       [("b2", 1%nat); ("c3", 2%nat)] [],
     [Server.Send 1 (Protocol.PlayerLeaveMsg "a1")])
  /\ ("a1" ∉ (Protocol.id <$> (Server.player_of
                <$> Server.values (fst (Server.on_close env3 0 three_clients))))).
Proof.
  split; [reflexivity|].
  assert (Hin : ("a1", 0%nat) ∈ Server.clients three_clients)
    by (apply list_elem_of_In; left; reflexivity).
  exact (proj1 (proj2 (proj2 (close_removes_and_notifies env3 0 three_clients
           (Server.mkClientState "a1" None None 1 0)
           (reachable_wf _ three_clients_reachable) eq_refl Hin)))).
Defined.

(** X5.  An id that is not a key of the map stays out of it along every
    run in which no connection event brings it: a participant that left is
    in no later map unless [nanoid] returns its id again. *)
Theorem id_enters_only_by_connection (evs : list (Server.Env * Z * Server.Event))
    (s : Server.State) (i : string) :
  i ∉ (fst <$> Server.clients s) ->
  (forall env now sock, (env, now, Server.Connection sock i) ∉ evs) ->
  i ∉ (fst <$> Server.clients (fst (Server.run evs s))).
Proof.
  revert s. induction evs as [|[[env now] ev] rest IH]; intros s Hi Hev.
  - exact Hi.
  - rewrite run_cons. cbn [fst]. apply IH.
    + intros [H|[sock ->]]%keys_step; [exact (Hi H)|].
      apply (Hev env now sock). left.
    + intros env' now' sock H. apply (Hev env' now' sock). right. exact H.
Qed.

(** "a1" leaves the session of three, then "b2" moves and "d4" joins. *)
Lemma id_enters_only_by_connection_witness :
  let s := fst (Server.on_close env3 0 three_clients) in
  let evs := [(env3, 5, Server.Message 1 cursor_5_3);
              (env3, 6, Server.Connection 3 "d4")] in
  ("a1" ∉ (fst <$> Server.clients s))
  /\ Server.clients (fst (Server.run evs s))
     = [("b2", 1%nat); ("c3", 2%nat); ("d4", 3%nat)]
  /\ ("a1" ∉ (fst <$> Server.clients (fst (Server.run evs s)))).
Proof.
  intros s evs.
  assert (H0 : "a1" ∉ (fst <$> Server.clients s)).
  { cbn. rewrite !not_elem_of_cons. repeat split; try discriminate.
    apply not_elem_of_nil. }
  split; [exact H0|]. split; [reflexivity|].
  apply (id_enters_only_by_connection evs s "a1" H0).
  intros env now sock Hin. unfold evs in Hin. rewrite !elem_of_cons in Hin.
  destruct Hin as [Hin|[Hin|Hin%elem_of_nil]];
    [discriminate Hin | discriminate Hin | destruct Hin].
Defined.

Lemma reachable_values_in_bounds_aux (s : Server.State) :
  Server.reachable s ->
  forall c, c ∈ Server.objs s -> cursor_in_grid c /\ name_in_bounds c.
Proof.
  intros Hreach. apply Forall_forall.
  induction Hreach as [|env now ev s Hreach IH Hadm]; [constructor|].
  apply bounds_step, IH.
Qed.

(** X6.  In every state the server reaches, each stored cursor lies in
    [0, 39] x [0, 23] and each stored name has 1 to 24 characters. *)
Theorem reachable_values_in_bounds (s : Server.State) (c : Server.ClientState) :
  Server.reachable s -> c ∈ Server.objs s ->
  cursor_in_grid c /\ name_in_bounds c.
Proof. intros Hreach. apply reachable_values_in_bounds_aux, Hreach. Qed.

(** In the session of three after a report of (999, 999) from "a1". *)
Lemma reachable_values_in_bounds_witness :
  let frame := Protocol.Json (Protocol.JObj
                 [("kind", Protocol.JStr "cursor");
                  ("col", Protocol.JNum 999); ("row", Protocol.JNum 999)]) in
  let s := fst (Server.step env3 7 (Server.Message 0 frame) three_clients) in
  let c := Server.mkClientState "a1" None (Some (Protocol.mkCursor 39 23)) 7 0 in
  Server.objs s !! 0%nat = Some c /\ cursor_in_grid c /\ name_in_bounds c.
Proof.
  intros frame s c. split; [reflexivity|].
  apply (reachable_values_in_bounds s c).
  - apply Server.reach_step; [exact three_clients_reachable|].
    eexists. split; [reflexivity|]. apply list_elem_of_In. left. reflexivity.
  - apply list_elem_of_In. left. reflexivity.
Defined.

(** X7.  Along every run an object stays at its place in the store with
    the id and the socket it was created with: the identity of a connection
    never changes, whatever it and the others send. *)
Theorem identity_is_stable (evs : list (Server.Env * Z * Server.Event))
    (s : Server.State) (k : nat) (c : Server.ClientState) :
  Server.objs s !! k = Some c ->
  exists c', Server.objs (fst (Server.run evs s)) !! k = Some c'
             /\ Server.id c' = Server.id c /\ Server.ws c' = Server.ws c.
Proof.
  revert s c. induction evs as [|[[env now] ev] rest IH]; intros s c Hk.
  - exists c. auto.
  - rewrite run_cons. cbn [fst].
    destruct (identity_step env now ev s k c Hk) as (c1 & Hc1 & Hid1 & Hws1).
    destruct (IH _ c1 Hc1) as (c2 & Hc2 & Hid2 & Hws2).
    exists c2. split; [exact Hc2|]. split; congruence.
Qed.

(** "a1" introduces itself, moves and is closed. *)
Lemma identity_is_stable_witness :
  let evs := [(env3, 5, Server.Message 0 hello_Ann);
              (env3, 6, Server.Message 0 cursor_5_3);
              (env3, 7, Server.Close 0)] in
  exists c', Server.objs (fst (Server.run evs three_clients)) !! 0%nat = Some c'
             /\ Server.id c' = "a1" /\ Server.ws c' = 0%nat.
Proof.
  intros evs.
  exact (identity_is_stable evs three_clients 0
           (Server.mkClientState "a1" None None 1 0) eq_refl).
Defined.

(** ** The admin channel *)

Section AdminChannel.

Import Server.

Implicit Types (s : State) (c : ClientState) (env : Env) (k r : nat) (i : string).

(** The frames of the admin channel among the outputs, with their sockets. *)
Definition admin_sends (out : list Output) : list (nat * Snapshot) :=
  omap (fun o => match o with
                 | AdminSend a snap => Some (a, snap)
                 | Send _ _ => None
                 end) out.

(** The snapshot [adminBroadcast] builds in a state. *)
Definition snapshot_of s : Snapshot :=
  {| count := length (clients s); grid := GRID;
     players := player_of <$> values s |}.

(** The events whose handler reaches a call of [adminBroadcast()]. *)
Definition pushes (ev : Event) s : bool :=
  match ev with
  | Connection _ _ => true
  | Message k buf =>
      match objs s !! k, decode buf with
      | Some _, Some (Protocol.HelloMsg _) => true
      | Some _, Some (Protocol.CursorMsg _ _) => true
      | _, _ => false
      end
  | Close k => match objs s !! k with Some _ => true | None => false end
  | AdminConnection _ => true
  end.

Lemma admin_sends_app (a b : list Output) :
  admin_sends (a ++ b) = admin_sends a ++ admin_sends b.
Proof. unfold admin_sends. apply omap_app. Qed.

Lemma admin_sends_broadcast env s msg e : admin_sends (broadcast env s msg e) = [].
Proof.
  unfold broadcast. induction (clients s) as [|[i r] l IH]; [reflexivity|].
  cbn [flat_map fst snd]. rewrite admin_sends_app, IH, app_nil_r.
  destruct (same_id i e); [reflexivity|].
  destruct (objs s !! r) as [c|]; [|reflexivity].
  destruct (WebSocket.is_open (game_ready env (ws c))); reflexivity.
Qed.

Lemma admin_sends_adminBroadcast env s :
  admin_sends (adminBroadcast env s)
  = (fun a => (a, snapshot_of s))
      <$> List.filter (fun a => WebSocket.is_open (admin_ready env a)) (admins s).
Proof.
  unfold adminBroadcast. fold (snapshot_of s).
  induction (admins s) as [|a l IH]; [reflexivity|].
  cbn [flat_map List.filter]. rewrite admin_sends_app, IH.
  destruct (WebSocket.is_open (admin_ready env a)); reflexivity.
Qed.

(** The game frames of a broadcast depend on the objects, the map and the
    ready states of the game sockets alone. *)
Lemma game_sends_broadcast_ext env env' s s' msg e :
  objs s = objs s' -> clients s = clients s' ->
  (forall w, game_ready env w = game_ready env' w) ->
  game_sends (broadcast env s msg e) = game_sends (broadcast env' s' msg e).
Proof.
  intros Ho Hc Hr. unfold broadcast. rewrite <- Ho, <- Hc. clear Hc.
  induction (clients s) as [|[i r] l IH]; [reflexivity|].
  cbn [flat_map fst snd]. rewrite !game_sends_app, IH. f_equal.
  destruct (same_id i e); [reflexivity|].
  destruct (objs s !! r) as [c|]; [|reflexivity].
  rewrite Hr. reflexivity.
Qed.

End AdminChannel.

(** X8.  In every state the server reaches the store is keyed: the ids of
    the map are distinct, each is bound to an object that carries it, and no
    two bound objects share a socket.  Hence a snapshot lists exactly one
    participant per key, in the order of the keys, and the [count] of the
    admin snapshot is the number of players it lists. *)
Theorem reachable_store_is_keyed (s : Server.State) :
  Server.reachable s ->
  NoDup (fst <$> Server.clients s)
  /\ (forall i r, (i, r) ∈ Server.clients s ->
        exists c, Server.objs s !! r = Some c /\ Server.id c = i)
  /\ (forall i r c i' r' c',
        (i, r) ∈ Server.clients s -> Server.objs s !! r = Some c ->
        (i', r') ∈ Server.clients s -> Server.objs s !! r' = Some c' ->
        Server.ws c = Server.ws c' -> r = r')
  /\ Protocol.id <$> Server.players (snapshot_of s) = fst <$> Server.clients s
  /\ Server.count (snapshot_of s) = length (Server.players (snapshot_of s)).
Proof.
  intros Hreach. pose proof (reachable_wf s Hreach) as Hwf.
  pose proof (snapshot_ids s Hwf) as Hids.
  destruct Hwf as [Hkeys Hrefs Hsocks].
  split; [exact Hkeys|]. split; [exact Hrefs|]. split; [exact Hsocks|].
  split; [exact Hids|].
  cbn [Server.count Server.players snapshot_of].
  rewrite <- (length_fmap fst (Server.clients s)), <- Hids, !length_fmap.
  reflexivity.
Qed.

(** The session of three. *)
Lemma reachable_store_is_keyed_witness :
  NoDup (fst <$> Server.clients three_clients)
  /\ Server.count (snapshot_of three_clients) = 3%nat.
Proof.
  destruct (reachable_store_is_keyed three_clients three_clients_reachable)
    as (H1 & _ & _ & _ & H5).
  split; [exact H1 | exact H5].
Defined.

(** X9.  The admin frames of a step are these: when the handler reaches
    [adminBroadcast()] (a connection, a hello, a cursor message, a close,
    an admin connection), one snapshot of the new state to each admin
    observer whose socket is open, in the order of the observers; otherwise
    (a ping, a rejected frame) none, although [lastSeen] has changed. *)
Theorem admin_push_on_state_change (env : Server.Env) (now : Z)
    (ev : Server.Event) (s : Server.State) :
  admin_sends (snd (Server.step env now ev s))
  = if pushes ev s
    then (fun a => (a, snapshot_of (fst (Server.step env now ev s))))
           <$> List.filter (fun a => WebSocket.is_open (Server.admin_ready env a))
                 (Server.admins (fst (Server.step env now ev s)))
    else [].
Proof.
  destruct ev as [sock nanoid|k buf|k|a]; cbn [Server.step pushes].
  - unfold Server.on_connection. cbn [fst snd].
    change (?x :: ?y :: ?l) with ([x; y] ++ l).
    rewrite admin_sends_app. cbn [admin_sends omap list_omap app].
    apply admin_sends_adminBroadcast.
  - destruct (Server.objs s !! k) as [c|] eqn:Hk.
    + destruct (Server.decode buf) as [[n|col row|t]|] eqn:Hd.
      * rewrite (on_message_hello env now k buf s c n Hk Hd). cbn [fst snd].
        rewrite admin_sends_app, admin_sends_broadcast.
        apply admin_sends_adminBroadcast.
      * rewrite (on_message_cursor env now k buf s c col row Hk Hd). cbn [fst snd].
        rewrite admin_sends_app, admin_sends_broadcast.
        apply admin_sends_adminBroadcast.
      * rewrite (on_message_ping env now k buf s c t Hk Hd). reflexivity.
      * rewrite (on_message_rejected env now k buf s c Hk Hd). reflexivity.
    + unfold Server.on_message. rewrite Hk. reflexivity.
  - unfold Server.on_close. destruct (Server.objs s !! k) as [c|]; [|reflexivity].
    cbn [fst snd]. rewrite admin_sends_app, admin_sends_broadcast.
    apply admin_sends_adminBroadcast.
  - unfold Server.on_admin_connection. cbn [fst snd].
    apply admin_sends_adminBroadcast.
Qed.

(** X10.  The admin observers are read-only: two servers with the same
    objects and map, and game sockets in the same ready states, end a step
    with the same objects and map and send the same game frames, whatever
    observers each has and whatever state those are in; and the connection
    of an observer changes neither objects nor map and sends no game frame. *)
Theorem admin_observers_do_not_interfere (env env' : Server.Env) (now : Z)
    (ev : Server.Event) (s s' : Server.State) :
  Server.objs s = Server.objs s' -> Server.clients s = Server.clients s' ->
  (forall w, Server.game_ready env w = Server.game_ready env' w) ->
  Server.objs (fst (Server.step env now ev s))
  = Server.objs (fst (Server.step env' now ev s'))
  /\ Server.clients (fst (Server.step env now ev s))
     = Server.clients (fst (Server.step env' now ev s'))
  /\ Server.game_sends (snd (Server.step env now ev s))
     = Server.game_sends (snd (Server.step env' now ev s'))
  /\ (forall a, Server.objs (fst (Server.step env now (Server.AdminConnection a) s))
                = Server.objs s
                /\ Server.clients (fst (Server.step env now (Server.AdminConnection a) s))
                   = Server.clients s
                /\ Server.game_sends
                     (snd (Server.step env now (Server.AdminConnection a) s)) = []).
Proof.
  intros Ho Hc Hr.
  assert (Hadm : forall a,
            Server.objs (fst (Server.step env now (Server.AdminConnection a) s))
            = Server.objs s
            /\ Server.clients (fst (Server.step env now (Server.AdminConnection a) s))
               = Server.clients s
            /\ Server.game_sends
                 (snd (Server.step env now (Server.AdminConnection a) s)) = []).
  { intros a. cbn [Server.step Server.on_admin_connection fst snd Server.objs
                   Server.clients].
    split; [reflexivity|]. split; [reflexivity|]. apply game_sends_adminBroadcast. }
  assert (Hstore : forall k c,
            Server.objs (Server.store k c s) = Server.objs (Server.store k c s')
            /\ Server.clients (Server.store k c s)
               = Server.clients (Server.store k c s')).
  { intros k c. cbn. rewrite Ho, Hc. split; reflexivity. }
  match goal with
  | |- ?A /\ ?B /\ ?C /\ _ =>
      cut (A /\ B /\ C);
      [intros (H1 & H2 & H3); exact (conj H1 (conj H2 (conj H3 Hadm)))|]
  end.
  clear Hadm.
  destruct ev as [sock nanoid|k buf|k|a]; cbn [Server.step].
  - unfold Server.on_connection. cbn [fst snd Server.objs Server.clients].
    rewrite Ho, Hc. split; [reflexivity|]. split; [reflexivity|].
    change (?x :: ?y :: ?l) with ([x; y] ++ l).
    rewrite !game_sends_app, !game_sends_adminBroadcast.
    unfold Server.values. cbn [Server.objs Server.clients]. reflexivity.
  - destruct (Server.objs s !! k) as [c|] eqn:Hk.
    + assert (Hk' : Server.objs s' !! k = Some c) by (rewrite <- Ho; exact Hk).
      destruct (Server.decode buf) as [[n|col row|t]|] eqn:Hd.
      * rewrite (on_message_hello env now k buf s c n Hk Hd).
        rewrite (on_message_hello env' now k buf s' c n Hk' Hd).
        cbv zeta. cbn [fst snd].
        destruct (Hstore k (Server.set_name (Server.slice24 n)
                              (Server.set_lastSeen now c))) as [H1 H2].
        split; [exact H1|]. split; [exact H2|].
        rewrite !game_sends_app, !game_sends_adminBroadcast.
        f_equal. apply game_sends_broadcast_ext; assumption.
      * rewrite (on_message_cursor env now k buf s c col row Hk Hd).
        rewrite (on_message_cursor env' now k buf s' c col row Hk' Hd).
        cbv zeta. cbn [fst snd].
        match goal with
        | |- Server.objs (Server.store k ?x s) = _ /\ _ =>
            destruct (Hstore k x) as [H1 H2]
        end.
        split; [exact H1|]. split; [exact H2|].
        rewrite !game_sends_app, !game_sends_adminBroadcast.
        f_equal. apply game_sends_broadcast_ext; assumption.
      * rewrite (on_message_ping env now k buf s c t Hk Hd).
        rewrite (on_message_ping env' now k buf s' c t Hk' Hd). cbn [fst snd].
        destruct (Hstore k (Server.set_lastSeen now c)) as [H1 H2].
        split; [exact H1|]. split; [exact H2|]. reflexivity.
      * rewrite (on_message_rejected env now k buf s c Hk Hd).
        rewrite (on_message_rejected env' now k buf s' c Hk' Hd). cbn [fst snd].
        destruct (Hstore k (Server.set_lastSeen now c)) as [H1 H2].
        split; [exact H1|]. split; [exact H2|]. reflexivity.
    + assert (Hk' : Server.objs s' !! k = None) by (rewrite <- Ho; exact Hk).
      unfold Server.on_message. rewrite Hk, Hk'. cbn [fst snd].
      split; [exact Ho|]. split; [exact Hc|]. reflexivity.
  - unfold Server.on_close. rewrite <- Ho.
    destruct (Server.objs s !! k) as [c|] eqn:Hk; cbn [fst snd Server.objs Server.clients].
    + rewrite <- Hc. split; [reflexivity|]. split; [reflexivity|].
      rewrite !game_sends_app, !game_sends_adminBroadcast.
      f_equal. apply game_sends_broadcast_ext; [reflexivity | | exact Hr].
      cbn. reflexivity.
    + split; [exact Ho|]. split; [exact Hc|]. reflexivity.
  - cbn [Server.on_admin_connection fst snd Server.objs Server.clients].
    split; [exact Ho|]. split; [exact Hc|].
    rewrite !game_sends_adminBroadcast. reflexivity.
Qed.

(** The session of three with two observers, one of them not open, against
    the session without observers: the cursor of "a1" reaches "b2" alike. *)
Lemma admin_observers_do_not_interfere_witness :
  let env := Server.mkEnv (Server.game_ready env3)
               (fun a => if Nat.eqb a 8 then WebSocket.CLOSING else WebSocket.OPEN) in
  let s := Server.mkState (Server.objs three_clients)
             (Server.clients three_clients) [7%nat; 8%nat] in
  Server.game_sends (snd (Server.step env 9 (Server.Message 0 cursor_5_3) s))
  = Server.game_sends
      (snd (Server.step env3 9 (Server.Message 0 cursor_5_3) three_clients)).
Proof.
  intros env s.
  exact (proj1 (proj2 (proj2 (admin_observers_do_not_interfere env env3 9
           (Server.Message 0 cursor_5_3) s three_clients
           eq_refl eq_refl (fun w => eq_refl))))).
Defined.

(** X11.  Outside the accept, a game frame goes only to the socket of an
    entry of the map, and only when that socket is open: a send to a socket
    that is not open is skipped. *)
Theorem broadcast_reaches_open_sockets_only (env : Server.Env) (now : Z)
    (ev : Server.Event) (s : Server.State) (w : nat)
    (m : Protocol.ServerToClient) :
  (forall sock nanoid, ev <> Server.Connection sock nanoid) ->
  (w, m) ∈ Server.game_sends (snd (Server.step env now ev s)) ->
  WebSocket.is_open (Server.game_ready env w) = true
  /\ exists i r c,
      (i, r) ∈ Server.clients (fst (Server.step env now ev s))
      /\ Server.objs (fst (Server.step env now ev s)) !! r = Some c
      /\ Server.ws c = w.
Proof.
  intros Hev.
  assert (Hb : forall s0 msg e,
            (w, m) ∈ Server.game_sends
                       (Server.broadcast env s0 msg e ++ Server.adminBroadcast env s0) ->
            WebSocket.is_open (Server.game_ready env w) = true
            /\ exists i r c, (i, r) ∈ Server.clients s0
                             /\ Server.objs s0 !! r = Some c /\ Server.ws c = w).
  { intros s0 msg e. rewrite game_sends_app, game_sends_adminBroadcast, app_nil_r.
    intros (_ & i & r & c & Hin & _ & Hc & Hopen & ->)%elem_of_broadcast.
    split; [exact Hopen|]. exists i, r, c. auto. }
  destruct ev as [sock nanoid|k buf|k|a]; cbn [Server.step].
  - exfalso. exact (Hev sock nanoid eq_refl).
  - destruct (Server.objs s !! k) as [c|] eqn:Hk.
    + destruct (Server.decode buf) as [[n|col row|t]|] eqn:Hd.
      * rewrite (on_message_hello env now k buf s c n Hk Hd). cbn [fst snd].
        apply Hb.
      * rewrite (on_message_cursor env now k buf s c col row Hk Hd). cbn [fst snd].
        apply Hb.
      * rewrite (on_message_ping env now k buf s c t Hk Hd).
        intros H%elem_of_nil. destruct H.
      * rewrite (on_message_rejected env now k buf s c Hk Hd).
        intros H%elem_of_nil. destruct H.
    + unfold Server.on_message. rewrite Hk. intros H%elem_of_nil. destruct H.
  - unfold Server.on_close. destruct (Server.objs s !! k) as [c|];
      [|intros H%elem_of_nil; destruct H].
    cbn [fst snd]. apply Hb.
  - unfold Server.on_admin_connection. cbn [fst snd].
    rewrite game_sends_adminBroadcast. intros H%elem_of_nil. destruct H.
Qed.

(** The hello of "a1" in the session of three reaches socket 1, which is
    open, and not socket 2. *)
Lemma broadcast_reaches_open_sockets_only_witness :
  (1%nat, Protocol.PlayerUpdateMsg (Protocol.mkPlayer "a1" (Some "Ann") None 9))
    ∈ Server.game_sends
        (snd (Server.step env3 9 (Server.Message 0 hello_Ann) three_clients))
  /\ WebSocket.is_open (Server.game_ready env3 1) = true.
Proof.
  assert (Hin : (1%nat, Protocol.PlayerUpdateMsg
                          (Protocol.mkPlayer "a1" (Some "Ann") None 9))
                ∈ Server.game_sends
                    (snd (Server.step env3 9 (Server.Message 0 hello_Ann)
                            three_clients))).
  { apply list_elem_of_In. right. left. reflexivity. }
  split; [exact Hin|].
  refine (proj1 (broadcast_reaches_open_sockets_only env3 9
            (Server.Message 0 hello_Ann) three_clients 1 _ _ Hin)).
  intros sock nanoid H. discriminate H.
Defined.

(** ** The frames on the wire *)

Section WireFacts.

Import Protocol Wire.

Lemma z_int_num (n : Z) : z_int (Some (num n)) = Some n.
Proof. apply z_int_of_Z. reflexivity. Qed.

Lemma z_int_nonnegative_num (n : Z) :
  z_int_nonnegative (Some (num n)) = if 0 <=? n then Some n else None.
Proof. unfold z_int_nonnegative. rewrite z_int_num. reflexivity. Qed.

Lemma z_int_positive_num (n : Z) :
  z_int_positive (Some (num n)) = if 0 <? n then Some n else None.
Proof. unfold z_int_positive. rewrite z_int_num. reflexivity. Qed.

Lemma z_cursor_optional_json (c : option Cursor) :
  z_cursor_optional (cursor_json <$> c)
  = match c with
    | Some cur =>
        if (0 <=? col cur) && (0 <=? row cur) then Some c else None
    | None => Some None
    end.
Proof.
  destruct c as [[c r]|]; [|reflexivity].
  cbn [fmap option_fmap option_map cursor_json z_cursor_optional col row].
  cbn [prop String.eqb Ascii.eqb Bool.eqb andb].
  rewrite !z_int_nonnegative_num.
  destruct (0 <=? c); [|reflexivity]. destruct (0 <=? r); reflexivity.
Qed.

(** A player object passes the schema exactly when its cursor, if any, has
    no negative coordinate, and then parses to the player itself. *)
Lemma player_parse_json (p : Player) :
  player_parse (Some (player_json p)) = if player_ok p then Some p else None.
Proof.
  destruct p as [i n c t]. unfold player_json, player_ok, player_parse.
  cbn [id name cursor lastSeen].
  assert (Hid : forall rest, prop "id" ([("id", JStr i)] ++ rest) = Some (JStr i))
    by reflexivity.
  rewrite Hid. cbn [z_string].
  assert (Hcur : prop "cursor"
                   ([("id", JStr i)] ++ field "name" JStr n
                      ++ field "cursor" cursor_json c ++ [("lastSeen", num t)])
                 = cursor_json <$> c).
  { destruct n, c; reflexivity. }
  assert (Hname : prop "name"
                    ([("id", JStr i)] ++ field "name" JStr n
                       ++ field "cursor" cursor_json c ++ [("lastSeen", num t)])
                  = JStr <$> n).
  { destruct n, c; reflexivity. }
  assert (Hseen : prop "lastSeen"
                    ([("id", JStr i)] ++ field "name" JStr n
                       ++ field "cursor" cursor_json c ++ [("lastSeen", num t)])
                  = Some (num t)).
  { destruct n, c; reflexivity. }
  rewrite Hname, Hcur, Hseen, z_int_num, z_cursor_optional_json.
  destruct n as [n|]; cbn [fmap option_fmap option_map z_string_optional];
    destruct c as [cur|]; try reflexivity;
    destruct ((0 <=? col cur) && (0 <=? row cur)); reflexivity.
Qed.

Lemma players_parse_json (ps : list Player) :
  mapM (fun v => player_parse (Some v)) (player_json <$> ps)
  = if forallb player_ok ps then Some ps else None.
Proof.
  induction ps as [|p ps IH]; [reflexivity|].
  cbn [fmap list_fmap mapM forallb]. rewrite player_parse_json.
  destruct (player_ok p); [|reflexivity]. cbn [mbind option_bind andb].
  change (list_fmap _ _ player_json ps) with (player_json <$> ps).
  rewrite IH. destruct (forallb player_ok ps); reflexivity.
Qed.

Lemma grid_parse_json (g : Grid) :
  grid_parse (Some (grid_json g))
  = if (0 <? tileSize g) && (0 <? cols g) && (0 <? rows g) then Some g else None.
Proof.
  destruct g as [t c r]. unfold grid_json, grid_parse. cbn [tileSize cols rows].
  cbn [prop String.eqb Ascii.eqb Bool.eqb andb].
  rewrite !z_int_positive_num.
  destruct (0 <? t); [|reflexivity]. destruct (0 <? c); [|reflexivity].
  destruct (0 <? r); reflexivity.
Qed.

Lemma safeParse_server_json (m : ServerToClient) :
  ServerToClient_safeParse (server_json m) = if frame_ok m then Some m else None.
Proof.
  destruct m as [i g|ps|p|i]; unfold server_json, ServerToClient_safeParse;
    cbn [prop String.eqb Ascii.eqb Bool.eqb andb frame_ok].
  - unfold WelcomeMsg_parse. cbn [prop String.eqb Ascii.eqb Bool.eqb andb z_string].
    rewrite grid_parse_json.
    destruct ((0 <? tileSize g) && (0 <? cols g) && (0 <? rows g)); reflexivity.
  - unfold PlayersSnapshotMsg_parse. cbn [prop String.eqb Ascii.eqb Bool.eqb andb].
    rewrite players_parse_json. destruct (forallb player_ok ps); reflexivity.
  - unfold PlayerUpdateMsg_parse. cbn [prop String.eqb Ascii.eqb Bool.eqb andb].
    rewrite player_parse_json. destruct (player_ok p); reflexivity.
  - reflexivity.
Qed.

(** A property beside those a schema names does not change what the
    schema reads. *)
Lemma prop_skip (key k : string) (v : json) (o1 o2 : list (string * json)) :
  k <> key -> prop key (o1 ++ (k, v) :: o2) = prop key (o1 ++ o2).
Proof.
  intros Hne. induction o1 as [|[k1 v1] o1 IH]; cbn [app prop].
  - apply String.eqb_neq in Hne. rewrite Hne. reflexivity.
  - destruct (String.eqb k1 key); [reflexivity | exact IH].
Qed.

End WireFacts.

Section ServerFrames.

Import Server.

(** The game frames a step can send. *)
Lemma step_frames env now ev (s : State) w m :
  (w, m) ∈ game_sends (snd (step env now ev s)) ->
  (exists i, m = Protocol.WelcomeMsg i GRID)
  \/ m = Protocol.PlayersSnapshotMsg (player_of <$> values (fst (step env now ev s)))
  \/ (exists c, c ∈ objs (fst (step env now ev s))
                /\ m = Protocol.PlayerUpdateMsg (player_of c))
  \/ exists i, m = Protocol.PlayerLeaveMsg i.
Proof.
  destruct ev as [sock nanoid|k buf|k|a]; cbn [step].
  - unfold on_connection. cbn [fst snd].
    change (?x :: ?y :: ?l) with ([x; y] ++ l).
    rewrite !game_sends_app, game_sends_adminBroadcast, !app_nil_r.
    unfold game_sends. cbn [omap list_omap]. rewrite !elem_of_cons.
    intros [[= _ ->]|[[= _ ->]|H%elem_of_nil]]; [| |destruct H].
    + left. exists nanoid. reflexivity.
    + right. left. reflexivity.
  - destruct (objs s !! k) as [c|] eqn:Hk.
    + destruct (decode buf) as [[n|col row|t]|] eqn:Hd.
      * rewrite (on_message_hello env now k buf s c n Hk Hd). cbn [fst snd].
        rewrite game_sends_app, game_sends_adminBroadcast, app_nil_r.
        intros [-> _]%elem_of_broadcast. right. right. left. eexists.
        split; [|reflexivity].
        eapply list_elem_of_lookup_2, lookup_store_eq, Hk.
      * rewrite (on_message_cursor env now k buf s c col row Hk Hd). cbn [fst snd].
        rewrite game_sends_app, game_sends_adminBroadcast, app_nil_r.
        intros [-> _]%elem_of_broadcast. right. right. left. eexists.
        split; [|reflexivity].
        eapply list_elem_of_lookup_2, lookup_store_eq, Hk.
      * rewrite (on_message_ping env now k buf s c t Hk Hd).
        intros H%elem_of_nil. destruct H.
      * rewrite (on_message_rejected env now k buf s c Hk Hd).
        intros H%elem_of_nil. destruct H.
    + unfold on_message. rewrite Hk. intros H%elem_of_nil. destruct H.
  - unfold on_close. destruct (objs s !! k) as [c|];
      [|intros H%elem_of_nil; destruct H].
    cbn [fst snd]. rewrite game_sends_app, game_sends_adminBroadcast, app_nil_r.
    intros [-> _]%elem_of_broadcast. right. right. right. eexists. reflexivity.
  - unfold on_admin_connection. cbn [fst snd]. rewrite game_sends_adminBroadcast.
    intros H%elem_of_nil. destruct H.
Qed.

Lemma player_ok_in_grid c : cursor_in_grid c -> Wire.player_ok (player_of c) = true.
Proof.
  unfold cursor_in_grid, Wire.player_ok. cbn [player_of Protocol.cursor].
  destruct (cursor c) as [cur|]; [|reflexivity].
  intros [[H1 _] [H2 _]]. apply andb_true_iff. split; apply Z.leb_le; assumption.
Qed.

Lemma values_objs (s : State) c : c ∈ values s -> c ∈ objs s.
Proof.
  unfold values. intros ([i r] & _ & H)%list_elem_of_omap.
  eapply list_elem_of_lookup_2, H.
Qed.

End ServerFrames.

(** X12.  The client's validator, read on what the server's
    [JSON.stringify] wrote: a frame whose cursors have no negative
    coordinate and whose grid is positive parses to the frame itself and is
    dispatched to its handler; any other frame is dropped and leaves the
    application as it was. *)
Theorem server_frame_round_trip (m : Protocol.ServerToClient) (a : App.App) :
  Wire.ServerToClient_safeParse (Wire.server_json m)
  = (if Wire.frame_ok m then Some m else None)
  /\ Wire.onmessage (Protocol.Json (Wire.server_json m)) a
     = (if Wire.frame_ok m then App.dispatch m a else a)
  /\ Wire.onmessage Protocol.BadJSON a = a.
Proof.
  split; [apply safeParse_server_json|]. split; [|reflexivity].
  unfold Wire.onmessage. rewrite safeParse_server_json.
  destruct (Wire.frame_ok m); reflexivity.
Qed.

(** X13.  Every game frame the server sends from a state it can reach
    passes the client's validation and parses to itself: the welcome
    carries the positive grid, and the cursors of snapshots and updates are
    stored cursors, which are never negative. *)
Theorem server_frames_pass_client_validation (env : Server.Env) (now : Z)
    (ev : Server.Event) (s : Server.State) (w : nat)
    (m : Protocol.ServerToClient) :
  Server.reachable s ->
  (w, m) ∈ Server.game_sends (snd (Server.step env now ev s)) ->
  Wire.ServerToClient_safeParse (Wire.server_json m) = Some m.
Proof.
  intros Hreach Hin.
  assert (Hall : Forall (fun c => cursor_in_grid c /\ name_in_bounds c)
                   (Server.objs (fst (Server.step env now ev s)))).
  { apply bounds_step, Forall_forall. intros c Hc.
    exact (reachable_values_in_bounds_aux s Hreach c Hc). }
  rewrite Forall_forall in Hall.
  rewrite safeParse_server_json.
  assert (Hok : Wire.frame_ok m = true); [|rewrite Hok; reflexivity].
  destruct (step_frames env now ev s w m Hin)
    as [[i ->]|[->|[(c & Hc & ->)|[i ->]]]].
  - reflexivity.
  - cbn [Wire.frame_ok]. apply forallb_forall. intros p Hp.
    apply list_elem_of_In, list_elem_of_fmap in Hp as (c & -> & Hc).
    apply player_ok_in_grid, Hall, values_objs, Hc.
  - cbn [Wire.frame_ok]. apply player_ok_in_grid, Hall, Hc.
  - reflexivity.
Qed.

(** The update about "a1" that "b2" receives in the session of three. *)
Lemma server_frames_pass_client_validation_witness :
  let m := Protocol.PlayerUpdateMsg
             (Protocol.mkPlayer "a1" None (Some (Protocol.mkCursor 5 3)) 9) in
  (1%nat, m) ∈ Server.game_sends
                 (snd (Server.step env3 9 (Server.Message 0 cursor_5_3) three_clients))
  /\ Wire.ServerToClient_safeParse (Wire.server_json m) = Some m.
Proof.
  intros m.
  assert (Hin : (1%nat, m) ∈ Server.game_sends
                  (snd (Server.step env3 9 (Server.Message 0 cursor_5_3)
                          three_clients))).
  { apply list_elem_of_In. left. reflexivity. }
  split; [exact Hin|].
  exact (server_frames_pass_client_validation env3 9 (Server.Message 0 cursor_5_3)
           three_clients 1 m three_clients_reachable Hin).
Defined.

(** X14.  The server's validator, read on what the client's
    [JSON.stringify] wrote.  A cursor frame is accepted exactly when neither
    coordinate is negative.  A hello is accepted when it has no name or a
    name of 1 to 24 characters; with a longer name the whole hello is
    rejected, so that the handler only refreshes [lastSeen]: the name is not
    cut to 24 characters and no update is sent. *)
Theorem client_frames_on_the_server :
  (forall c r,
      Server.decode (Protocol.Json (Wire.cursor_msg_json c r))
      = if (0 <=? c) && (0 <=? r) then Some (Protocol.CursorMsg c r) else None)
  /\ Server.decode (Protocol.Json (Wire.hello_json None))
     = Some (Protocol.HelloMsg None)
  /\ (forall n,
      Server.decode (Protocol.Json (Wire.hello_json (Some n)))
      = if ((1 <=? String.length n) && (String.length n <=? 24))%nat
        then Some (Protocol.HelloMsg (Some n)) else None)
  /\ (forall env now k s c n,
      Server.objs s !! k = Some c -> (24 < String.length n)%nat ->
      Server.on_message env now k (Protocol.Json (Wire.hello_json (Some n))) s
      = (Server.store k (Server.set_lastSeen now c) s, [])).
Proof.
  assert (Hhello : forall n,
            Server.decode (Protocol.Json (Wire.hello_json (Some n)))
            = if ((1 <=? String.length n) && (String.length n <=? 24))%nat
              then Some (Protocol.HelloMsg (Some n)) else None).
  { intros n.
    unfold Server.decode, Wire.hello_json, Wire.field, Wire.num,
      Protocol.ClientToServer_safeParse, Protocol.HelloMsg_parse.
    cbn [app Protocol.prop String.eqb Ascii.eqb Bool.eqb andb Protocol.z_literal_1
         Protocol.z_name].
    change (Qeq_bool (inject_Z 1) 1) with true. cbv iota.
    destruct ((1 <=? String.length n) && (String.length n <=? 24))%nat; reflexivity. }
  split; [|split; [|split]].
  - intros c r.
    unfold Server.decode, Wire.cursor_msg_json, Protocol.ClientToServer_safeParse,
      Protocol.CursorMsg_parse.
    cbn [Protocol.prop String.eqb Ascii.eqb Bool.eqb andb].
    rewrite !z_int_nonnegative_num.
    destruct (0 <=? c); [|reflexivity]. destruct (0 <=? r); reflexivity.
  - reflexivity.
  - exact Hhello.
  - intros env now k s c n Hk Hlen.
    apply on_message_rejected; [exact Hk|]. rewrite Hhello.
    apply Nat.leb_gt in Hlen. rewrite Hlen, andb_false_r. reflexivity.
Qed.

(** "a1" opens with a name of 25 characters. *)
Lemma client_frames_on_the_server_witness :
  let long := "abcdefghijklmnopqrstuvwxy" in
  (24 < String.length long)%nat
  /\ Server.on_message env3 5 0 (Protocol.Json (Wire.hello_json (Some long)))
       three_clients
     = (Server.store 0 (Server.mkClientState "a1" None None 5 0) three_clients, []).
Proof.
  intros long.
  assert (Hlen : (24 < String.length long)%nat) by (cbn; lia).
  split; [exact Hlen|].
  exact (proj2 (proj2 (proj2 client_frames_on_the_server)) env3 5 0%nat three_clients
           (Server.mkClientState "a1" None None 1 0) long eq_refl Hlen).
Defined.

(** X15.  A property of a client frame whose key no schema names ([kind],
    [version], [name], [col], [row], [t]) is ignored: with or without it the
    frame is rejected alike or parses to the same message. *)
Theorem unknown_fields_ignored (k : string) (v : Protocol.json)
    (o1 o2 : list (string * Protocol.json)) :
  k ∉ ["kind"; "version"; "name"; "col"; "row"; "t"] ->
  Protocol.ClientToServer_safeParse (Protocol.JObj (o1 ++ (k, v) :: o2))
  = Protocol.ClientToServer_safeParse (Protocol.JObj (o1 ++ o2)).
Proof.
  rewrite !not_elem_of_cons.
  intros (Hkind & Hversion & Hname & Hcol & Hrow & Ht & _).
  unfold Protocol.ClientToServer_safeParse, Protocol.HelloMsg_parse,
    Protocol.CursorMsg_parse, Protocol.PingMsg_parse.
  rewrite !(prop_skip _ k v o1 o2) by assumption. reflexivity.
Qed.

(** A cursor frame with a [shift] flag. *)
Lemma unknown_fields_ignored_witness :
  Protocol.ClientToServer_safeParse
    (Protocol.JObj [("kind", Protocol.JStr "cursor"); ("shift", Protocol.JBool true);
                    ("col", Protocol.JNum 5); ("row", Protocol.JNum 3)])
  = Some (Protocol.CursorMsg 5 3).
Proof.
  refine (eq_trans (unknown_fields_ignored "shift" (Protocol.JBool true)
                      [("kind", Protocol.JStr "cursor")]
                      [("col", Protocol.JNum 5); ("row", Protocol.JNum 3)] _) _).
  - rewrite !not_elem_of_cons. repeat split; try discriminate.
    apply not_elem_of_nil.
  - reflexivity.
Defined.

(** ** The terrain pass and the ring colour *)

Section Terrain.

Import Renderer.

Lemma speckle_loop_length n x y tile t : length (speckle_loop n x y tile t) = n.
Proof.
  revert t. induction n as [|n IH]; intros t; [reflexivity|].
  cbn [speckle_loop]. destruct (Prng.next t) as [t1 u1].
  destruct (Prng.next t1) as [t2 u2]. cbn [length]. rewrite IH. reflexivity.
Qed.

Lemma offset_in_tile (u tile : Z) :
  0 <= u < JS.two32 -> 0 < tile ->
  (0 <= Prng.rnd_value u * inject_Z tile
   /\ Prng.rnd_value u * inject_Z tile < inject_Z tile)%Q.
Proof.
  intros Hu Ht. pose proof (rnd_value_range u Hu) as [H0 H1].
  assert (Htq : (0 < inject_Z tile)%Q) by (unfold Qlt; cbn; lia).
  split.
  - apply Qmult_le_0_compat; [exact H0 | apply Qlt_le_weak, Htq].
  - rewrite <- (Qmult_1_l (inject_Z tile)) at 2.
    apply Qmult_lt_compat_r; assumption.
Qed.

(** Every speckle lies in the square of its tile. *)
Lemma speckle_loop_inside n x y tile t :
  0 < tile ->
  Forall (fun p => (inject_Z x <= fst p /\ fst p < inject_Z x + inject_Z tile
                    /\ inject_Z y <= snd p /\ snd p < inject_Z y + inject_Z tile)%Q)
         (speckle_loop n x y tile t).
Proof.
  intros Ht. revert t. induction n as [|n IH]; intros t; [constructor|].
  cbn [speckle_loop].
  pose proof (next_range t) as Hu1. destruct (Prng.next t) as [t1 u1].
  pose proof (next_range t1) as Hu2. destruct (Prng.next t1) as [t2 u2].
  cbn [snd] in Hu1, Hu2. constructor; [|apply IH].
  cbn [fst snd].
  destruct (offset_in_tile u1 tile Hu1 Ht) as [Ha Hb].
  destruct (offset_in_tile u2 tile Hu2 Ht) as [Hc Hd].
  repeat split; lra.
Qed.

(** The fill and the speckles of one tile. *)
Lemma draw_tile_ranges tile c r :
  let t := draw_tile tile c r in
  x t = c * tile /\ y t = r * tile
  /\ 107 <= hDeg t <= 116 /\ 40 <= sat t <= 49 /\ 39 <= light t <= 48
  /\ length (speckles t) = 6%nat
  /\ (0 < tile ->
      Forall (fun p => (inject_Z (x t) <= fst p
                        /\ fst p < inject_Z (x t) + inject_Z tile
                        /\ inject_Z (y t) <= snd p
                        /\ snd p < inject_Z (y t) + inject_Z tile)%Q)
             (speckles t)).
Proof.
  unfold draw_tile.
  pose proof (next_range (Prng.mulberry32 (Prng.hash2D c r 9001))) as Hu1.
  destruct (Prng.next (Prng.mulberry32 (Prng.hash2D c r 9001))) as [t1 u1].
  pose proof (next_range t1) as Hu2. destruct (Prng.next t1) as [t2 u2].
  pose proof (next_range t2) as Hu3. destruct (Prng.next t2) as [t3 u3].
  cbn [snd] in Hu1, Hu2, Hu3. cbv zeta.
  cbn [x y hDeg sat light speckles].
  pose proof (floor10_range u1 Hu1). pose proof (floor10_range u2 Hu2).
  pose proof (floor10_range u3 Hu3).
  split; [reflexivity|]. split; [reflexivity|].
  split; [lia|]. split; [lia|]. split; [lia|].
  split; [apply speckle_loop_length|].
  intros Ht. apply speckle_loop_inside, Ht.
Qed.

Lemma elem_of_drawBaseTerrain (g : GridRenderer) t :
  t ∈ drawBaseTerrain g ->
  exists c r, 0 <= c < cols g /\ 0 <= r < rows g /\ t = draw_tile (tileCss g) c r.
Proof.
  unfold drawBaseTerrain.
  intros (r & Ht & Hr%elem_of_seqZ)%list_elem_of_bind.
  apply list_elem_of_bind in Ht as (c & Ht & Hc%elem_of_seqZ).
  apply list_elem_of_singleton in Ht. exists c, r.
  split; [lia|]. split; [lia | exact Ht].
Qed.

Lemma drawBaseTerrain_length (g : GridRenderer) :
  length (drawBaseTerrain g) = (Z.to_nat (rows g) * Z.to_nat (cols g))%nat.
Proof.
  unfold drawBaseTerrain.
  assert (Hrow : forall (l : list Z),
            length (r ← l; c ← seqZ 0 (cols g); [draw_tile (tileCss g) c r])
            = (length l * Z.to_nat (cols g))%nat).
  { induction l as [|r l IH]; [reflexivity|].
    cbn [mbind list_bind]. rewrite length_app.
    change (list_bind _ _ ?f l) with (l ≫= f). rewrite IH.
    rewrite bind_singleton_fmap, length_fmap, length_seqZ. reflexivity. }
  rewrite Hrow, length_seqZ. reflexivity.
Qed.

End Terrain.

(** X16.  The terrain pass paints [rows * cols] tiles, none when either
    is not positive.  Each tile it paints is the tile of a column and a row
    of the grid, at the origin [(c * tile, r * tile)], with a hue in
    [107, 116], a saturation in [40, 49], a lightness in [39, 48] and six
    speckles; with a positive tile size every speckle lies in the square of
    its tile. *)
Theorem terrain_tiles_in_range (g : Renderer.GridRenderer) :
  length (Renderer.drawBaseTerrain g)
  = (Z.to_nat (Renderer.rows g) * Z.to_nat (Renderer.cols g))%nat
  /\ forall t, t ∈ Renderer.drawBaseTerrain g ->
      (exists c r, 0 <= c < Renderer.cols g /\ 0 <= r < Renderer.rows g
                   /\ Renderer.x t = c * Renderer.tileCss g
                   /\ Renderer.y t = r * Renderer.tileCss g)
      /\ 107 <= Renderer.hDeg t <= 116
      /\ 40 <= Renderer.sat t <= 49
      /\ 39 <= Renderer.light t <= 48
      /\ length (Renderer.speckles t) = 6%nat
      /\ (0 < Renderer.tileCss g ->
          Forall (fun p =>
                    (inject_Z (Renderer.x t) <= fst p
                     /\ fst p < inject_Z (Renderer.x t) + inject_Z (Renderer.tileCss g)
                     /\ inject_Z (Renderer.y t) <= snd p
                     /\ snd p < inject_Z (Renderer.y t)
                                + inject_Z (Renderer.tileCss g))%Q)
                 (Renderer.speckles t)).
Proof.
  split; [apply drawBaseTerrain_length|].
  intros t (c & r & Hc & Hr & ->)%elem_of_drawBaseTerrain.
  destruct (draw_tile_ranges (Renderer.tileCss g) c r)
    as (Hx & Hy & Hh & Hs & Hl & Hn & Hin).
  split; [exists c, r; auto|]. auto.
Qed.

(** The tile at column 1, row 1 of the server's grid. *)
Lemma terrain_tiles_in_range_witness :
  let g := Renderer.setGrid 40 24 32 (Renderer.create 32) in
  let t := Renderer.draw_tile 32 1 1 in
  t ∈ Renderer.drawBaseTerrain g
  /\ 107 <= Renderer.hDeg t <= 116
  /\ length (Renderer.speckles t) = 6%nat.
Proof.
  intros g t.
  assert (Hin : t ∈ Renderer.drawBaseTerrain g).
  { apply (list_elem_of_lookup_2 _ (Z.to_nat (1 * Renderer.cols g + 1))).
    apply (drawBaseTerrain_lookup g 1 1); cbn; lia. }
  split; [exact Hin|].
  destruct (proj2 (terrain_tiles_in_range g) t Hin) as (_ & Hh & _ & _ & Hn & _).
  split; [exact Hh | exact Hn].
Defined.

Section RingColour.

Lemma hue_from_range (id : string) : forall h,
  0 <= h < 360 -> 0 <= Color.hue_from h id < 360.
Proof.
  induction id as [|a rest IH]; intros h Hh; [exact Hh|].
  cbn [Color.hue_from]. apply IH.
  assert (Hc : 0 <= Color.charCode a) by (unfold Color.charCode; lia).
  rewrite Z.rem_mod_nonneg by lia. apply Z.mod_pos_bound. lia.
Qed.

Lemma hue_from_app (s1 s2 : string) : forall h,
  Color.hue_from h (s1 ++ s2)%string = Color.hue_from (Color.hue_from h s1) s2.
Proof.
  induction s1 as [|a s1 IH]; intros h; [reflexivity|].
  cbn [String.append Color.hue_from]. apply IH.
Qed.

End RingColour.

(** X17.  The hue [colorForId] computes is a whole number of degrees in
    [0, 359], whatever the id, with saturation 70 and lightness 55; the loop
    can be cut anywhere: the hue of an id is the loop run on its end from
    the hue of its beginning. *)
Theorem ring_colour_in_range (id : string) :
  (exists h, Color.colorForId id = (h, 70, 55) /\ 0 <= h < 360)
  /\ forall s1 s2,
      Color.colorForId (s1 ++ s2)%string
      = (Color.hue_from (fst (fst (Color.colorForId s1))) s2, 70, 55).
Proof.
  split.
  - exists (Color.hue_from 0 id). split; [reflexivity|].
    apply hue_from_range. lia.
  - intros s1 s2. unfold Color.colorForId. cbn [fst].
    rewrite hue_from_app. reflexivity.
Qed.

(** ** The pointer and the tile under it *)

Section Pointer.

Import Hover.

(** The quotient of a coordinate by a positive tile size, floored, is the
    index of the tile that holds the coordinate. *)
Lemma floor_bounds (x : Q) (tile : Z) :
  0 < tile ->
  (inject_Z (Qfloor (x / inject_Z tile) * tile) <= x
   /\ x < inject_Z ((Qfloor (x / inject_Z tile) + 1) * tile))%Q.
Proof.
  intros Ht.
  assert (HT : (0 < inject_Z tile)%Q) by (unfold Qlt; cbn; lia).
  assert (Hx : (x == (x / inject_Z tile) * inject_Z tile)%Q).
  { rewrite Qmult_comm, Qmult_div_r; [reflexivity|].
    intros H0. rewrite H0 in HT. apply (Qlt_irrefl 0), HT. }
  pose proof (Qfloor_le (x / inject_Z tile)) as Hlo.
  pose proof (Qlt_floor (x / inject_Z tile)) as Hhi.
  rewrite !inject_Z_mult. split.
  - rewrite Hx at 2. apply Qmult_le_compat_r; [exact Hlo | apply Qlt_le_weak, HT].
  - rewrite Hx at 1. apply Qmult_lt_compat_r; [exact HT | exact Hhi].
Qed.

Lemma floor_lt_iff (x : Q) (tile n : Z) :
  0 < tile ->
  Qfloor (x / inject_Z tile) < n <-> (x < inject_Z (n * tile))%Q.
Proof.
  intros Ht. destruct (floor_bounds x tile Ht) as [Hlo Hhi]. split.
  - intros Hc. eapply Qlt_le_trans; [exact Hhi|]. rewrite <- Zle_Qle. nia.
  - intros Hx.
    assert (H : (inject_Z (Qfloor (x / inject_Z tile) * tile) < inject_Z (n * tile))%Q)
      by (eapply Qle_lt_trans; eassumption).
    rewrite <- Zlt_Qlt in H. nia.
Qed.

Lemma floor_nonneg_iff (x : Q) (tile : Z) :
  0 < tile -> 0 <= Qfloor (x / inject_Z tile) <-> (0 <= x)%Q.
Proof.
  intros Ht. destruct (floor_bounds x tile Ht) as [Hlo Hhi]. split.
  - intros Hc. eapply Qle_trans; [|exact Hlo].
    change 0%Q with (inject_Z 0). rewrite <- Zle_Qle. nia.
  - intros Hx.
    assert (H : (inject_Z 0 < inject_Z ((Qfloor (x / inject_Z tile) + 1) * tile))%Q)
      by (eapply Qle_lt_trans; [exact Hx | exact Hhi]).
    rewrite <- Zlt_Qlt in H. nia.
Qed.

Lemma changed_false h col row : changed h col row = false <-> h = Some (col, row).
Proof.
  unfold changed. destruct h as [[hx hy]|]; [|split; discriminate].
  rewrite orb_false_iff, !negb_false_iff, !Z.eqb_eq. split.
  - intros [-> ->]. reflexivity.
  - intros [= -> ->]. split; reflexivity.
Qed.

End Pointer.

(** X18.  With a positive tile size, a pointer move leaves the hover on
    the tile that holds the pointer when the pointer is over the grid, and
    clears it otherwise.  [onHoverTile] is called when the hover lands on a
    tile it was not on, once, with that tile, which is a tile of the grid;
    when the hover does not change, nothing does: no call and no request for
    a frame; when it changes, a frame is requested. *)
Theorem pointer_move_finds_tile (xCss yCss : Q) (v : Hover.View) :
  0 < Renderer.tileCss (Hover.grid v) ->
  exists v' calls,
    Hover.onMouseMove xCss yCss v = Some (v', calls)
    /\ match Hover.hover v' with
       | Some (c, r) =>
           (0 <= c < Renderer.cols (Hover.grid v)
            /\ 0 <= r < Renderer.rows (Hover.grid v))
           /\ (inject_Z (c * Renderer.tileCss (Hover.grid v)) <= xCss
               /\ xCss < inject_Z ((c + 1) * Renderer.tileCss (Hover.grid v)))%Q
           /\ (inject_Z (r * Renderer.tileCss (Hover.grid v)) <= yCss
               /\ yCss < inject_Z ((r + 1) * Renderer.tileCss (Hover.grid v)))%Q
           /\ calls = (if decide (Hover.hover v = Some (c, r)) then [] else [(c, r)])
       | None =>
           ~ ((0 <= xCss
               /\ xCss < inject_Z (Renderer.cols (Hover.grid v)
                                   * Renderer.tileCss (Hover.grid v)))
              /\ (0 <= yCss
                  /\ yCss < inject_Z (Renderer.rows (Hover.grid v)
                                      * Renderer.tileCss (Hover.grid v))))%Q
           /\ calls = []
       end
    /\ (Hover.hover v' = Hover.hover v -> v' = v)
    /\ (Hover.hover v' <> Hover.hover v ->
        Hover.grid v' = Renderer.scheduleRender (Hover.grid v)
        /\ Renderer.raf (Hover.grid v') = true).
Proof.
  intros Ht. unfold Hover.onMouseMove.
  assert (Hne : (Renderer.tileCss (Hover.grid v) =? 0) = false)
    by (apply Z.eqb_neq; lia).
  rewrite Hne.
  set (tile := Renderer.tileCss (Hover.grid v)) in *.
  set (col := Qfloor (xCss / inject_Z tile)).
  set (row := Qfloor (yCss / inject_Z tile)).
  pose proof (floor_bounds xCss tile Ht) as Hbx.
  pose proof (floor_bounds yCss tile Ht) as Hby.
  pose proof (floor_lt_iff xCss tile (Renderer.cols (Hover.grid v)) Ht) as Hcx.
  pose proof (floor_lt_iff yCss tile (Renderer.rows (Hover.grid v)) Ht) as Hcy.
  pose proof (floor_nonneg_iff xCss tile Ht) as Hnx.
  pose proof (floor_nonneg_iff yCss tile Ht) as Hny.
  fold col in Hbx, Hcx, Hnx. fold row in Hby, Hcy, Hny.
  destruct ((col <? 0) || (row <? 0)
            || (Renderer.cols (Hover.grid v) <=? col)
            || (Renderer.rows (Hover.grid v) <=? row)) eqn:Hout.
  - assert (Hnot : ~ ((0 <= xCss
                       /\ xCss < inject_Z (Renderer.cols (Hover.grid v) * tile))
                      /\ (0 <= yCss
                          /\ yCss < inject_Z (Renderer.rows (Hover.grid v) * tile)))%Q).
    { intros [[Hx0 Hx1] [Hy0 Hy1]].
      apply Hnx in Hx0. apply Hny in Hy0. apply Hcx in Hx1. apply Hcy in Hy1.
      rewrite !orb_true_iff, !Z.ltb_lt, !Z.leb_le in Hout. lia. }
    destruct (Hover.hover v) as [h|] eqn:Hh.
    + eexists _, _. split; [reflexivity|]. cbn [Hover.hover Hover.with_hover].
      split; [split; [exact Hnot | reflexivity]|].
      split; [discriminate|]. intros _. cbn [Hover.grid].
      split; [reflexivity | apply scheduleRender_raf].
    + exists v, []. split; [reflexivity|]. rewrite Hh.
      split; [split; [exact Hnot | reflexivity]|].
      split; [reflexivity|]. intros H. contradiction.
  - rewrite !orb_false_iff, !Z.ltb_ge, !Z.leb_gt in Hout.
    destruct Hout as [[[Hc0 Hr0] Hc1] Hr1].
    destruct (Hover.changed (Hover.hover v) col row) eqn:Hch.
    + eexists _, _. split; [reflexivity|]. cbn [Hover.hover Hover.with_hover].
      assert (Hdiff : Hover.hover v <> Some (col, row)).
      { intros H%changed_false. congruence. }
      split; [|split].
      * split; [lia|]. split; [exact Hbx|]. split; [exact Hby|].
        rewrite decide_False by exact Hdiff. reflexivity.
      * intros H. symmetry in H. contradiction.
      * intros _. cbn [Hover.grid]. split; [reflexivity | apply scheduleRender_raf].
    + apply changed_false in Hch. exists v, []. split; [reflexivity|].
      rewrite Hch. split; [|split].
      * split; [lia|]. split; [exact Hbx|]. split; [exact Hby|].
        rewrite decide_True by reflexivity. reflexivity.
      * reflexivity.
      * intros H. contradiction.
Qed.

(** The pointer at (100.5, 40) over the server's grid of 32-pixel tiles:
    tile (3, 1). *)
Lemma pointer_move_finds_tile_witness :
  let v := Hover.mkView (Renderer.setGrid 40 24 32 (Renderer.create 32)) None in
  0 < Renderer.tileCss (Hover.grid v)
  /\ Hover.onMouseMove (201 # 2) 40 v
     = Some (Hover.mkView
               (Renderer.scheduleRender (Renderer.setGrid 40 24 32 (Renderer.create 32)))
               (Some (3, 1)),
             [(3, 1)])
  /\ exists v' calls, Hover.onMouseMove (201 # 2) 40 v = Some (v', calls).
Proof.
  intros v. assert (Ht : 0 < Renderer.tileCss (Hover.grid v)) by (cbn; lia).
  split; [exact Ht|]. split; [reflexivity|].
  destruct (pointer_move_finds_tile (201 # 2) 40 v Ht) as (v' & calls & H & _).
  exists v', calls. exact H.
Defined.

Section Reports.

Import Hover.

(** The tiles handed to [onHoverTile] are tiles of the grid. *)
Lemma onMouseMove_calls x y (v v' : View) calls c r :
  onMouseMove x y v = Some (v', calls) -> (c, r) ∈ calls ->
  0 <= c < Renderer.cols (grid v) /\ 0 <= r < Renderer.rows (grid v).
Proof.
  unfold onMouseMove. destruct (Renderer.tileCss (grid v) =? 0); [discriminate|].
  cbv zeta.
  generalize (Qfloor (x / inject_Z (Renderer.tileCss (grid v)))).
  generalize (Qfloor (y / inject_Z (Renderer.tileCss (grid v)))).
  intros row col.
  destruct (_ || _ || _ || _) eqn:Hout.
  - intros [= _ <-] H%elem_of_nil. destruct H.
  - rewrite !orb_false_iff, !Z.ltb_ge, !Z.leb_gt in Hout.
    destruct (changed _ _ _).
    + intros [= _ <-] [= -> ->]%list_elem_of_singleton. lia.
    + intros [= _ <-] H%elem_of_nil. destruct H.
Qed.

Lemma sendCursor_frame now c r cl m :
  m ∈ snd (Net.sendCursor now c r cl) -> m = Protocol.CursorMsg c r.
Proof.
  unfold Net.sendCursor. destruct (Qlt_le_dec _ _); cbn [snd].
  - intros H%elem_of_nil. destruct H.
  - unfold Net.send. cbn [Net.ws]. destruct (Net.ws cl) as [rs|]; [|intros H%elem_of_nil; destruct H].
    destruct (WebSocket.is_open rs); [|intros H%elem_of_nil; destruct H].
    intros H%list_elem_of_singleton. exact H.
Qed.

End Reports.

(** X19.  From the pointer to the store.  When the renderer's grid has the
    dimensions of the server's, a tile handed to [onHoverTile] makes
    [sendCursor] transmit, if anything, the cursor message of that tile; the
    server accepts its frame and stores the tile as it is, the clamp
    changing nothing. *)
Theorem hover_report_stored_verbatim (xCss yCss : Q) (v v' : Hover.View)
    (calls : list (Z * Z)) (c r : Z) (env : Server.Env) (now : Z) (k : nat)
    (s : Server.State) (st : Server.ClientState) :
  Hover.onMouseMove xCss yCss v = Some (v', calls) -> (c, r) ∈ calls ->
  Renderer.cols (Hover.grid v) = Protocol.cols Server.GRID ->
  Renderer.rows (Hover.grid v) = Protocol.rows Server.GRID ->
  Server.objs s !! k = Some st ->
  (forall t cl m, m ∈ snd (Net.sendCursor t c r cl) -> m = Protocol.CursorMsg c r)
  /\ Server.decode (Protocol.Json (Wire.cursor_msg_json c r))
     = Some (Protocol.CursorMsg c r)
  /\ exists st',
      Server.objs (fst (Server.on_message env now k
                          (Protocol.Json (Wire.cursor_msg_json c r)) s)) !! k
      = Some st'
      /\ Server.cursor st' = Some (Protocol.mkCursor c r).
Proof.
  intros Hmove Hin Hcols Hrows Hk.
  destruct (onMouseMove_calls _ _ _ _ _ _ _ Hmove Hin) as [Hc Hr].
  rewrite Hcols in Hc. rewrite Hrows in Hr. cbn in Hc, Hr.
  assert (Hd : Server.decode (Protocol.Json (Wire.cursor_msg_json c r))
               = Some (Protocol.CursorMsg c r)).
  { unfold Server.decode, Wire.cursor_msg_json, Protocol.ClientToServer_safeParse,
      Protocol.CursorMsg_parse.
    cbn [Protocol.prop String.eqb Ascii.eqb Bool.eqb andb].
    rewrite !z_int_nonnegative_num.
    destruct (0 <=? c) eqn:H1; [|apply Z.leb_gt in H1; lia].
    destruct (0 <=? r) eqn:H2; [|apply Z.leb_gt in H2; lia]. reflexivity. }
  split; [intros t cl m; apply sendCursor_frame|]. split; [exact Hd|].
  rewrite (on_message_cursor env now k _ s st c r Hk Hd). cbv zeta. cbn [fst].
  eexists. split; [eapply lookup_store_eq, Hk|].
  cbn [Server.cursor Server.set_cursor]. do 2 f_equal; apply clamp_inside; cbn; lia.
Qed.

(** The pointer over tile (3, 1); "a1" of the session of three reports it. *)
Lemma hover_report_stored_verbatim_witness :
  let v := Hover.mkView (Renderer.setGrid 40 24 32 (Renderer.create 32)) None in
  exists st',
    Server.objs (fst (Server.on_message env3 9 0
                        (Protocol.Json (Wire.cursor_msg_json 3 1)) three_clients))
      !! 0%nat = Some st'
    /\ Server.cursor st' = Some (Protocol.mkCursor 3 1).
Proof.
  intros v.
  refine (proj2 (proj2 (hover_report_stored_verbatim (201 # 2) 40 v _ [(3, 1)] 3 1
            env3 9 0 three_clients (Server.mkClientState "a1" None None 1 0)
            eq_refl _ eq_refl eq_refl eq_refl))).
  apply list_elem_of_In. left. reflexivity.
Defined.

Section Frames.

Import Hover.

Lemma apply_raf op (g : Renderer.GridRenderer) : Renderer.raf (apply op g) = true.
Proof. destruct op; cbn [apply]; apply scheduleRender_raf. Qed.

Lemma apply_all_pending ops : forall (g : Renderer.GridRenderer),
  Renderer.raf g = true ->
  snd (apply_all ops g) = 0%nat /\ Renderer.raf (fst (apply_all ops g)) = true.
Proof.
  induction ops as [|op ops IH]; intros g Hg; [split; [reflexivity | exact Hg]|].
  cbn [apply_all]. destruct (IH (apply op g) (apply_raf op g)) as [Hn Hr].
  destruct (apply_all ops (apply op g)) as [g' n]. cbn [fst snd] in *.
  unfold requested. rewrite Hg, Hn. split; [reflexivity | exact Hr].
Qed.

End Frames.

(** X20.  However many remote-state operations run with no frame between
    them, [requestAnimationFrame] is called once, by the first of them, and
    not at all when a frame was already requested; afterwards a frame is
    requested, and the callback of the frame clears the request and keeps
    the set. *)
Theorem redraws_coalesced (op : Hover.Op) (ops : list Hover.Op)
    (g : Renderer.GridRenderer) :
  snd (Hover.apply_all (op :: ops) g) = (if Renderer.raf g then 0%nat else 1%nat)
  /\ Renderer.raf (fst (Hover.apply_all (op :: ops) g)) = true
  /\ Renderer.raf (Renderer.on_frame (fst (Hover.apply_all (op :: ops) g))) = false
  /\ Renderer.cursors (Renderer.on_frame (fst (Hover.apply_all (op :: ops) g)))
     = Renderer.cursors (fst (Hover.apply_all (op :: ops) g)).
Proof.
  cbn [Hover.apply_all].
  destruct (apply_all_pending ops (Hover.apply op g) (apply_raf op g)) as [Hn Hr].
  destruct (Hover.apply_all ops (Hover.apply op g)) as [g' n]. cbn [fst snd] in *.
  unfold Hover.requested. rewrite Hn, Nat.add_0_r.
  split; [reflexivity|]. split; [exact Hr|]. split; reflexivity.
Qed.

(** ** The connection of the client *)

(** X21.  [connect()] makes at most one socket, and a second call with no
    event in between makes none and changes nothing; while the attempt is in
    flight a call makes none whatever the socket's ready state.  When the
    socket opens, the one frame sent is the hello.  After the close event,
    or after [close()], a call makes a socket again; [close()] closes the
    socket only once. *)
Theorem connect_is_idempotent (c : Net.NetClient) :
  (length (snd (Conn.connect c)) <= 1)%nat
  /\ Conn.connect (fst (Conn.connect c)) = (fst (Conn.connect c), [])
  /\ (snd (Conn.connect c) = [Conn.NewSocket] ->
      (forall r, snd (Conn.connect (Conn.observe r (fst (Conn.connect c)))) = [])
      /\ forall name,
          snd (Conn.onopen name (Conn.observe WebSocket.OPEN (fst (Conn.connect c))))
          = [Conn.SocketSend (Wire.hello_json name)])
  /\ snd (Conn.connect (fst (Conn.onclose c))) = [Conn.NewSocket]
  /\ snd (Conn.connect (fst (Conn.close c))) = [Conn.NewSocket]
  /\ snd (Conn.close (fst (Conn.close c))) = [].
Proof.
  unfold Conn.connect.
  destruct (Conn.is_OPEN c) eqn:Hopen; cbn [fst snd].
  - rewrite Hopen. split; [cbn; lia|]. split; [reflexivity|].
    split; [discriminate|]. repeat split.
  - destruct (Net.connecting c) eqn:Hconn; cbn [fst snd].
    + rewrite Hopen, Hconn. split; [cbn; lia|]. split; [reflexivity|].
      split; [discriminate|]. repeat split.
    + split; [cbn; lia|]. split; [reflexivity|].
      split; [|repeat split].
      intros _. split; [|reflexivity].
      intros r. cbn. destruct (WebSocket.is_open r); reflexivity.
Qed.

(** A fresh client connects. *)
Lemma connect_is_idempotent_witness :
  snd (Conn.connect Net.create) = [Conn.NewSocket]
  /\ snd (Conn.onopen (Some "Ann")
            (Conn.observe WebSocket.OPEN (fst (Conn.connect Net.create))))
     = [Conn.SocketSend (Wire.hello_json (Some "Ann"))].
Proof.
  split; [reflexivity|].
  exact (proj2 (proj1 (proj2 (proj2 (connect_is_idempotent Net.create))) eq_refl)
           (Some "Ann")).
Defined.

(** X22.  The close handler clears [this.ws] whichever socket it fires
    for.  After [close()] and a new [connect()], the close event of the old
    socket leaves the client without a socket while the new one lives: when
    that one opens no hello is sent, [sendCursor] transmits nothing, and a
    further [connect()] makes one more socket. *)
Theorem stale_close_event_drops_socket (c : Net.NetClient) (name : option string)
    (now : Q) (col row : Z) :
  let c1 := fst (Conn.close c) in
  let c2 := fst (Conn.connect c1) in
  let c3 := Conn.observe WebSocket.OPEN (fst (Conn.onclose c2)) in
  snd (Conn.connect c1) = [Conn.NewSocket]
  /\ Net.ws c2 = Some WebSocket.CONNECTING
  /\ Net.ws c3 = None
  /\ snd (Conn.onopen name c3) = []
  /\ snd (Net.sendCursor now col row c3) = []
  /\ snd (Conn.connect c3) = [Conn.NewSocket].
Proof.
  cbn. split; [reflexivity|]. split; [reflexivity|]. split; [reflexivity|].
  split; [reflexivity|]. split; [|reflexivity].
  unfold Net.sendCursor. destruct (Qlt_le_dec _ _); reflexivity.
Qed.

(** ** The client's set against the server's store *)

Section Sync.

Import Server.

Implicit Types (s : State) (c : ClientState) (env : Env) (k r : nat) (i : string).

(** The game frames a list of outputs puts on socket [w], in order. *)
Definition frames_to (w : nat) (out : list Output) : list Protocol.ServerToClient :=
  omap (fun o => match o with
                 | Send w' m => if Nat.eqb w' w then Some m else None
                 | AdminSend _ _ => None
                 end) out.

(** What the client of participant [you] would show after a snapshot of
    the store taken now: the other participants that have a cursor. *)
Definition view (you : string) s : list Renderer.ReplicatedCursor :=
  omap App.replicate (List.filter (App.keep (Some you)) (player_of <$> values s)).

Lemma frames_to_app w (a b : list Output) :
  frames_to w (a ++ b) = frames_to w a ++ frames_to w b.
Proof. unfold frames_to. apply omap_app. Qed.

Lemma frames_to_adminBroadcast w env s : frames_to w (adminBroadcast env s) = [].
Proof.
  unfold adminBroadcast. induction (admins s) as [|a l IH]; [reflexivity|].
  cbn [flat_map]. rewrite frames_to_app, IH, app_nil_r.
  destruct (WebSocket.is_open (admin_ready env a)); reflexivity.
Qed.

Lemma keep_true you (p : Protocol.Player) :
  App.keep (Some you) p = true
  <-> Protocol.id p <> you /\ exists x, App.replicate p = Some x.
Proof.
  unfold App.keep, App.replicate. destruct (Protocol.cursor p) as [cur|].
  - rewrite negb_true_iff. cbn [App.is_you]. rewrite String.eqb_neq.
    split; [intros H; split; [exact H | eexists; reflexivity] | intros [H _]; exact H].
  - split; [discriminate | intros [_ [x H]]; discriminate].
Qed.

(** The entries of the view, read off the map. *)
Lemma view_elem you s x :
  x ∈ view you s <->
  exists i r c, (i, r) ∈ clients s /\ objs s !! r = Some c
                /\ id c <> you /\ App.replicate (player_of c) = Some x.
Proof.
  unfold view. rewrite list_elem_of_omap. split.
  - intros (p & Hp & Hrep). apply list_elem_of_In, filter_In in Hp as [Hp Hkeep].
    apply list_elem_of_In, list_elem_of_fmap in Hp as (c & -> & Hc).
    apply keep_true in Hkeep as [Hne _].
    unfold values in Hc. apply list_elem_of_omap in Hc as ([i r] & Hin & Hc).
    exists i, r, c. auto.
  - intros (i & r & c & Hin & Hc & Hne & Hrep). exists (player_of c).
    split; [|exact Hrep]. apply list_elem_of_In, filter_In. split.
    + apply list_elem_of_In, list_elem_of_fmap_2. exact (elem_of_values s i r c Hin Hc).
    + apply keep_true. split; [exact Hne | eexists; exact Hrep].
Qed.

Lemma view_ids you s x : x ∈ view you s -> Renderer.id x <> you.
Proof.
  intros (i & r & c & _ & _ & Hne & Hrep)%view_elem.
  rewrite (replicate_id _ _ Hrep). exact Hne.
Qed.

Lemma view_keyed you s : wf s -> NoDup (Renderer.id <$> view you s).
Proof. intros Hwf. apply replicated_keyed, snapshot_keyed, Hwf. Qed.

(** In a keyed store a broadcast puts its frame once on the socket of a
    connection of the store, when that is open and not excepted. *)
Lemma frames_to_broadcast env s k c msg e :
  wf s -> objs s !! k = Some c -> (id c, k) ∈ clients s ->
  frames_to (ws c) (broadcast env s msg e)
  = if same_id (id c) e then []
    else if WebSocket.is_open (game_ready env (ws c)) then [msg] else [].
Proof.
  intros [Hkeys Hrefs Hsocks] Hk Hin. unfold broadcast.
  assert (Hother : forall i r,
            (i, r) ∈ clients s -> (i, r) <> (id c, k) ->
            frames_to (ws c)
              (if same_id i e then []
               else match objs s !! r with
                    | Some c' =>
                        if WebSocket.is_open (game_ready env (ws c'))
                        then [Send (ws c') msg] else []
                    | None => []
                    end) = []).
  { intros i r Hir Hne. destruct (same_id i e); [reflexivity|].
    destruct (objs s !! r) as [c'|] eqn:Hc'; [|reflexivity].
    destruct (WebSocket.is_open (game_ready env (ws c'))); [|reflexivity].
    cbn. destruct (Nat.eqb (ws c') (ws c)) eqn:Heq; [|reflexivity].
    apply Nat.eqb_eq in Heq. exfalso. apply Hne.
    assert (r = k) by (eapply (Hsocks i r c' (id c) k c); eauto). subst r.
    destruct (Hrefs i k Hir) as (y & Hy & Hidy). congruence. }
  revert Hkeys Hin Hother.
  generalize (clients s). intros l Hkeys Hin Hother.
  induction l as [|[i r] l IH]; [apply elem_of_nil in Hin; destruct Hin|].
  cbn [flat_map fst snd]. rewrite frames_to_app.
  rewrite fmap_cons in Hkeys. apply NoDup_cons in Hkeys as [Hnin Hkeys].
  cbn [fst] in Hnin.
  apply elem_of_cons in Hin as [Heq|Hin].
  - injection Heq as <- <-. rewrite Hk.
    assert (Hrest : frames_to (ws c)
              (flat_map
                 (fun kv =>
                    if same_id (fst kv) e then []
                    else match objs s !! snd kv with
                         | Some c' =>
                             if WebSocket.is_open (game_ready env (ws c'))
                             then [Send (ws c') msg] else []
                         | None => []
                         end) l) = []).
    { clear IH. induction l as [|[i' r'] l IHl]; [reflexivity|].
      cbn [flat_map fst snd]. rewrite frames_to_app.
      rewrite fmap_cons, not_elem_of_cons in Hnin. destruct Hnin as [Hne Hnin].
      rewrite fmap_cons in Hkeys. apply NoDup_cons in Hkeys as [_ Hkeys].
      rewrite (Hother i' r'); [|right; left|cbn in Hne; congruence].
      apply IHl; [exact Hnin | exact Hkeys|].
      intros i2 r2 Hin2 Hne2. apply Hother; [|exact Hne2].
      apply elem_of_cons in Hin2 as [->|Hin2]; [left | right; right; exact Hin2]. }
    rewrite Hrest, app_nil_r. destruct (same_id (id c) e); [reflexivity|].
    destruct (WebSocket.is_open (game_ready env (ws c))); [|reflexivity].
    cbn. rewrite Nat.eqb_refl. reflexivity.
  - rewrite (Hother i r); [|left|].
    + apply IH; [exact Hkeys | exact Hin|].
      intros i2 r2 Hin2 Hne2. apply Hother; [right; exact Hin2 | exact Hne2].
    + intros [= -> ->]. apply Hnin, list_elem_of_fmap.
      exists (id c, k). split; [reflexivity | exact Hin].
Qed.

End Sync.

Section SyncSteps.

Import Server.

Implicit Types (s : State) (c : ClientState) (env : Env) (k r : nat) (i : string).

(** The view after a write to the object of a connection of the store:
    the entries of the others, and the entry of the written object. *)
Lemma view_store you s k c0 c' x :
  wf s -> objs s !! k = Some c0 -> (id c0, k) ∈ clients s -> id c' = id c0 ->
  x ∈ view you (store k c' s) <->
  (x ∈ view you s /\ Renderer.id x <> id c0)
  \/ (id c0 <> you /\ App.replicate (player_of c') = Some x).
Proof.
  intros [Hkeys Hrefs Hsocks] Hk Hin Hid. rewrite !view_elem. split.
  - intros (i & r & c & Hir & Hc & Hne & Hrep). cbn [clients store] in Hir.
    destruct (decide (k = r)) as [<-|Hkr].
    + rewrite (lookup_store_eq k c' c0 s Hk) in Hc. injection Hc as <-.
      right. split; [congruence | exact Hrep].
    + rewrite lookup_store_ne in Hc by exact Hkr. left. split.
      * exists i, r, c. auto.
      * rewrite (replicate_id _ _ Hrep). cbn [player_of Protocol.id].
        intros Heq. apply Hkr.
        destruct (Hrefs i r Hir) as (y & Hy & Hidy).
        assert (y = c) by congruence. subst y.
        rewrite <- Hidy, Heq in Hir. exact (keyed_lookup _ _ _ _ Hkeys Hin Hir).
  - intros [[(i & r & c & Hir & Hc & Hne & Hrep) Hx]|[Hne Hrep]].
    + exists i, r, c. split; [exact Hir|]. split; [|auto].
      rewrite lookup_store_ne; [exact Hc|]. intros <-.
      assert (c = c0) by congruence. subst c.
      apply Hx. rewrite (replicate_id _ _ Hrep). reflexivity.
    + exists (id c0), k, c'. split; [exact Hin|].
      split; [eapply lookup_store_eq, Hk|]. split; [congruence | exact Hrep].
Qed.

(** The same, for the store as it is. *)
Lemma view_split you s k c0 x :
  wf s -> objs s !! k = Some c0 -> (id c0, k) ∈ clients s ->
  x ∈ view you s <->
  (x ∈ view you s /\ Renderer.id x <> id c0)
  \/ (id c0 <> you /\ App.replicate (player_of c0) = Some x).
Proof.
  intros Hwf Hk Hin.
  rewrite <- (view_store you s k c0 c0 x Hwf Hk Hin eq_refl).
  unfold store. rewrite list_insert_id by exact Hk.
  destruct s; reflexivity.
Qed.

Lemma view_close you env s k c0 x :
  wf s -> objs s !! k = Some c0 -> (id c0, k) ∈ clients s ->
  x ∈ view you (fst (on_close env k s)) <-> x ∈ view you s /\ Renderer.id x <> id c0.
Proof.
  intros [Hkeys Hrefs Hsocks] Hk Hin. unfold on_close. rewrite Hk. cbn [fst].
  rewrite !view_elem. cbn [objs clients]. split.
  - intros (i & r & c & [Hir Hne0]%elem_of_map_delete & Hc & Hne & Hrep).
    cbn [fst] in Hne0. split; [exists i, r, c; auto|].
    rewrite (replicate_id _ _ Hrep). cbn [player_of Protocol.id].
    destruct (Hrefs i r Hir) as (y & Hy & Hidy). congruence.
  - intros [(i & r & c & Hir & Hc & Hne & Hrep) Hx].
    exists i, r, c. split; [|auto]. apply elem_of_map_delete. split; [exact Hir|].
    cbn [fst]. rewrite (replicate_id _ _ Hrep) in Hx. cbn [player_of Protocol.id] in Hx.
    destruct (Hrefs i r Hir) as (y & Hy & Hidy). congruence.
Qed.

Lemma view_connection you env now sock nanoid s x :
  wf s -> nanoid ∉ (fst <$> clients s) ->
  x ∈ view you (fst (on_connection env now sock nanoid s)) <-> x ∈ view you s.
Proof.
  intros [Hkeys Hrefs Hsocks] Hfresh. unfold on_connection. cbn [fst].
  rewrite (map_set_fresh _ _ _ Hfresh), !view_elem. cbn [objs clients]. split.
  - intros (i & r & c & [Hir|Hir%list_elem_of_singleton]%elem_of_app & Hc & Hne & Hrep).
    + destruct (Hrefs i r Hir) as (y & Hy & Hidy).
      rewrite (lookup_app_l_Some _ _ _ _ Hy) in Hc. injection Hc as <-.
      exists i, r, y. auto.
    + injection Hir as -> ->. rewrite list_lookup_middle in Hc by reflexivity.
      injection Hc as <-. discriminate Hrep.
  - intros (i & r & c & Hir & Hc & Hne & Hrep). exists i, r, c.
    split; [apply elem_of_app; left; exact Hir|].
    split; [apply lookup_app_l_Some, Hc | auto].
Qed.

(** The client's side of the same three changes. *)
Lemma elem_of_upsert_keyed (rc x : Renderer.ReplicatedCursor)
    (l : list Renderer.ReplicatedCursor) :
  NoDup (Renderer.id <$> l) ->
  x ∈ Renderer.upsert rc l <->
  (x ∈ l /\ Renderer.id x <> Renderer.id rc) \/ x = rc.
Proof.
  induction l as [|y l IH]; intros Hnd.
  - rewrite upsert_nil, list_elem_of_singleton. split; [auto|].
    intros [[H%elem_of_nil _]|H]; [destruct H | exact H].
  - rewrite fmap_cons in Hnd. apply NoDup_cons in Hnd as [Hnin Hnd].
    rewrite upsert_cons. destruct (decide (Renderer.id y = Renderer.id rc)) as [Heq|Hne].
    + rewrite !elem_of_cons. split.
      * intros [->|Hx]; [right; reflexivity|]. left. split; [right; exact Hx|].
        intros Hid. apply Hnin. rewrite Heq, <- Hid.
        apply list_elem_of_fmap_2, Hx.
      * intros [[[->|Hx] Hid]| ->]; [contradiction | right; exact Hx | left; reflexivity].
    + rewrite !elem_of_cons, (IH Hnd). split.
      * intros [->|[[Hx Hid]| ->]]; [left; split; [left; reflexivity | exact Hne]
                                    | left; split; [right; exact Hx | exact Hid]
                                    | right; reflexivity].
      * intros [[[->|Hx] Hid]| ->]; [left; reflexivity | right; left; auto
                                    | right; right; reflexivity].
Qed.

Lemma elem_of_remove i (x : Renderer.ReplicatedCursor)
    (l : list Renderer.ReplicatedCursor) :
  x ∈ remove i l <-> x ∈ l /\ Renderer.id x <> i.
Proof.
  rewrite remove_as_filter, list_elem_of_filter. tauto.
Qed.

End SyncSteps.

Section SyncInvariant.

Import Server.

Implicit Types (s : State) (c : ClientState) (env : Env) (k r : nat) (i : string)
  (a : App.App).

(** The application of the participant of connection [k] shows the store:
    it knows its id, its set is keyed, and holds exactly the entries of the
    view. *)
Definition synced s k a : Prop :=
  exists c, objs s !! k = Some c /\ (id c, k) ∈ clients s
            /\ App.youRef a = Some (id c)
            /\ NoDup (Renderer.id <$> Renderer.cursors (App.renderer a))
            /\ forall x, x ∈ Renderer.cursors (App.renderer a) <-> x ∈ view (id c) s.

Lemma replicate_cursor c x :
  App.replicate (player_of c) = Some x -> is_Some (cursor c).
Proof.
  unfold App.replicate. cbn [player_of Protocol.cursor].
  destruct (cursor c); [eexists; reflexivity | discriminate].
Qed.

Lemma other_id s k k' c c0 :
  wf s -> (id c, k) ∈ clients s -> (id c0, k') ∈ clients s -> k' <> k ->
  id c0 <> id c.
Proof.
  intros [Hkeys _ _] Hin Hin' Hne Heq. apply Hne. rewrite Heq in Hin'.
  exact (keyed_lookup _ _ _ _ Hkeys Hin' Hin).
Qed.

(** A write to the own object, or one that leaves id, name and cursor of
    another as they were, with no frame for the client. *)
Lemma synced_quiet s k a k' c0 c1 :
  wf s -> synced s k a -> objs s !! k' = Some c0 -> (id c0, k') ∈ clients s ->
  id c1 = id c0 ->
  (k' = k \/ App.replicate (player_of c1) = App.replicate (player_of c0)) ->
  synced (store k' c1 s) k a.
Proof.
  intros Hwf (c & Hk & Hin & Hyou & Hnd & Hset) Hk' Hin' Hid Hcase.
  destruct (decide (k' = k)) as [->|Hne].
  - assert (c0 = c) by congruence. subst c0.
    exists c1. split; [eapply lookup_store_eq, Hk|].
    rewrite Hid. split; [exact Hin|]. split; [exact Hyou|]. split; [exact Hnd|].
    intros x. rewrite (Hset x), (view_store (id c) s k c c1 x Hwf Hk Hin Hid).
    split.
    + intros Hx. left. split; [exact Hx | apply (view_ids _ _ _ Hx)].
    + intros [[Hx _]|[Hne _]]; [exact Hx | contradiction].
  - destruct Hcase as [Heq|Hrep]; [contradiction|].
    exists c. split; [rewrite lookup_store_ne by exact Hne; exact Hk|].
    split; [exact Hin|]. split; [exact Hyou|]. split; [exact Hnd|].
    intros x. rewrite (Hset x), (view_store (id c) s k' c0 c1 x Hwf Hk' Hin' Hid).
    rewrite Hrep. exact (view_split (id c) s k' c0 x Hwf Hk' Hin').
Qed.

(** A write to the object of another connection, told by a [playerUpdate]. *)
Lemma synced_update s k a k' c0 c1 :
  wf s -> synced s k a -> objs s !! k' = Some c0 -> (id c0, k') ∈ clients s ->
  id c1 = id c0 -> k' <> k -> (cursor c1 = None -> cursor c0 = None) ->
  synced (store k' c1 s) k (App.onPlayerUpdate (player_of c1) a).
Proof.
  intros Hwf (c & Hk & Hin & Hyou & Hnd & Hset) Hk' Hin' Hid Hne Hcur.
  pose proof (other_id s k k' c c0 Hwf Hin Hin' Hne) as Hids.
  exists c. split; [rewrite lookup_store_ne by exact Hne; exact Hk|].
  split; [exact Hin|].
  unfold App.onPlayerUpdate. rewrite Hyou. cbn [player_of Protocol.id App.is_you].
  assert (Hnot : String.eqb (id c1) (id c) = false)
    by (apply String.eqb_neq; congruence).
  rewrite Hnot.
  destruct (App.replicate (player_of c1)) as [rc|] eqn:Hrep.
  - split; [exact Hyou|]. rewrite renderer_with_renderer, upsertReplicatedCursor_cursors.
    split; [apply upsert_NoDup, Hnd|].
    intros x. rewrite (elem_of_upsert_keyed rc x _ Hnd).
    rewrite (view_store (id c) s k' c0 c1 x Hwf Hk' Hin' Hid), Hrep, (Hset x).
    rewrite (replicate_id _ _ Hrep). cbn [player_of Protocol.id]. rewrite Hid.
    split.
    + intros [H| ->]; [left; exact H | right; split; [exact Hids | reflexivity]].
    + intros [H|[_ [= ->]]]; [left; exact H | right; reflexivity].
  - split; [exact Hyou|]. split; [exact Hnd|].
    assert (Hnone : App.replicate (player_of c0) = None).
    { unfold App.replicate in *. cbn [player_of Protocol.cursor] in *.
      destruct (cursor c1); [discriminate|]. rewrite Hcur; reflexivity. }
    intros x. rewrite (Hset x). split.
    + intros Hx. apply (view_store (id c) s k' c0 c1 x Hwf Hk' Hin' Hid).
      apply (view_split (id c) s k' c0 x Hwf Hk' Hin') in Hx.
      destruct Hx as [H|[_ H]]; [left; exact H | congruence].
    + intros Hx. apply (view_store (id c) s k' c0 c1 x Hwf Hk' Hin' Hid) in Hx.
      destruct Hx as [[H _]|[_ H]]; [exact H | congruence].
Qed.

End SyncInvariant.

Section SyncRun.

Import Server.

Implicit Types (s : State) (c : ClientState) (env : Env) (k r : nat) (i : string)
  (a : App.App).

(** A run in which every event is one the transport and [nanoid] allow,
    connection [k] is not closed, and socket [w] is open at every step. *)
Fixpoint attended (k w : nat) (evs : list (Env * Z * Event)) s : Prop :=
  match evs with
  | [] => True
  | (env, now, ev) :: rest =>
      admissible s ev /\ ev <> Close k
      /\ WebSocket.is_open (game_ready env w) = true
      /\ attended k w rest (fst (step env now ev s))
  end.

Lemma wf_step env now ev s : wf s -> admissible s ev -> wf (fst (step env now ev s)).
Proof.
  intros Hwf Hadm. destruct ev as [sock nanoid|k buf|k|a]; cbn [step].
  - apply wf_on_connection; assumption.
  - apply wf_on_message, Hwf.
  - apply wf_on_close, Hwf.
  - destruct Hwf. split; assumption.
Qed.

(** One step of the server, its frames for the socket delivered in order. *)
Lemma synced_step env now ev s k a c :
  wf s -> synced s k a -> objs s !! k = Some c ->
  admissible s ev -> ev <> Close k ->
  WebSocket.is_open (game_ready env (ws c)) = true ->
  synced (fst (step env now ev s)) k
    (App.deliver (frames_to (ws c) (snd (step env now ev s))) a).
Proof.
  intros Hwf Hsync Hk Hadm Hnc Hopen.
  pose proof Hsync as (cx & Hkx & Hin & Hyou & Hnd & Hset).
  assert (cx = c) by congruence. subst cx.
  destruct ev as [sock nanoid|k' buf|k'|adm]; cbn [step].
  - destruct Hadm as [Hfresh Hsock].
    assert (Hne : Nat.eqb sock (ws c) = false).
    { apply Nat.eqb_neq. intros Heq.
      apply (Hsock c (list_elem_of_lookup_2 _ _ _ Hk)). congruence. }
    assert (Hfr : frames_to (ws c) (snd (on_connection env now sock nanoid s)) = []).
    { unfold on_connection. cbn [snd app]. unfold frames_to.
      cbn [omap list_omap]. rewrite !Hne.
      exact (frames_to_adminBroadcast (ws c) env _). }
    rewrite Hfr. cbn [App.deliver fold_left].
    exists c. split; [cbn; apply lookup_app_l_Some, Hk|].
    split; [cbn [on_connection fst clients]; rewrite (map_set_fresh _ _ _ Hfresh);
            apply elem_of_app; left; exact Hin|].
    split; [exact Hyou|]. split; [exact Hnd|].
    intros x. rewrite (Hset x). symmetry.
    apply view_connection; assumption.
  - destruct Hadm as (c0 & Hk' & Hin').
    destruct (decode buf) as [[n|col row|t]|] eqn:Hd.
    + rewrite (on_message_hello env now k' buf s c0 n Hk' Hd). cbv zeta. cbn [fst snd].
      set (c1 := set_name (slice24 n) (set_lastSeen now c0)).
      assert (Hwf1 : wf (store k' c1 s))
        by (eapply wf_store; [exact Hwf | exact Hk' | reflexivity | reflexivity]).
      rewrite frames_to_app, frames_to_adminBroadcast, app_nil_r.
      destruct (decide (k' = k)) as [->|Hne].
      * assert (c0 = c) by congruence. subst c0.
        rewrite (frames_to_broadcast env (store k c1 s) k c1 _ None Hwf1
                   (lookup_store_eq k c1 c s Hk) Hin).
        cbn [same_id]. change (ws c1) with (ws c). rewrite Hopen.
        cbn [App.deliver fold_left App.dispatch].
        unfold App.onPlayerUpdate. rewrite Hyou. cbn [player_of Protocol.id App.is_you].
        change (id c1) with (id c). rewrite String.eqb_refl.
        apply (synced_quiet s k a k c c1 Hwf Hsync Hk Hin eq_refl). left. reflexivity.
      * assert (Hk1 : objs (store k' c1 s) !! k = Some c)
          by (rewrite lookup_store_ne by exact Hne; exact Hk).
        rewrite (frames_to_broadcast env (store k' c1 s) k c _ None Hwf1 Hk1 Hin).
        cbn [same_id]. rewrite Hopen. cbn [App.deliver fold_left App.dispatch].
        apply (synced_update s k a k' c0 c1 Hwf Hsync Hk' Hin' eq_refl Hne).
        intros H. exact H.
    + rewrite (on_message_cursor env now k' buf s c0 col row Hk' Hd).
      cbv zeta. cbn [fst snd].
      set (c1 := set_cursor _ (set_lastSeen now c0)).
      assert (Hwf1 : wf (store k' c1 s))
        by (eapply wf_store; [exact Hwf | exact Hk' | reflexivity | reflexivity]).
      rewrite frames_to_app, frames_to_adminBroadcast, app_nil_r.
      destruct (decide (k' = k)) as [->|Hne].
      * assert (c0 = c) by congruence. subst c0.
        rewrite (frames_to_broadcast env (store k c1 s) k c1 _ (Some (id c)) Hwf1
                   (lookup_store_eq k c1 c s Hk) Hin).
        cbn [same_id]. change (id c1) with (id c). rewrite String.eqb_refl.
        cbn [App.deliver fold_left].
        apply (synced_quiet s k a k c c1 Hwf Hsync Hk Hin eq_refl). left. reflexivity.
      * assert (Hk1 : objs (store k' c1 s) !! k = Some c)
          by (rewrite lookup_store_ne by exact Hne; exact Hk).
        rewrite (frames_to_broadcast env (store k' c1 s) k c _ (Some (id c0)) Hwf1
                   Hk1 Hin).
        pose proof (other_id s k k' c c0 Hwf Hin Hin' Hne) as Hids.
        cbn [same_id].
        assert (Hnot : String.eqb (id c) (id c0) = false)
          by (apply String.eqb_neq; congruence).
        rewrite Hnot, Hopen. cbn [App.deliver fold_left App.dispatch].
        apply (synced_update s k a k' c0 c1 Hwf Hsync Hk' Hin' eq_refl Hne).
        discriminate.
    + rewrite (on_message_ping env now k' buf s c0 t Hk' Hd). cbn [fst snd].
      cbn [frames_to omap list_omap App.deliver fold_left].
      apply (synced_quiet s k a k' c0 (set_lastSeen now c0) Hwf Hsync Hk' Hin' eq_refl).
      right. reflexivity.
    + rewrite (on_message_rejected env now k' buf s c0 Hk' Hd). cbn [fst snd].
      cbn [frames_to omap list_omap App.deliver fold_left].
      apply (synced_quiet s k a k' c0 (set_lastSeen now c0) Hwf Hsync Hk' Hin' eq_refl).
      right. reflexivity.
  - destruct Hadm as (c0 & Hk' & Hin').
    assert (Hne : k' <> k) by congruence.
    pose proof (other_id s k k' c c0 Hwf Hin Hin' Hne) as Hids.
    assert (Hwf1 : wf (fst (on_close env k' s))) by (apply wf_on_close, Hwf).
    assert (Hk1 : objs (fst (on_close env k' s)) !! k = Some c)
      by (rewrite on_close_objs; exact Hk).
    assert (Hin1 : (id c, k) ∈ clients (fst (on_close env k' s))).
    { unfold on_close. rewrite Hk'. cbn [fst clients].
      apply elem_of_map_delete. split; [exact Hin|]. cbn [fst]. congruence. }
    assert (Hfr : frames_to (ws c) (snd (on_close env k' s))
                  = [Protocol.PlayerLeaveMsg (id c0)]).
    { pose proof (frames_to_broadcast env (fst (on_close env k' s)) k c
                    (Protocol.PlayerLeaveMsg (id c0)) None Hwf1 Hk1 Hin1) as Hb.
      revert Hb. unfold on_close. rewrite Hk'. cbn [fst snd same_id].
      rewrite Hopen, frames_to_app, frames_to_adminBroadcast, app_nil_r.
      intros Hb. exact Hb. }
    rewrite Hfr. cbn [App.deliver fold_left App.dispatch].
    exists c. split; [exact Hk1|]. split; [exact Hin1|].
    split; [exact Hyou|].
    rewrite cursors_onPlayerLeave. fold (remove (id c0) (Renderer.cursors (App.renderer a))).
    split; [apply filter_keyed, Hnd|].
    intros x. rewrite elem_of_remove, (Hset x).
    symmetry. apply view_close; assumption.
  - cbn [on_admin_connection fst snd]. rewrite frames_to_adminBroadcast.
    cbn [App.deliver fold_left].
    exists c. split; [exact Hk|]. split; [exact Hin|].
    split; [exact Hyou|]. split; [exact Hnd|]. exact Hset.
Qed.

End SyncRun.

Section SyncTheorem.

Import Server.

Implicit Types (s : State) (c : ClientState) (env : Env) (k r : nat) (i : string)
  (a : App.App).

Lemma identity_run evs : forall s k c,
  objs s !! k = Some c ->
  exists c', objs (fst (run evs s)) !! k = Some c' /\ id c' = id c /\ ws c' = ws c.
Proof.
  induction evs as [|[[env now] ev] rest IH]; intros s k c Hk.
  - exists c. auto.
  - rewrite run_cons. cbn [fst].
    destruct (identity_step env now ev s k c Hk) as (c1 & Hc1 & Hid1 & Hws1).
    destruct (IH _ k c1 Hc1) as (c2 & Hc2 & Hid2 & Hws2).
    exists c2. split; [exact Hc2|]. split; congruence.
Qed.

(** The accept leaves the new client with the view of the store. *)
Lemma synced_accept env now sock nanoid s a :
  wf s -> admissible s (Connection sock nanoid) ->
  synced (fst (on_connection env now sock nanoid s)) (length (objs s))
    (App.deliver (frames_to sock (snd (on_connection env now sock nanoid s))) a).
Proof.
  intros Hwf Hadm.
  pose proof (wf_on_connection env now sock nanoid s Hwf Hadm) as Hwf1.
  set (s1 := fst (on_connection env now sock nanoid s)) in *.
  assert (Hfr : frames_to sock (snd (on_connection env now sock nanoid s))
                = [Protocol.WelcomeMsg nanoid GRID;
                   Protocol.PlayersSnapshotMsg (player_of <$> values s1)]).
  { unfold on_connection. cbn [snd app]. unfold frames_to.
    cbn [omap list_omap]. rewrite !Nat.eqb_refl. do 2 f_equal.
    exact (frames_to_adminBroadcast sock env _). }
  rewrite Hfr. cbn [App.deliver fold_left App.dispatch].
  exists (mkClientState nanoid None None now sock).
  split; [subst s1; cbn; apply list_lookup_middle; reflexivity|].
  split; [subst s1; cbn [on_connection fst clients id]; apply elem_of_map_set|].
  cbn [id].
  split; [reflexivity|].
  rewrite cursors_onPlayersSnapshot. cbn [App.youRef App.onWelcome].
  fold (view nanoid s1).
  split; [apply view_keyed, Hwf1 | reflexivity].
Qed.

(** Along an attended run the client stays with the view of the store. *)
Lemma synced_run evs : forall s k a c,
  wf s -> synced s k a -> objs s !! k = Some c -> attended k (ws c) evs s ->
  synced (fst (run evs s)) k
    (App.deliver (frames_to (ws c) (snd (run evs s))) a).
Proof.
  induction evs as [|[[env now] ev] rest IH]; intros s k a c Hwf Hsync Hk Hatt.
  - exact Hsync.
  - destruct Hatt as (Hadm & Hnc & Hopen & Hrest).
    rewrite run_cons. cbn [fst snd]. rewrite frames_to_app, deliver_app.
    destruct (identity_step env now ev s k c Hk) as (c1 & Hc1 & _ & Hws1).
    rewrite <- Hws1 in Hrest.
    pose proof (IH _ k
      (App.deliver (frames_to (ws c) (snd (step env now ev s))) a) c1
      (wf_step env now ev s Hwf Hadm)
      (synced_step env now ev s k a c Hwf Hsync Hk Hadm Hnc Hopen)
      Hc1 Hrest) as Hfin.
    rewrite Hws1 in Hfin. exact Hfin.
Qed.

End SyncTheorem.

(** X23.  The client follows the store.  Let a participant connect to a
    keyed store with the id [nanoid] gave and stay connected, its socket
    open at every step, while the server runs events that the transport and
    [nanoid] allow.  After the frames the server put on its socket are
    delivered in order, the application knows its id, its replicated set has
    no id twice, and the set holds exactly what a snapshot of the store taken
    now would give it: the other participants that have a cursor, with their
    present names and cursors. *)
Theorem client_view_tracks_store (env : Server.Env) (now : Z) (sock : nat)
    (nanoid : string) (s : Server.State)
    (evs : list (Server.Env * Z * Server.Event)) (a0 : App.App) :
  Server.wf s -> Server.admissible s (Server.Connection sock nanoid) ->
  attended (length (Server.objs s)) sock evs
    (fst (Server.on_connection env now sock nanoid s)) ->
  let s1 := fst (Server.on_connection env now sock nanoid s) in
  let out := snd (Server.on_connection env now sock nanoid s)
               ++ snd (Server.run evs s1) in
  let a := App.deliver (frames_to sock out) a0 in
  App.youRef a = Some nanoid
  /\ NoDup (Renderer.id <$> Renderer.cursors (App.renderer a))
  /\ forall x,
      x ∈ Renderer.cursors (App.renderer a)
      <-> x ∈ omap App.replicate
                (List.filter (App.keep (Some nanoid))
                   (Server.player_of <$> Server.values (fst (Server.run evs s1)))).
Proof.
  intros Hwf Hadm Hatt s1 out a.
  pose proof (synced_accept env now sock nanoid s a0 Hwf Hadm) as Hacc.
  pose proof (wf_on_connection env now sock nanoid s Hwf Hadm) as Hwf1.
  fold s1 in Hacc, Hwf1, Hatt.
  assert (Hk : Server.objs s1 !! length (Server.objs s)
               = Some (Server.mkClientState nanoid None None now sock)).
  { subst s1. cbn. apply list_lookup_middle. reflexivity. }
  pose proof (synced_run evs s1 (length (Server.objs s)) _ _ Hwf1 Hacc Hk Hatt)
    as (c2 & Hk2 & _ & Hyou & Hnd & Hset).
  destruct (identity_run evs s1 _ _ Hk) as (c2' & Hk2' & Hid & _).
  assert (c2' = c2) by congruence. subst c2'. cbn [Server.id] in Hid.
  cbn [Server.ws] in Hyou, Hnd, Hset.
  subst a out. rewrite frames_to_app, deliver_app.
  rewrite Hid in Hyou, Hset.
  split; [exact Hyou|]. split; [exact Hnd | exact Hset].
Qed.

(** "d4" joins the session of three; then "b2" moves to (5, 3), "a1"
    introduces itself and leaves. *)
Lemma client_view_tracks_store_witness :
  let evs := [(env3, 5, Server.Message 1 cursor_5_3);
              (env3, 6, Server.Message 0 hello_Ann);
              (env3, 7, Server.Close 0)] in
  let s1 := fst (Server.on_connection env3 4 3 "d4" three_clients) in
  let out := snd (Server.on_connection env3 4 3 "d4" three_clients)
               ++ snd (Server.run evs s1) in
  frames_to 3 out
  = [Protocol.WelcomeMsg "d4" Server.GRID;
     Protocol.PlayersSnapshotMsg
       [Protocol.mkPlayer "a1" None None 1; Protocol.mkPlayer "b2" None None 2;
        Protocol.mkPlayer "c3" None None 3; Protocol.mkPlayer "d4" None None 4];
     Protocol.PlayerUpdateMsg
       (Protocol.mkPlayer "b2" None (Some (Protocol.mkCursor 5 3)) 5);
     Protocol.PlayerUpdateMsg (Protocol.mkPlayer "a1" (Some "Ann") None 6);
     Protocol.PlayerLeaveMsg "a1"]
  /\ Renderer.cursors (App.renderer (App.deliver (frames_to 3 out) App.init))
     = [Renderer.mkReplicatedCursor "b2" None 5 3]
  /\ App.youRef (App.deliver (frames_to 3 out) App.init) = Some "d4".
Proof.
  intros evs s1 out. split; [reflexivity|]. split; [reflexivity|].
  refine (proj1 (client_view_tracks_store env3 4 3 "d4" three_clients evs App.init
            (reachable_wf _ three_clients_reachable) _ _)).
  - fresh_connection.
  - cbn [attended].
    split; [eexists; split; [reflexivity | apply list_elem_of_In; right; left; reflexivity]|].
    split; [discriminate|]. split; [reflexivity|].
    split; [eexists; split; [reflexivity | apply list_elem_of_In; left; reflexivity]|].
    split; [discriminate|]. split; [reflexivity|].
    split; [eexists; split; [reflexivity | apply list_elem_of_In; left; reflexivity]|].
    split; [discriminate|]. split; [reflexivity | exact I].
Defined.
